(** * tlpipe: raw timestream container, frequency flagging, multiscale transforms

    A shallow embedding of
    - [tlpipe/utils/multiscale.py]        (module [Multiscale]),
    - [tlpipe/timestream/raw_timestream.py] (module [RawTs]),
    - [tlpipe/timestream/freq_flag.py]    (module [FreqFlag]),
    - [tlpipe/timestream/rt2ts.py]        (module [Rt2ts]),
    - the baseline reordering and the redundancy bins of
      [tlpipe/timestream/map_making1.py]  (module [MapMaking]),
    followed by the properties established about them.

    Python exceptions are values of [exn]; a computation that may raise
    returns a [result].  [RuntimeErrorOf fmt names] is the
    [RuntimeError] whose message is the format [fmt] with the set
    [names] substituted: the set is kept as a value, since the order in
    which Python renders its members is not fixed.  Arrays of visibilities hold complex binary64
    numbers; the multiscale transforms are stated over exact rationals. *)

From Stdlib Require Import ZArith QArith Qcanon Lia.
From Stdlib Require Import Floats.PrimFloat.
From stdpp Require Import base option gmap sets list strings sorting.

(** ** Exceptions and the error monad *)

Inductive exn : Type :=
  | NameError (name : string)
  | AttributeError
  | ValueError
  | IndexError
  | TypeError
  | OverflowError
  | RuntimeError (msg : string)
  | RuntimeErrorOf (fmt : string) (names : gset string).

Inductive result (A : Type) : Type :=
  | Ok (a : A)
  | Raise (e : exn).
Arguments Ok {A} a.
Arguments Raise {A} e.

#[global] Instance result_ret : MRet result := @Ok.
#[global] Instance result_bind : MBind result := λ A B f m,
  match m with Ok a => f a | Raise e => Raise e end.
#[global] Instance result_fmap : FMap result := λ A B f m,
  match m with Ok a => Ok (f a) | Raise e => Raise e end.

Definition is_Ok {A} (r : result A) : Prop := ∃ a, r = Ok a.

(** [l[i]] for a non-negative index: [IndexError] when out of range. *)
Definition getitem {A} (l : list A) (i : nat) : result A :=
  match l !! i with Some x => Ok x | None => Raise IndexError end.

(** [l.index(x)]: position of the first element equal to [x],
    [ValueError] when there is none. *)
Definition index {A} `{EqDecision A} (l : list A) (x : A) : result nat :=
  match list_find (λ y, y = x) l with
  | Some (i, _) => Ok i
  | None => Raise ValueError
  end.

(** ** multiscale.py *)

Module Multiscale.

Local Open Scope Qc_scope.

(** An n-dimensional array: its shape and its entries by multi-index.
    The entries are read as exact rationals: what is proved about the
    transforms holds in exact arithmetic, not up to the rounding of
    binary64.  The record carries no dtype: the transforms below take
    as [phi] the kernel after the cast [phi.astype(a.dtype)] of their
    first lines, which is the kernel itself for an array of floating
    dtype and [astype_int phi] for one of integer dtype. *)
Record ndarray : Type := NDArray {
  shape : list nat;
  data : list nat → Qc
}.

Definition ndim (a : ndarray) : nat := length (shape a).

Definition of_list (l : list Qc) : ndarray :=
  {| shape := [length l];
     data := λ idx, match idx with [i] => nth i l 0 | _ => 0 end |}.

(** [a - b] and [a + b] on arrays of one shape. *)
Definition sub (a b : ndarray) : ndarray :=
  {| shape := shape a; data := λ idx, data a idx - data b idx |}.
Definition add (a b : ndarray) : ndarray :=
  {| shape := shape a; data := λ idx, data a idx + data b idx |}.

(** an integer as an array entry *)
Definition qz (z : Z) : Qc := Q2Qc (inject_Z z).

Definition Qc_abs (x : Qc) : Qc := if Qclt_le_dec x 0 then - x else x.

#[global] Instance Qcle_dec (x y : Qc) : Decision (x <= y).
Proof. unfold Qcle, Qle. apply _. Defined.

(** every multi-index of an array of the given shape, in C order *)
Fixpoint all_indices (shp : list nat) : list (list nat) :=
  match shp with
  | [] => [[]]
  | n :: rest => i ← seq 0 n; (λ idx, i :: idx) <$> all_indices rest
  end.

(** [_phi]: the default spline wavelet scaling function *)
Definition _phi : list Qc :=
  [Q2Qc (1#16); Q2Qc (1#4); Q2Qc (3#8); Q2Qc (1#4); Q2Qc (1#16)].

(** [np.median] of the flattened array (0 stands for the nan of an empty one) *)
Definition median_list (vals : list Qc) : Qc :=
  let s := merge_sort Qcle vals in
  let n := length s in
  if (n =? 0)%nat then 0
  else if Nat.odd n then nth (n / 2) s 0
  else (nth (n / 2 - 1) s 0 + nth (n / 2) s 0) / Q2Qc 2.

Definition np_median (a : ndarray) : Qc :=
  median_list (data a <$> all_indices (shape a)).

Definition np_abs (a : ndarray) : ndarray :=
  {| shape := shape a; data := λ idx, Qc_abs (data a idx) |}.

Definition sub_scalar (a : ndarray) (c : Qc) : ndarray :=
  {| shape := shape a; data := λ idx, data a idx - c |}.

(** the binary64 number written [0.6745] *)
Definition c_6745 : Qc := Q2Qc (6075355897322799 # 9007199254740992).

Definition MAD (a : ndarray) : Qc :=
  np_median (np_abs (sub_scalar a (np_median a))) / c_6745.

(** Up-sampling a (one-dimensional) array by interleaving it with zeros:
    [a1 = zeros(2n-1); a1[::2] = a].  [np.zeros] rejects the negative
    length obtained from an empty array. *)
Definition up_sampling (a : list Qc) : result (list Qc) :=
  match a with
  | [] => Raise ValueError
  | _ => Ok ((λ k, if Nat.even k then nth (k / 2) a 0 else 0)
               <$> seq 0 (2 * length a - 1))
  end.

(** index of the [mode='reflect'] extension (d c b a | a b c d | d c b a) *)
Definition reflect (i : Z) (n : nat) : nat :=
  if (n =? 0)%nat then 0%nat
  else
    let p := (2 * Z.of_nat n)%Z in
    let m := (i mod p)%Z in
    if (m <? Z.of_nat n)%Z then Z.to_nat m else Z.to_nat (p - 1 - m).

(** [scipy.ndimage.convolve1d(a, weights, axis=axis, mode='reflect')]:
    the weights are reversed, the origin is moved by one for an even
    length, and the correlation
    [out[i] = sum_j w[j] * ext[i + j - len/2 - origin]] is taken along
    [axis]. *)
Definition convolve1d (a : ndarray) (weights : list Qc) (axis : nat)
  : result ndarray :=
  match weights with
  | [] => Raise (RuntimeError "no filter weights given")
  | _ =>
    match shape a !! axis with
    | None => Raise ValueError
    | Some n =>
      let w := rev weights in
      let len := Z.of_nat (length w) in
      let origin := if Z.even len then (-1)%Z else 0%Z in
      Ok {| shape := shape a;
            data := λ idx,
              let i := Z.of_nat (nth axis idx 0%nat) in
              foldr Qcplus 0
                (imap (λ j wj,
                   wj * data a (<[axis := reflect (i + Z.of_nat j - len / 2 - origin) n]> idx))
                 w) |}
    end
  end.

(** [for ax in xrange(a.ndim): a = convolve1d(a, phi, axis=ax, mode='reflect')] *)
Fixpoint convolve_axes (axes : list nat) (a : ndarray) (phi : list Qc)
  : result ndarray :=
  match axes with
  | [] => Ok a
  | ax :: rest => a' ← convolve1d a phi ax; convolve_axes rest a' phi
  end.

Definition convolve (a : ndarray) (phi : list Qc) : result ndarray :=
  convolve_axes (seq 0 (ndim a)) a phi.

(** What a global name of the module is bound to. *)
Inductive pyval : Type :=
  | PyModule
  | PyFunction
  | PyArray (l : list Qc).

(** The names bound at module level in multiscale.py. *)
Definition module_globals : list (string * pyval) :=
  [ ("np", PyModule); ("convolve1d", PyFunction);
    ("median_filter", PyFunction); ("_phi", PyArray _phi);
    ("MAD", PyFunction); ("up_sampling", PyFunction);
    ("convolve", PyFunction); ("starlet_transform", PyFunction);
    ("starlet_smooth", PyFunction); ("starlet_detrend", PyFunction);
    ("multiscale_median_transform", PyFunction);
    ("multiscale_median_smooth", PyFunction);
    ("multiscale_median_detrend", PyFunction);
    ("median_wavelet_transform", PyFunction);
    ("median_wavelet_smooth", PyFunction);
    ("median_wavelet_detrend", PyFunction) ]%string.

(** Reading a name that is not assigned in the function body: it is
    looked up among the module's globals (the builtins that follow hold
    no name used here that the module lacks). *)
Definition load_global (x : string) : result pyval :=
  match list_find (λ kv, kv.1 = x) module_globals with
  | Some (_, kv) => Ok kv.2
  | None => Raise (NameError x)
  end.

(** [int(np.ceil(np.log2(np.min(shp))))] *)
Definition ceil_log2_min (shp : list nat) : result Z :=
  match shp with
  | [] => Raise ValueError
  | n :: rest =>
    let m := foldr Nat.min n rest in
    if (m =? 0)%nat then Raise OverflowError
    else Ok (Z.log2_up (Z.of_nat m))
  end.

(** The [level == None] branch shared by the three transforms:
    [level = int(np.ceil(np.log2(np.min(input_image.shape))))]. *)
Definition default_level : result Z :=
  _ ← load_global "np";
  v ← load_global "input_image";
  match v with
  | PyArray l => ceil_log2_min [length l]
  | _ => Raise AttributeError
  end.

Definition resolve_level (level : option Z) : result Z :=
  match level with
  | None => default_level
  | Some l => Ok l
  end.

(** The loop of [starlet_transform], [n] iterations starting at
    iteration number [li]; returns [W] and the last [approx]. *)
Fixpoint starlet_loop (gen2 approx_only : bool) (n li : nat)
    (phi : list Qc) (a : ndarray) (W : list ndarray)
  : result (list ndarray * ndarray) :=
  match n with
  | O => Ok (W, a)
  | S n' =>
    phi ← (if (0 <? li)%nat then up_sampling phi else Ok phi);
    approx ← convolve a phi;
    W ← (if approx_only then Ok W
         else if gen2 then c ← convolve approx phi; Ok (W ++ [sub a c])
         else Ok (W ++ [sub a approx]));
    starlet_loop gen2 approx_only n' (S li) phi approx W
  end.

Definition starlet_transform (a : ndarray) (level : option Z)
    (gen2 approx_only : bool) (phi : list Qc) : result (list ndarray) :=
  level ← resolve_level level;
  if (level <=? 0)%Z then Ok [a]
  else
    '(W, approx) ← starlet_loop gen2 approx_only (Z.to_nat level) 0 phi a [];
    Ok (W ++ [approx]).

(** [xs[0]] *)
Definition head0 (xs : result (list ndarray)) : result ndarray :=
  l ← xs; getitem l 0.

Definition starlet_smooth (a : ndarray) (level : option Z) (phi : list Qc)
  : result ndarray :=
  head0 (starlet_transform a level false true phi).

Definition starlet_detrend (a : ndarray) (level : option Z) (phi : list Qc)
  : result ndarray :=
  s ← starlet_smooth a level phi; Ok (sub a s).

(** [scipy.ndimage.median_filter(a, size)] with the default
    [mode='reflect']: the entry of rank [size^ndim // 2] among the
    values under a window of [size] samples along every axis.  A
    negative size is refused when the footprint is allocated
    ([ValueError]), an empty footprint when its shape is checked
    ([RuntimeError]). *)
Fixpoint window_offsets (nd size : nat) : list (list Z) :=
  match nd with
  | O => [[]]
  | S k =>
    o ← seq 0 size;
    (λ r, (Z.of_nat o - Z.of_nat (size / 2))%Z :: r) <$> window_offsets k size
  end.

Definition shift_index (shp idx : list nat) (off : list Z) : list nat :=
  imap (λ k n, reflect (Z.of_nat (nth k idx 0%nat) + nth k off 0%Z) n) shp.

Definition median_filter (a : ndarray) (size : Z) : result ndarray :=
  if (size <? 0)%Z then Raise ValueError
  else if (size =? 0)%Z then
    Raise (RuntimeError "filter footprint array has incorrect shape.")
  else
    let offs := window_offsets (ndim a) (Z.to_nat size) in
    Ok {| shape := shape a;
          data := λ idx,
            let vals := (λ off, data a (shift_index (shape a) idx off)) <$> offs in
            nth (length vals / 2) (merge_sort Qcle vals) 0 |}.

(** The loop of [multiscale_median_transform]. *)
Fixpoint median_loop (approx_only : bool) (n li : nat) (scale : Z)
    (a : ndarray) (W : list ndarray) : result (list ndarray * ndarray) :=
  match n with
  | O => Ok (W, a)
  | S n' =>
    let scale := if (0 <? li)%nat then (scale * 2)%Z else scale in
    approx ← median_filter a (2 * scale + 1);
    let W := if approx_only then W else W ++ [sub a approx] in
    median_loop approx_only n' (S li) scale approx W
  end.

Definition multiscale_median_transform (a : ndarray) (level : option Z)
    (scale : Z) (approx_only : bool) : result (list ndarray) :=
  level ← resolve_level level;
  if (level <=? 0)%Z then Ok [a]
  else
    '(W, approx) ← median_loop approx_only (Z.to_nat level) 0 scale a [];
    Ok (W ++ [approx]).

Definition multiscale_median_smooth (a : ndarray) (level : option Z)
    (scale : Z) : result ndarray :=
  head0 (multiscale_median_transform a level scale true).

Definition multiscale_median_detrend (a : ndarray) (level : option Z)
    (scale : Z) : result ndarray :=
  s ← multiscale_median_smooth a level scale; Ok (sub a s).

(** [w[np.abs(w) > th] = 0] *)
Definition clip_above (w : ndarray) (th : Qc) : ndarray :=
  {| shape := shape w;
     data := λ idx, if Qclt_le_dec th (Qc_abs (data w idx)) then 0 else data w idx |}.

(** The loop of [median_wavelet_transform]. *)
Fixpoint median_wavelet_loop (approx_only : bool) (n li : nat) (scale : Z)
    (tau : Qc) (phi : list Qc) (a : ndarray) (W : list ndarray)
  : result (list ndarray * ndarray) :=
  match n with
  | O => Ok (W, a)
  | S n' =>
    let scale := if (0 <? li)%nat then (scale * 2)%Z else scale in
    approx ← median_filter a (2 * scale + 1);
    let w := sub a approx in
    let th := tau * MAD w in
    let w := clip_above w th in
    let approx := add approx w in
    approx ← starlet_smooth approx (Some (Z.of_nat li + 1)%Z) phi;
    let W := if approx_only then W else W ++ [sub a approx] in
    median_wavelet_loop approx_only n' (S li) scale tau phi approx W
  end.

Definition median_wavelet_transform (a : ndarray) (level : option Z)
    (scale : Z) (tau : Qc) (approx_only : bool) (phi : list Qc)
  : result (list ndarray) :=
  level ← resolve_level level;
  if (level <=? 0)%Z then Ok [a]
  else
    '(W, approx) ←
      median_wavelet_loop approx_only (Z.to_nat level) 0 scale tau phi a [];
    Ok (W ++ [approx]).

Definition median_wavelet_smooth (a : ndarray) (level : option Z)
    (scale : Z) (tau : Qc) (phi : list Qc) : result ndarray :=
  head0 (median_wavelet_transform a level scale tau true phi).

Definition median_wavelet_detrend (a : ndarray) (level : option Z)
    (scale : Z) (tau : Qc) (phi : list Qc) : result ndarray :=
  s ← median_wavelet_smooth a level scale tau phi; Ok (sub a s).

(** the entries at multi-index [idx] of the arrays a transform returned *)
Definition entries_at (idx : list nat) (r : result (list ndarray)) : list Qc :=
  match r with Ok W => (λ w, data w idx) <$> W | Raise _ => [] end.

(** the sum of the entries at [idx] over a list of arrays *)
Definition total_at (idx : list nat) (W : list ndarray) : Qc :=
  foldr (λ w acc, data w idx + acc) 0 W.

(** element-wise sum of a list of arrays *)
Definition sum_arrays (W : list ndarray) : option ndarray :=
  match W with
  | [] => None
  | w :: ws => Some (foldl add w ws)
  end.

(** *** Notions used in the statements *)

(** [x.astype(int)] of a floating-point number: the fraction is dropped *)
Definition trunc (q : Qc) : Qc := qz (Z.quot (Qnum q) (Zpos (Qden q))).

(** [phi.astype(a.dtype)] for an array [a] of integer dtype *)
Definition astype_int (phi : list Qc) : list Qc := trunc <$> phi.

(** the multi-indices of an array of shape [shp] *)
Definition in_bounds (shp idx : list nat) : Prop := Forall2 lt idx shp.

(** the array holds [c] at every multi-index of its shape *)
Definition constant_on (a : ndarray) (c : Qc) : Prop :=
  ∀ idx, in_bounds (shape a) idx → data a idx = c.

(** the sum of the entries of a one-dimensional array *)
Definition weight_sum (w : list Qc) : Qc := foldr Qcplus 0 w.

End Multiscale.

(** ** raw_timestream.py *)

Module RawTs.

(** A visibility: a complex number, real and imaginary part. *)
Definition complex : Type := float * float.

(** a count as a float *)
Definition float_of_nat (n : nat) : float :=
  Nat.iter n (λ x, PrimFloat.add x 1%float) 0%float.

(** [z.conj()] *)
Definition conj (z : complex) : complex := (z.1, PrimFloat.opp z.2).

(** *** Python lists: slices, sorting, combinations *)

(** the slice built from a tuple [value] of one to three entries *)
Definition slice_args (t : list (option Z))
  : result (option Z * option Z * option Z) :=
  match t with
  | [stop] => Ok (None, stop, None)
  | [start; stop] => Ok (start, stop, None)
  | [start; stop; step] => Ok (start, stop, step)
  | _ => Raise TypeError
  end.

(** [slice(start, stop, step).indices(len)] *)
Definition slice_indices (start stop step : option Z) (len : Z)
  : result (Z * Z * Z) :=
  let step := default 1%Z step in
  if (step =? 0)%Z then Raise ValueError
  else
    let lower := if (step <? 0)%Z then (-1)%Z else 0%Z in
    let upper := if (step <? 0)%Z then (len - 1)%Z else len in
    let clamp v :=
      if (v <? 0)%Z then Z.max (v + len) lower else Z.min v upper in
    let start :=
      match start with
      | None => if (step <? 0)%Z then upper else lower
      | Some v => clamp v
      end in
    let stop :=
      match stop with
      | None => if (step <? 0)%Z then lower else upper
      | Some v => clamp v
      end in
    Ok (start, stop, step).

(** [l[slice(start, stop, step)]] *)
Definition list_slice {A} (l : list A) (start stop step : option Z)
  : result (list A) :=
  '(start, stop, step) ← slice_indices start stop step (Z.of_nat (length l));
  let n :=
    if (0 <? step)%Z then ((stop - start + step - 1) / step)%Z
    else ((start - stop - step - 1) / (- step))%Z in
  Ok (omap (λ k, l !! Z.to_nat (start + Z.of_nat k * step)) (seq 0 (Z.to_nat n))).

(** [sorted(l)] on integers *)
Definition sorted (l : list Z) : list Z := merge_sort Z.le l.

(** [np.intersect1d(a, b)]: the sorted, unique values that are in both *)
Definition intersect1d (a b : list Z) : list Z :=
  sorted (elements ((list_to_set a : gset Z) ∩ list_to_set b)).

(** [itertools.combinations(l, 2)] *)
Fixpoint combinations2 {A} (l : list A) : list (A * A) :=
  match l with
  | [] => []
  | x :: t => (pair x <$> t) ++ combinations2 t
  end.

(** [itertools.combinations_with_replacement(l, 2)] *)
Fixpoint combinations_with_replacement2 {A} (l : list A) : list (A * A) :=
  match l with
  | [] => []
  | x :: t => (pair x <$> (x :: t)) ++ combinations_with_replacement2 t
  end.

(** [[ (xs[i], ys[j]) for i in xrange(n) for j in xrange(i, n) ]];
    the lists indexed here have [n] entries. *)
Definition upper_pairs (xs ys : list Z) (n : nat) : list (Z * Z) :=
  i ← seq 0 n; j ← seq i (n - i); [(nth i xs 0%Z, nth j ys 0%Z)].

(** the index pairs [(i, j)], [i <= j < n], in the order of the
    comprehension above *)
Definition index_pairs (n : nat) : list (nat * nat) :=
  i ← seq 0 n; j ← seq i (n - i); [(i, j)].

(** *** The containers *)

(** What [feed_select] reads from the first input file. *)
Record InFile : Type := {
  f_feedno : list Z;
  f_channo : list (Z * Z);
  f_blorder : list (Z * Z)
}.

(** The argument [value] of [feed_select]. *)
Inductive selection : Type :=
  | SelTuple (t : list (option Z))
  | SelList (l : list Z)
  | SelOther.

#[global] Instance selection_eq_dec : EqDecision selection.
Proof. solve_decision. Defined.

Definition main_data_axes : list string :=
  ["time"; "frequency"; "baseline"]%string.

Definition time_ordered_attrs : list string := ["obstime"; "sec1970"]%string.

(** A [RawTimestream].  [vis] and [vis_mask] are indexed
    [time][frequency][baseline] and hold the whole baseline axis;
    [bl_select] is the baseline selection in force ([None]: all). *)
Record RawTimestream : Type := {
  infiles : list InFile;
  bl_select : option (list nat);
  _feed_select : option (list Z);
  _channel_select : option (list (Z * Z));
  main_data_dist_axis : nat;
  freq : list float;
  feedno : list Z;
  channo : list (Z * Z);
  blorder : list (Z * Z);
  vis : list (list (list complex));
  vis_mask : list (list (list bool));
  attrs : list (string * string);
  bl_ordered_datasets : list string
}.

(** A [Timestream]: [ts_vis] and [ts_vis_mask] are indexed
    [time][frequency][polarization][baseline]. *)
Record Timestream : Type := {
  ts_dist_axis : nat;
  ts_freq : list float;
  ts_vis : list (list (list (list complex)));
  ts_vis_mask : list (list (list (list bool)));
  ts_dimname : string;
  ts_pol : list string;
  ts_pol_type : string;
  ts_blorder : list (Z * Z);
  ts_feedno : list Z;
  ts_attrs : list (string * string)
}.

(** Modelled from the spec: [redistribute] of the base container
    (container.BasicTod is not among the sources): the main dataset's
    distribution axis becomes [axis]; [InvalidAxis] if [axis] is not one
    of its axes. *)
Definition redistribute (self : RawTimestream) (axis : nat)
  : result RawTimestream :=
  if decide (axis < length main_data_axes)%nat then
    Ok {| infiles := infiles self; bl_select := bl_select self;
          _feed_select := _feed_select self;
          _channel_select := _channel_select self;
          main_data_dist_axis := axis;
          freq := freq self; feedno := feedno self; channo := channo self;
          blorder := blorder self; vis := vis self;
          vis_mask := vis_mask self; attrs := attrs self;
          bl_ordered_datasets := bl_ordered_datasets self |}
  else Raise (RuntimeError "InvalidAxis").

(** Modelled from the spec: [data_select('baseline', indices)] of the
    base container (container.BasicTod is not among the sources): the
    index set is recorded and "applied as a baseline-axis index-set
    selection". *)
Definition data_select_baseline (self : RawTimestream) (indices : list nat)
    (feeds : list Z) (chans : list (Z * Z)) : RawTimestream :=
  {| infiles := infiles self; bl_select := Some indices;
     _feed_select := Some feeds; _channel_select := Some chans;
     main_data_dist_axis := main_data_dist_axis self;
     freq := freq self; feedno := feedno self; channo := channo self;
     blorder := blorder self; vis := vis self;
     vis_mask := vis_mask self; attrs := attrs self;
     bl_ordered_datasets := bl_ordered_datasets self |}.

(** [arr[t, f]], [arr[t, f, b]] and [arr[t, f, p, b]] *)
Definition row_at {A} (arr : list (list A)) (t f : nat) : option A :=
  match arr !! t with Some plane => plane !! f | None => None end.

Definition at3 {A} (arr : list (list (list A))) (t f b : nat) : option A :=
  match row_at arr t f with Some row => row !! b | None => None end.

Definition at4 {A} (arr : list (list (list (list A)))) (t f p b : nat)
  : option A :=
  match row_at arr t f with Some pols => row_at pols p b | None => None end.

(** [arr[:, :, inds]] *)
Definition gather {A} (inds : list nat) (arr : list (list (list A)))
  : result (list (list (list A))) :=
  mapM (mapM (λ row, mapM (getitem row) inds)) arr.

(** *** feed_select *)

(** [channo[feedno.index(fd)]] *)
Definition feed_channels (feedno : list Z) (channo : list (Z * Z)) (fd : Z)
  : result (Z * Z) :=
  i ← index feedno fd; getitem channo i.

(** the four channel sets of a pair of feeds *)
Definition cross_sets (c12 c34 : Z * Z) : list (gset Z) :=
  [ {[c12.1; c34.1]}; {[c12.1; c34.2]}; {[c12.2; c34.1]}; {[c12.2; c34.2]} ].

(** The list [channel_pairs] built by [feed_select]. *)
Definition channel_pairs (feedno : list Z) (channo : list (Z * Z))
    (feeds : list Z) (corr : string) : result (list (gset Z)) :=
  let one (fd : Z) : result (list (gset Z)) :=
    c12 ← feed_channels feedno channo fd;
    Ok [ {[c12.1]}; {[c12.2]}; {[c12.1; c12.2]} ] in
  let both (fds : Z * Z) : result (list (gset Z)) :=
    c12 ← feed_channels feedno channo fds.1;
    c34 ← feed_channels feedno channo fds.2;
    Ok (cross_sets c12 c34) in
  if decide (corr = "auto") then
    ls ← mapM one feeds; Ok (mjoin ls)
  else if decide (corr = "cross") then
    ls ← mapM both (combinations2 feeds); Ok (mjoin ls)
  else if decide (corr = "all") then
    ls ← mapM both (combinations_with_replacement2 feeds); Ok (mjoin ls)
  else Raise ValueError.

(** [[ set(bl) for bl in blorder ]] *)
Definition blorder_sets (blorder : list (Z * Z)) : list (gset Z) :=
  (λ bl, {[bl.1; bl.2]}) <$> blorder.

(** [sorted(list({ blorder.index(chp) for chp in channel_pairs }))] *)
Definition pair_indices (blorder : list (gset Z)) (chps : list (gset Z))
  : result (list nat) :=
  idxs ← mapM (index blorder) chps;
  Ok (merge_sort Nat.le (elements (list_to_set idxs : gset nat))).

Definition feed_select (self : RawTimestream) (value : selection)
    (corr : string) : result RawTimestream :=
  if decide (value = SelTuple [Some 0%Z; None] ∧ corr = "all") then
    (* select all, no need to do anything *)
    Ok self
  else
    f0 ← getitem (infiles self) 0;
    let feedno := f_feedno f0 in
    feeds ← match value with
            | SelTuple t =>
              '(start, stop, step) ← slice_args t;
              list_slice feedno start stop step
            | SelList l => Ok (intersect1d feedno l)
            | SelOther => Raise ValueError
            end;
    let channo := f_channo f0 in
    chps ← channel_pairs feedno channo feeds corr;
    let blorder := blorder_sets (f_blorder f0) in
    indices ← pair_indices blorder chps;
    chans ← mapM (feed_channels feedno channo) feeds;
    Ok (data_select_baseline self indices feeds chans).

(** The index list [feed_select] computes once the feeds are settled. *)
Definition select_indices (f0 : InFile) (feeds : list Z) (corr : string)
  : result (list nat) :=
  chps ← channel_pairs (f_feedno f0) (f_channo f0) feeds corr;
  pair_indices (blorder_sets (f_blorder f0)) chps.

(** *** separate_pol_and_bl *)

(** [[ self['channo'][feedno.index(fd)][0] for fd in feedno ]] and its
    counterpart for the second channel, over the sorted feed numbers. *)
Definition xchans (self : RawTimestream) : result (list Z) :=
  let feedno := sorted (feedno self) in
  mapM (λ fd, i ← index feedno fd; c ← getitem (channo self) i; Ok c.1) feedno.

Definition ychans (self : RawTimestream) : result (list Z) :=
  let feedno := sorted (feedno self) in
  mapM (λ fd, i ← index feedno fd; c ← getitem (channo self) i; Ok c.2) feedno.

(** [[ tuple(bl[::-1]) for bl in self['blorder'] ]] *)
Definition conj_blorder (blorder : list (Z * Z)) : list (Z * Z) :=
  (λ bl, (bl.2, bl.1)) <$> blorder.

(** The local function [_get_ind]: the pair is looked up in [blorder];
    on [ValueError] it is looked up among the reversed pairs and flagged
    for conjugation. *)
Definition _get_ind (blorder : list (Z * Z)) (chp : Z * Z)
  : result (bool * nat) :=
  match index blorder chp with
  | Ok i => Ok (false, i)
  | Raise ValueError => i ← index (conj_blorder blorder) chp; Ok (true, i)
  | Raise e => Raise e
  end.

(** [np.where(cj, arr.conj(), arr)], [cj] being broadcast along the
    last axis *)
Definition where_conj (cj : list bool) (arr : list (list (list complex)))
  : list (list (list complex)) :=
  (λ plane : list (list complex),
     (λ row : list complex,
        zip_with (λ (c : bool) v, if c then conj v else v) cj row) <$> plane)
  <$> arr.

(** the array [out] with [out[:, :, 0] = a], [out[:, :, 1] = b],
    [out[:, :, 2] = c], [out[:, :, 3] = d] *)
Definition stack4 {A} (a b c d : list (list (list A)))
  : list (list (list (list A))) :=
  let at_ (x : list (list (list A))) (t f : nat) : list A :=
    default [] (row_at x t f) in
  imap (λ t plane, imap (λ f row, [row; at_ b t f; at_ c t f; at_ d t f]) plane) a.

Definition separate_pol_and_bl (self : RawTimestream) (keep_dist_axis : bool)
  : result (Timestream * RawTimestream) :=
  (* if dist axis is baseline, redistribute it along time *)
  let original_dist_axis := main_data_dist_axis self in
  axis_name ← getitem main_data_axes original_dist_axis;
  ks ← (if decide ("baseline"%string = axis_name) then
          (* can not keep dist axis in this case *)
          self ← redistribute self 0; Ok (false, self)
        else Ok (keep_dist_axis, self));
  let keep_dist_axis : bool := ks.1 in
  let self : RawTimestream := ks.2 in
  let file_feedno := feedno self in
  let feedno := sorted (feedno self) in
  xchans ← xchans self;
  ychans ← ychans self;
  let nfeed := length feedno in
  let xx_pairs := upper_pairs xchans xchans nfeed in
  let yy_pairs := upper_pairs ychans ychans nfeed in
  let xy_pairs := upper_pairs xchans ychans nfeed in
  let yx_pairs := upper_pairs ychans xchans nfeed in
  xx_list ← mapM (_get_ind (blorder self)) xx_pairs;
  yy_list ← mapM (_get_ind (blorder self)) yy_pairs;
  xy_list ← mapM (_get_ind (blorder self)) xy_pairs;
  yx_list ← mapM (_get_ind (blorder self)) yx_pairs;
  let inds (l : list (bool * nat)) := snd <$> l in
  let cjs (l : list (bool * nat)) := fst <$> l in
  (* the pol and bl separated vis *)
  let rvis := vis self in
  v0 ← gather (inds xx_list) rvis;
  v1 ← gather (inds yy_list) rvis;
  v2 ← gather (inds xy_list) rvis;
  v3 ← gather (inds yx_list) rvis;
  let vis := stack4 (where_conj (cjs xx_list) v0) (where_conj (cjs yy_list) v1)
                    (where_conj (cjs xy_list) v2) (where_conj (cjs yx_list) v3) in
  (* the pol and bl separated vis_mask *)
  let rvis_mask := vis_mask self in
  m0 ← gather (inds xx_list) rvis_mask;
  m1 ← gather (inds yy_list) rvis_mask;
  m2 ← gather (inds xy_list) rvis_mask;
  m3 ← gather (inds yx_list) rvis_mask;
  let vis_mask := stack4 m0 m1 m2 m3 in
  (* bl ordered dataset *)
  let blorder := upper_pairs feedno feedno nfeed in
  if decide (0 < length (filter (λ k, k ∉ ["vis"; "vis_mask"; "blorder"]%string)
                                (bl_ordered_datasets self)))%nat
  then Raise (RuntimeErrorOf "Should not have other bl_ordered_datasets %s"
                (list_to_set (bl_ordered_datasets self)
                 ∖ ({["vis"; "vis_mask"; "blorder"]}%string : gset string)))
  else
    let ts :=
      {| ts_dist_axis := main_data_dist_axis self;
         ts_freq := freq self;
         ts_vis := vis;
         ts_vis_mask := vis_mask;
         ts_dimname := "Time, Frequency, Polarization, Baseline";
         ts_pol := ["xx"; "yy"; "xy"; "yx"]%string;
         ts_pol_type := "linear";
         ts_blorder := blorder;
         ts_feedno := file_feedno;
         ts_attrs := filter (λ kv, kv.1 ∉ time_ordered_attrs) (attrs self) |} in
    (* redistribute self to original axis *)
    self ← (if keep_dist_axis then redistribute self original_dist_axis
            else Ok self);
    Ok (ts, self).

(** *** The resolution of channel pairs as the specification words it *)

(** "if the pair is absent in forward order, its reverse is looked up
    and the retrieved column is conjugated before use": the index of
    the pair and whether its column is to be conjugated. *)
Definition resolve_forward_then_reverse (blorder : list (Z * Z)) (chp : Z * Z)
  : result (bool * nat) :=
  if decide (chp ∈ blorder) then i ← index blorder chp; Ok (false, i)
  else i ← index blorder (chp.2, chp.1); Ok (true, i).

(** The feed-pair list as the specification words it: every pair of a
    feed with itself or a later feed of the sorted list. *)
Fixpoint feed_pairs (l : list Z) : list (Z * Z) :=
  match l with
  | [] => []
  | x :: t => (pair x <$> (x :: t)) ++ feed_pairs t
  end.

(** the four channel pairs of the feeds at positions [i] and [j] *)
Definition chan_pair (xs ys : list Z) (p i j : nat) : Z * Z :=
  match p with
  | 0 => (nth i xs 0%Z, nth j xs 0%Z)
  | 1 => (nth i ys 0%Z, nth j ys 0%Z)
  | 2 => (nth i xs 0%Z, nth j ys 0%Z)
  | _ => (nth i ys 0%Z, nth j xs 0%Z)
  end.

(** *** Example data *)

(** feeds [1,2,3] on channels [(0,1), (2,3), (4,5)] and a baseline
    order in which the pair [(1,2)] is stored as [(2,1)] *)
Definition scenario_file : InFile :=
  {| f_feedno := [1; 2; 3]%Z;
     f_channo := [(0, 1); (2, 3); (4, 5)]%Z;
     f_blorder := [(0,0); (0,2); (0,4); (2,2); (2,4); (4,4);
                   (1,1); (1,3); (1,5); (3,3); (3,5); (5,5);
                   (0,1); (0,3); (0,5); (2,1); (2,3); (2,5);
                   (4,1); (4,3); (4,5)]%Z |}.

Definition container_of (f : InFile) (dist_axis : nat)
    (v : list (list (list complex))) (m : list (list (list bool)))
  : RawTimestream :=
  {| infiles := [f]; bl_select := None; _feed_select := None;
     _channel_select := None; main_data_dist_axis := dist_axis;
     freq := [700%float]; feedno := f_feedno f; channo := f_channo f;
     blorder := f_blorder f; vis := v; vis_mask := m;
     attrs := [("obstime", "2016/01/01"); ("telescope", "cylinder")]%string;
     bl_ordered_datasets := ["vis"; "vis_mask"; "blorder"]%string |}.

(** one time and one frequency sample; the visibility of baseline [b]
    is [b + 1 + (b + 2) i] *)
Definition scenario_vis : list (list (list complex)) :=
  [[ (λ b, (float_of_nat (b + 1), float_of_nat (b + 2))) <$> seq 0 21 ]].

Definition scenario_mask : list (list (list bool)) :=
  [[ (λ b, Nat.even b) <$> seq 0 21 ]].

Definition scenario : RawTimestream :=
  container_of scenario_file 2 scenario_vis scenario_mask.

(** two feeds on channels [(0,1), (2,3)]; the correlation of channels
    0 and 2 is stored as [(2,0)] *)
Definition reversed_file : InFile :=
  {| f_feedno := [1; 2]%Z;
     f_channo := [(0, 1); (2, 3)]%Z;
     f_blorder := [(0,0); (0,1); (1,1); (2,2); (2,3); (3,3);
                   (2,0); (0,3); (1,2); (1,3)]%Z |}.

Definition reversed_vis : list (list (list complex)) :=
  [[ (λ b, (float_of_nat (b + 1), float_of_nat (b + 2))) <$> seq 0 10 ]].

Definition reversed_mask : list (list (list bool)) :=
  [[ (λ b, Nat.even b) <$> seq 0 10 ]].

Definition reversed : RawTimestream :=
  container_of reversed_file 0 reversed_vis reversed_mask.

(** the feeds of the scenario stored in the order [3, 1, 2], their
    channel rows in the same order *)
Definition unsorted_file : InFile :=
  {| f_feedno := [3; 1; 2]%Z;
     f_channo := [(4, 5); (0, 1); (2, 3)]%Z;
     f_blorder := f_blorder scenario_file |}.

Definition unsorted : RawTimestream :=
  container_of unsorted_file 0 scenario_vis scenario_mask.

(** two feeds on channels [(0,1), (2,3)]; the correlation of channels
    0 and 2 is stored twice, as [(2,0)] and as [(0,2)] *)
Definition both_file : InFile :=
  {| f_feedno := [1; 2]%Z;
     f_channo := [(0, 1); (2, 3)]%Z;
     f_blorder := [(2,0); (0,2); (0,3); (1,2); (1,3)]%Z |}.

Definition both : RawTimestream := container_of both_file 0 [] [].

(** the scenario with its sixteenth baseline stored as [(1,2)] *)
Definition forward_file : InFile :=
  {| f_feedno := [1; 2; 3]%Z;
     f_channo := [(0, 1); (2, 3); (4, 5)]%Z;
     f_blorder := [(0,0); (0,2); (0,4); (2,2); (2,4); (4,4);
                   (1,1); (1,3); (1,5); (3,3); (3,5); (5,5);
                   (0,1); (0,3); (0,5); (1,2); (2,3); (2,5);
                   (4,1); (4,3); (4,5)]%Z |}.

Definition forward : RawTimestream :=
  container_of forward_file 2 scenario_vis scenario_mask.

(** *** Notions used in the statements *)

(** The feeds [feed_select] settles on for [value]. *)
Definition selected_feeds (feedno : list Z) (value : selection)
  : result (list Z) :=
  match value with
  | SelTuple t =>
    '(start, stop, step) ← slice_args t;
    list_slice feedno start stop step
  | SelList l => Ok (intersect1d feedno l)
  | SelOther => Raise ValueError
  end.

(** the channels of a list of channel pairs *)
Definition channels_of (chans : list (Z * Z)) : list Z :=
  chans ≫= λ c, [c.1; c.2].

(** the channel pair of polarization slot [p] for two feeds whose
    channel rows are [c] and [c'] *)
Definition slot_pair (p : nat) (c c' : Z * Z) : Z * Z :=
  match p with
  | 0 => (c.1, c'.1)
  | 1 => (c.2, c'.2)
  | 2 => (c.1, c'.2)
  | _ => (c.2, c'.1)
  end.

(** the channel pairs looked up for polarization slot [p] *)
Definition slot_pairs (xs ys : list Z) (n p : nat) : list (Z * Z) :=
  match p with
  | 0 => upper_pairs xs xs n
  | 1 => upper_pairs ys ys n
  | 2 => upper_pairs xs ys n
  | _ => upper_pairs ys xs n
  end.

(** the container with another set of baseline-ordered dataset names *)
Definition with_bl_ordered_datasets (self : RawTimestream) (names : list string)
  : RawTimestream :=
  {| infiles := infiles self; bl_select := bl_select self;
     _feed_select := _feed_select self;
     _channel_select := _channel_select self;
     main_data_dist_axis := main_data_dist_axis self;
     freq := freq self; feedno := feedno self; channo := channo self;
     blorder := blorder self; vis := vis self;
     vis_mask := vis_mask self; attrs := attrs self;
     bl_ordered_datasets := names |}.

(** the two containers agree on everything but the distribution axis *)
Definition same_data (s s' : RawTimestream) : Prop :=
  infiles s' = infiles s ∧ bl_select s' = bl_select s
  ∧ _feed_select s' = _feed_select s
  ∧ _channel_select s' = _channel_select s
  ∧ freq s' = freq s ∧ feedno s' = feedno s
  ∧ channo s' = channo s ∧ blorder s' = blorder s
  ∧ vis s' = vis s ∧ vis_mask s' = vis_mask s ∧ attrs s' = attrs s
  ∧ bl_ordered_datasets s' = bl_ordered_datasets s.

End RawTs.

(** ** freq_flag.py *)

Module FreqFlag.
Import RawTs.

(** The parameters of the task; [params_init] holds the defaults. *)
Record Params : Type := {
  sigma : float;
  freq_points : Z
}.

Definition params_init : Params := {| sigma := 3%float; freq_points := 10 |}.

(** [np.abs] of a complex number and, below, [np.ma.mean] and
    [np.ma.std] of the valid entries, written with the textbook
    formulas.  numpy takes the absolute value with hypot and adds
    pairwise, so its results can differ from these in the last place
    and where a square overflows or underflows; what is proved about
    the stage holds for whatever values the three return. *)
Definition cabs (z : complex) : float :=
  PrimFloat.sqrt (PrimFloat.add (PrimFloat.mul z.1 z.1) (PrimFloat.mul z.2 z.2)).

(** The valid entries of [np.abs(np.ma.array(vis, mask=vis_mask))]. *)
Definition valid_abs (vis : list complex) (vis_mask : list bool) : list float :=
  omap (λ vm : complex * bool, if vm.2 then None else Some (cabs vm.1))
       (zip vis vis_mask).

(** [np.ma.mean] and [np.ma.std] over the valid entries *)
Definition ma_mean (xs : list float) : float :=
  PrimFloat.div (foldl PrimFloat.add 0%float xs) (float_of_nat (length xs)).

Definition ma_std (xs : list float) : float :=
  let m := ma_mean xs in
  PrimFloat.sqrt
    (ma_mean ((λ x, let d := PrimFloat.abs (PrimFloat.sub x m) in
                    PrimFloat.mul d d) <$> xs)).

(** [np.where(np.abs(vis_abs - mean) > sigma*std)[0]]: the positions of
    the valid entries that deviate from the mean by more than
    [sigma*std]. *)
Definition outliers (sigma mean std : float) (vis : list complex)
    (vis_mask : list bool) : list nat :=
  omap id
    (imap (λ i (vm : complex * bool),
       if negb vm.2
          && PrimFloat.ltb (PrimFloat.mul sigma std)
               (PrimFloat.abs (PrimFloat.sub (cabs vm.1) mean))
       then Some i else None)
     (zip vis vis_mask)).

(** [Flag.flag]: the function that does the actual flag on one column
    of frequency samples.  It writes to [vis_mask] only; the new
    [vis_mask] is returned. *)
Definition flag (p : Params) (vis : list complex) (vis_mask : list bool)
  : list bool :=
  let valid := valid_abs vis vis_mask in
  if decide (freq_points p ≤ Z.of_nat (length valid))%Z then
    let mean := ma_mean valid in
    let std := ma_std valid in
    let inds := outliers (sigma p) mean std vis vis_mask in
    foldr (λ i m, <[i := true]> m) vis_mask inds
  else vis_mask.

(** [arr[t, :, b]] and [arr[t, :, p, b]]; [d] stands for an entry a
    ragged nesting of lists lacks (an array has none). *)
Definition column3 {A} (d : A) (arr : list (list (list A))) (t b : nat)
  : list A :=
  match arr !! t with
  | Some plane => (λ row : list A, default d (row !! b)) <$> plane
  | None => []
  end.

Definition column4 {A} (d : A) (arr : list (list (list (list A))))
    (t p b : nat) : list A :=
  match arr !! t with
  | Some plane => (λ pols : list (list A), default d (row_at pols p b)) <$> plane
  | None => []
  end.

(** the defaults: a masked zero *)
Definition c0 : complex := (0%float, 0%float).

(** Modelled from the spec: [time_and_bl_data_operate(func,
    full_data=True)] of the raw container (the container classes are
    not among the sources), "operating per (time, baseline) column":
    [func] is called on each column [vis[t, :, b]], [vis_mask[t, :, b]]
    and what it writes to the mask column is the new mask column. *)
Definition time_and_bl_data_operate
    (func : list complex → list bool → list bool)
    (vis : list (list (list complex))) (vis_mask : list (list (list bool)))
  : list (list (list bool)) :=
  imap (λ t plane,
    imap (λ f row,
      imap (λ b m,
        default m (func (column3 c0 vis t b) (column3 true vis_mask t b) !! f)) row)
    plane) vis_mask.

(** Modelled from the spec: [time_pol_and_bl_data_operate(func,
    full_data=True)] of the separated container, the same over the
    columns [vis[t, :, p, b]]. *)
Definition time_pol_and_bl_data_operate
    (func : list complex → list bool → list bool)
    (vis : list (list (list (list complex))))
    (vis_mask : list (list (list (list bool))))
  : list (list (list (list bool))) :=
  imap (λ t plane,
    imap (λ f pols,
      imap (λ p row,
        imap (λ b m,
          default m (func (column4 c0 vis t p b) (column4 true vis_mask t p b) !! f)) row)
      pols)
    plane) vis_mask.

(** The container handed to the task. *)
Inductive tod : Type :=
  | Raw (rt : RawTimestream)
  | Separated (ts : Timestream).

Definition tod_freq (ts : tod) : list float :=
  match ts with Raw rt => freq rt | Separated t => ts_freq t end.

(** the container redistributed along the time axis, with the given mask *)
Definition raw_flagged (rt : RawTimestream) (m : list (list (list bool)))
  : RawTimestream :=
  {| infiles := infiles rt; bl_select := bl_select rt;
     _feed_select := _feed_select rt; _channel_select := _channel_select rt;
     main_data_dist_axis := 0;
     freq := freq rt; feedno := feedno rt; channo := channo rt;
     blorder := blorder rt; vis := vis rt; vis_mask := m;
     attrs := attrs rt; bl_ordered_datasets := bl_ordered_datasets rt |}.

Definition separated_flagged (t : Timestream)
    (m : list (list (list (list bool)))) : Timestream :=
  {| ts_dist_axis := 0; ts_freq := ts_freq t; ts_vis := ts_vis t;
     ts_vis_mask := m; ts_dimname := ts_dimname t; ts_pol := ts_pol t;
     ts_pol_type := ts_pol_type t; ts_blorder := ts_blorder t;
     ts_feedno := ts_feedno t; ts_attrs := ts_attrs t |}.

(** [Flag.process]: the container after the stage and the warnings
    issued.  (The history note added by the base task is left out.) *)
Definition process (p : Params) (ts : tod) : tod * list string :=
  let nfreq := length (tod_freq ts) in
  if decide (freq_points p ≤ Z.of_nat nfreq)%Z then
    match ts with
    | Raw rt =>
      (Raw (raw_flagged rt
              (time_and_bl_data_operate (flag p) (vis rt) (vis_mask rt))), [])
    | Separated t =>
      (Separated (separated_flagged t
              (time_pol_and_bl_data_operate (flag p) (ts_vis t) (ts_vis_mask t))), [])
    end
  else (ts, ["Not enough frequency points to do the flag"%string]).

(** visibilities and mask of either container, by position *)
Definition tod_vis (ts : tod) (t f p b : nat) : option complex :=
  match ts with
  | Raw rt => at3 (vis rt) t f b
  | Separated s => at4 (ts_vis s) t f p b
  end.

Definition tod_mask (ts : tod) (t f p b : nat) : option bool :=
  match ts with
  | Raw rt => at3 (vis_mask rt) t f b
  | Separated s => at4 (ts_vis_mask s) t f p b
  end.

(** the column of frequency samples through a position *)
Definition tod_vis_column (ts : tod) (t p b : nat) : list complex :=
  match ts with
  | Raw rt => column3 c0 (vis rt) t b
  | Separated s => column4 c0 (ts_vis s) t p b
  end.

Definition tod_mask_column (ts : tod) (t p b : nat) : list bool :=
  match ts with
  | Raw rt => column3 true (vis_mask rt) t b
  | Separated s => column4 true (ts_vis_mask s) t p b
  end.

(** *** Example data *)

(** twelve frequency samples of one baseline at one time, the ninth an
    outlier, the second already masked *)
Definition spike_vis : list (list (list complex)) :=
  [ (λ f, [ (if (f =? 8)%nat then 100%float else 1%float, 0%float) ]) <$> seq 0 12 ].

Definition spike_mask : list (list (list bool)) :=
  [ (λ f, [ (f =? 1)%nat ]) <$> seq 0 12 ].

Definition spike : RawTimestream :=
  {| infiles := []; bl_select := None; _feed_select := None;
     _channel_select := None; main_data_dist_axis := 1;
     freq := float_of_nat <$> seq 700 12; feedno := [1]%Z;
     channo := [(0, 1)]%Z; blorder := [(0, 0)]%Z;
     vis := spike_vis; vis_mask := spike_mask;
     attrs := []; bl_ordered_datasets := ["vis"; "vis_mask"; "blorder"]%string |}.

(** a container with five frequency samples *)
Definition five_freq : RawTimestream :=
  {| infiles := []; bl_select := None; _feed_select := None;
     _channel_select := None; main_data_dist_axis := 1;
     freq := float_of_nat <$> seq 700 5; feedno := [1]%Z;
     channo := [(0, 1)]%Z; blorder := [(0, 0)]%Z;
     vis := [ (λ f, [ (if (f =? 3)%nat then 100%float else 1%float, 0%float) ])
                <$> seq 0 5 ];
     vis_mask := [ (λ f, [ false ]) <$> seq 0 5 ];
     attrs := []; bl_ordered_datasets := ["vis"; "vis_mask"; "blorder"]%string |}.

End FreqFlag.

(** ** rt2ts.py *)

Module Rt2ts.
Import RawTs.

Record Params : Type := { keep_dist_axis : bool }.

Definition params_init : Params := {| keep_dist_axis := false |}.

(** [Rt2ts.process]: the separated container.  (The history note added
    by the base task is left out.) *)
Definition process (p : Params) (rt : RawTimestream) : result Timestream :=
  r ← separate_pol_and_bl rt (keep_dist_axis p); Ok r.1.

End Rt2ts.

(** ** map_making1.py *)

Module MapMaking.
Import RawTs.

(** The lookup of the loop that reorders the baselines according to
    [allpairs]: the pair of feed numbers at the positions [a1], [a2] is
    looked up in [bls]; on [ValueError] the reversed pair is looked up
    and the column is flagged for conjugation. *)
Definition pair_ind (bls : list (Z * Z)) (feeds : list Z) (a : nat * nat)
  : result (bool * nat) :=
  f1 ← getitem feeds a.1;
  f2 ← getitem feeds a.2;
  match index bls (f1, f2) with
  | Ok b_ind => Ok (false, b_ind)
  | Raise ValueError => b_ind ← index bls (f2, f1); Ok (true, b_ind)
  | Raise e => Raise e
  end.

Definition zero : complex := (0%float, 0%float).

(** [vis_tmp] after the loop, [vis] having [nbl] columns: column [ind]
    is column [b_ind] of [vis], conjugated when the pair was found
    reversed; the columns no pair of [allpairs] stands for keep the
    zeros of [np.zeros_like(vis)].  Reading column [b_ind] or writing
    column [ind] beyond the [nbl] columns is an [IndexError]. *)
Definition reorder (nbl : nat) (vis : list (list (list complex)))
    (bls : list (Z * Z)) (feeds : list Z) (allpairs : list (nat * nat))
  : result (list (list (list complex))) :=
  lst ← mapM (λ ia : nat * (nat * nat),
                cb ← pair_ind bls feeds ia.2;
                if decide (cb.2 < nbl ∧ ia.1 < nbl)%nat then Ok cb
                else Raise IndexError)
             (imap (λ (ind : nat) (a : nat * nat), (ind, a)) allpairs);
  Ok ((λ plane : list (list complex),
         (λ row : list complex,
            (λ ind : nat, match (lst !! ind : option (bool * nat)) with
                    | Some (cj, b_ind) =>
                      let v := default zero (row !! b_ind) in
                      if cj then conj v else v
                    | None => zero
                    end) <$> seq 0 nbl) <$> plane) <$> vis).

(** [np.cumsum(l)] *)
Fixpoint cumsum_from (acc : nat) (l : list nat) : list nat :=
  match l with
  | [] => []
  | x :: t => (acc + x)%nat :: cumsum_from (acc + x) t
  end.

(** [red_bin = np.cumsum(np.insert(redundancy, 0, 0))] *)
Definition red_bin (redundancy : list nat) : list nat :=
  cumsum_from 0 (0%nat :: redundancy).

(** the columns of [vis_tmp[:, :, red_bin[ind]:red_bin[ind+1]]], the
    array having [nbl] columns *)
Definition bin_columns (nbl : nat) (redundancy : list nat) (ind : nat)
  : result (list nat) :=
  lo ← getitem (red_bin redundancy) ind;
  hi ← getitem (red_bin redundancy) (ind + 1);
  Ok (seq (lo `min` nbl) ((hi `min` nbl) - (lo `min` nbl))).

End MapMaking.

(** * Properties *)

(** ** The error monad and list primitives *)

Lemma bind_Ok {A B : Type} (m : result A) (f : A → result B) (b : B) :
  m ≫= f = Ok b → ∃ a, m = Ok a ∧ f a = Ok b.
Proof. destruct m as [a|e]; simpl; [eauto | discriminate]. Qed.

Section ResultFacts.
Context {A B : Type}.

Lemma mapM_Ok (f : A → result B) (l : list A) (k : list B) :
  mapM f l = Ok k ↔ Forall2 (λ x y, f x = Ok y) l k.
Proof.
  revert k. induction l as [|x l IH]; intros k; simpl.
  - split; [intros [= <-]; constructor | by inversion 1].
  - split.
    + intros H. apply bind_Ok in H as (y & Hy & H).
      apply bind_Ok in H as (k' & Hk' & [= <-]).
      constructor; [done | by apply IH].
    + inversion 1 as [|? y ? k' Hy Hk']; subst.
      rewrite Hy. simpl. apply IH in Hk'. by rewrite Hk'.
Qed.

Lemma mapM_Ok_length (f : A → result B) (l : list A) (k : list B) :
  mapM f l = Ok k → length k = length l.
Proof. intros H. apply mapM_Ok in H. symmetry. by eapply Forall2_length. Qed.

Lemma mapM_Ok_lookup (f : A → result B) (l : list A) (k : list B) i x :
  mapM f l = Ok k → l !! i = Some x → ∃ y, f x = Ok y ∧ k !! i = Some y.
Proof.
  intros H Hx. apply mapM_Ok in H.
  destruct (Forall2_lookup_l _ _ _ _ _ H Hx) as (y & Hy & Hf). eauto.
Qed.

Lemma mapM_Ok_elem_of (f : A → result B) (l : list A) (k : list B) y :
  mapM f l = Ok k → y ∈ k ↔ ∃ x, x ∈ l ∧ f x = Ok y.
Proof.
  intros H. apply mapM_Ok in H. split.
  - intros Hy. apply list_elem_of_lookup in Hy as [i Hi].
    destruct (Forall2_lookup_r _ _ _ _ _ H Hi) as (x & Hx & Hf).
    exists x. split; [|done]. apply list_elem_of_lookup. eauto.
  - intros (x & Hx & Hf). apply list_elem_of_lookup in Hx as [i Hi].
    destruct (Forall2_lookup_l _ _ _ _ _ H Hi) as (y' & Hy' & Hf').
    assert (y' = y) as -> by congruence.
    apply list_elem_of_lookup. eauto.
Qed.

Lemma mapM_is_Ok (f : A → result B) (l : list A) :
  (∀ x, x ∈ l → is_Ok (f x)) → is_Ok (mapM f l).
Proof.
  induction l as [|x l IH]; intros H; simpl.
  - by eexists.
  - destruct (H x) as [y Hy]; [left|]. rewrite Hy. simpl.
    destruct IH as [k Hk]; [intros; apply H; by right|].
    rewrite Hk. by eexists.
Qed.

Lemma mapM_Ok_inv (f : A → result B) (l : list A) (k : list B) x :
  mapM f l = Ok k → x ∈ l → is_Ok (f x).
Proof.
  intros H Hx. apply list_elem_of_lookup in Hx as [i Hi].
  destruct (mapM_Ok_lookup _ _ _ _ _ H Hi) as (y & Hy & _). by exists y.
Qed.

Lemma mapM_Raise (f : A → result B) (l : list A) (e0 : exn) (x : A) :
  (∀ y e, f y = Raise e → e = e0) →
  x ∈ l → (∃ e, f x = Raise e) → mapM f l = Raise e0.
Proof.
  intros Honly Hx [e He]. induction l as [|y l IH]; [by apply elem_of_nil in Hx|].
  simpl. destruct (f y) as [b|e'] eqn:Hy; simpl.
  - apply elem_of_cons in Hx as [->|Hx]; [congruence|].
    by rewrite (IH Hx).
  - by rewrite (Honly _ _ Hy).
Qed.

Lemma mapM_Ok_or_Raise (f : A → result B) (l : list A) (e0 : exn) :
  (∀ y e, f y = Raise e → e = e0) → is_Ok (mapM f l) ∨ mapM f l = Raise e0.
Proof.
  intros Honly. induction l as [|y l IH]; simpl; [left; by eexists|].
  destruct (f y) as [b|e'] eqn:Hy; simpl; [|right; by rewrite (Honly _ _ Hy)].
  destruct IH as [[k ->]| ->]; [left; by eexists | by right].
Qed.

End ResultFacts.

Section IndexFacts.
Context {A : Type} `{EqDecision A}.

Lemma index_Ok (l : list A) (x : A) (i : nat) :
  index l x = Ok i ↔ l !! i = Some x ∧ ∀ j y, l !! j = Some y → (j < i)%nat → y ≠ x.
Proof.
  unfold index. destruct (list_find _ l) as [[j y]|] eqn:Hfind.
  - apply list_find_Some in Hfind as (Hj & -> & Hmin). split.
    + intros [= <-]. done.
    + intros [Hi Hmin']. f_equal.
      destruct (Nat.lt_trichotomy i j) as [Hlt|[->|Hlt]]; [|done|].
      * by destruct (Hmin _ _ Hi Hlt).
      * by destruct (Hmin' _ _ Hj Hlt).
  - apply list_find_None in Hfind. split; [discriminate|].
    intros [Hi _]. rewrite Forall_forall in Hfind.
    destruct (Hfind x); [|done]. apply list_elem_of_lookup. eauto.
Qed.

Lemma index_is_Ok (l : list A) (x : A) : x ∈ l ↔ is_Ok (index l x).
Proof.
  unfold index. destruct (list_find _ l) as [[j y]|] eqn:Hfind.
  - apply list_find_Some in Hfind as (Hj & -> & _). split; [by eexists|].
    intros _. apply list_elem_of_lookup. eauto.
  - apply list_find_None in Hfind. rewrite Forall_forall in Hfind. split.
    + intros Hx. by destruct (Hfind x).
    + intros [? [=]].
Qed.

Lemma index_Raise (l : list A) (x : A) (e : exn) :
  index l x = Raise e → e = ValueError ∧ x ∉ l.
Proof.
  intros H. split.
  - unfold index in H. destruct (list_find _ l) as [[]|]; congruence.
  - intros Hx. apply index_is_Ok in Hx as [i Hi]. congruence.
Qed.

Lemma index_not_elem (l : list A) (x : A) : x ∉ l → index l x = Raise ValueError.
Proof.
  intros Hx. destruct (index l x) as [i|e] eqn:Hi.
  - destruct Hx. apply index_is_Ok. by eexists.
  - by apply index_Raise in Hi as [-> _].
Qed.

Lemma index_first (l : list A) (x : A) :
  x ∈ l → ∃ i, index l x = Ok i ∧ l !! i = Some x
               ∧ ∀ j y, l !! j = Some y → (j < i)%nat → y ≠ x.
Proof.
  intros [i Hi]%index_is_Ok. exists i. split; [done|]. by apply index_Ok.
Qed.

End IndexFacts.

(** ** multiscale.py *)

Section MultiscaleFacts.
Import Multiscale.
Local Open Scope Qc_scope.

Example starlet_level1_run :
  entries_at [2%nat]
    (starlet_transform (of_list (qz <$> [1; 2; 4; 8; 16]%Z)) (Some 1%Z) false false _phi)
  = [Q2Qc ((-17)#16); Q2Qc (81#16)].
Proof. vm_compute. repeat f_equal; apply Qc_is_canon; reflexivity. Qed.


Lemma up_sampling_nonempty (phi : list Qc) :
  phi ≠ [] → ∃ phi', up_sampling phi = Ok phi' ∧ phi' ≠ [].
Proof.
  destruct phi as [|x phi]; [done|]. intros _. eexists; split; [reflexivity|].
  intros H. apply (f_equal length) in H. rewrite length_fmap, length_seq in H.
  simpl in H. lia.
Qed.

Lemma convolve1d_shape (a : ndarray) (w : list Qc) (ax : nat) :
  w ≠ [] → (ax < ndim a)%nat →
  ∃ b, convolve1d a w ax = Ok b ∧ shape b = shape a.
Proof.
  intros Hw Hax. unfold convolve1d.
  destruct w as [|x w]; [done|].
  destruct (lookup_lt_is_Some_2 (shape a) ax Hax) as [n Hn].
  rewrite Hn. eexists; split; reflexivity.
Qed.

Lemma convolve_axes_shape (phi : list Qc) (axes : list nat) :
  phi ≠ [] → ∀ a, Forall (λ ax, (ax < ndim a)%nat) axes →
  ∃ b, convolve_axes axes a phi = Ok b ∧ shape b = shape a.
Proof.
  intros Hphi. induction axes as [|ax axes IH]; intros a Hall.
  - exists a. done.
  - inversion Hall as [|? ? Hax Hrest]; subst.
    destruct (convolve1d_shape a phi ax Hphi Hax) as (b & Hb & Hs).
    simpl. rewrite Hb. simpl.
    destruct (IH b) as (c & Hc & Hsc).
    { unfold ndim in *. by rewrite Hs. }
    exists c. split; [done | congruence].
Qed.

Lemma convolve_shape (a : ndarray) (phi : list Qc) :
  phi ≠ [] → ∃ b, convolve a phi = Ok b ∧ shape b = shape a.
Proof.
  intros Hphi. apply convolve_axes_shape; [done|].
  apply Forall_forall. intros ax Hin. apply elem_of_seq in Hin. lia.
Qed.

Lemma total_at_snoc (idx : list nat) (W : list ndarray) (w : ndarray) :
  total_at idx (W ++ [w]) = total_at idx W + data w idx.
Proof.
  unfold total_at. induction W as [|v W IH]; simpl; [ring|]. rewrite IH. ring.
Qed.

Lemma foldl_add_at (idx : list nat) (ws : list ndarray) :
  ∀ w, data (foldl add w ws) idx = data w idx + total_at idx ws.
Proof.
  induction ws as [|v ws IH]; intros w; simpl; [ring|].
  rewrite IH. simpl. ring.
Qed.

Lemma foldl_add_shape (ws : list ndarray) :
  ∀ w, shape (foldl add w ws) = shape w.
Proof. induction ws as [|v ws IH]; intros w; simpl; [done|]. by rewrite IH. Qed.

(** The loop of the first-generation transform keeps
    [sum W + a] constant and appends one sub-band per iteration. *)
Lemma starlet_loop_telescopes (n : nat) :
  ∀ li phi a W, phi ≠ [] →
  ∃ W' approx,
    starlet_loop false false n li phi a W = Ok (W', approx)
    ∧ length W' = (length W + n)%nat
    ∧ shape approx = shape a
    ∧ (Forall (λ w, shape w = shape a) W → Forall (λ w, shape w = shape a) W')
    ∧ ∀ idx, total_at idx W' + data approx idx = total_at idx W + data a idx.
Proof.
  induction n as [|n IH]; intros li phi a W Hphi.
  - exists W, a. repeat split; auto with lia.
  - simpl.
    assert (∃ phi', (if (0 <? li)%nat then up_sampling phi else Ok phi) = Ok phi'
                    ∧ phi' ≠ []) as (phi' & -> & Hphi').
    { destruct (0 <? li)%nat; [by apply up_sampling_nonempty | by exists phi]. }
    simpl. destruct (convolve_shape a phi' Hphi') as (approx & -> & Hs). simpl.
    destruct (IH (S li) phi' approx (W ++ [sub a approx]) Hphi')
      as (W' & r & -> & Hlen & Hsr & Hall & Hsum).
    exists W', r. split; [done|]. split.
    { rewrite Hlen, length_app. simpl. lia. }
    split; [congruence|]. split.
    { intros HW. rewrite <- Hs. apply Hall. apply Forall_app. split.
      - eapply Forall_impl; [exact HW|]. simpl. congruence.
      - constructor; [|constructor]. simpl. congruence. }
    intros idx. rewrite Hsum, total_at_snoc. simpl. ring.
Qed.

(** C9: with [gen2=False] and [approx_only=False], [starlet_transform]
    at a level of at least one returns exactly [level+1] arrays of the
    shape of the input, and their element-wise sum is the input. *)
Theorem starlet_transform_sums_to_input (a : ndarray) (level : Z) :
  (1 ≤ level)%Z →
  ∃ W s,
    starlet_transform a (Some level) false false _phi = Ok W
    ∧ length W = (Z.to_nat level + 1)%nat
    ∧ Forall (λ w, shape w = shape a) W
    ∧ sum_arrays W = Some s
    ∧ shape s = shape a
    ∧ ∀ idx, data s idx = data a idx.
Proof.
  intros Hlevel. unfold starlet_transform. simpl.
  destruct (Z.leb_spec level 0) as [?|_]; [lia|].
  destruct (starlet_loop_telescopes (Z.to_nat level) 0 _phi a [])
    as (W & approx & -> & Hlen & Hs & Hall & Hsum); [done|].
  simpl in *.
  assert (Forall (λ w, shape w = shape a) (W ++ [approx])) as HallW.
  { apply Forall_app. split; [by apply Hall | by repeat constructor]. }
  assert (∀ idx, total_at idx (W ++ [approx]) = data a idx) as Htot.
  { intros idx. rewrite total_at_snoc, Hsum. simpl. ring. }
  destruct (W ++ [approx]) as [|w ws] eqn:HW.
  { by destruct W. }
  exists (w :: ws), (foldl add w ws). split; [done|]. split.
  { rewrite <- HW, length_app, Hlen. simpl. lia. }
  split; [done|]. split; [done|]. split.
  { rewrite foldl_add_shape. by inversion HallW. }
  intros idx. rewrite foldl_add_at. specialize (Htot idx). simpl in Htot. done.
Qed.

Lemma starlet_transform_sums_to_input_witness :
  ∃ W s,
    starlet_transform (of_list (qz <$> [1; 2; 4; 8; 16]%Z)) (Some 3%Z) false false _phi = Ok W
    ∧ length W = 4%nat
    ∧ Forall (λ w, shape w = [5%nat]) W
    ∧ sum_arrays W = Some s
    ∧ shape s = [5%nat]
    ∧ ∀ idx, data s idx = data (of_list (qz <$> [1; 2; 4; 8; 16]%Z)) idx.
Proof.
  refine (starlet_transform_sums_to_input
            (of_list (qz <$> [1; 2; 4; 8; 16]%Z)) 3 _). lia.
Defined.

(** C10: with [level=None] the three transforms raise [NameError] on
    the unbound global [input_image], whatever the input array and the
    other arguments are, and so do the smooth and detrend wrappers. *)
Theorem level_None_raises_NameError (a : ndarray) (gen2 approx_only : bool)
    (phi : list Qc) (scale : Z) (tau : Qc) :
  let err {A} : result A := Raise (NameError "input_image") in
  starlet_transform a None gen2 approx_only phi = err
  ∧ multiscale_median_transform a None scale approx_only = err
  ∧ median_wavelet_transform a None scale tau approx_only phi = err
  ∧ starlet_smooth a None phi = err
  ∧ starlet_detrend a None phi = err
  ∧ multiscale_median_smooth a None scale = err
  ∧ multiscale_median_detrend a None scale = err
  ∧ median_wavelet_smooth a None scale tau phi = err
  ∧ median_wavelet_detrend a None scale tau phi = err.
Proof. repeat split; reflexivity. Qed.

End MultiscaleFacts.

(** ** raw_timestream.py *)

Section RawTsFacts.
Import RawTs.

Example slice_examples :
  list_slice [10; 20; 30; 40]%Z (Some 0%Z) None None = Ok [10; 20; 30; 40]%Z
  ∧ list_slice [10; 20; 30; 40]%Z (Some 1%Z) (Some (-1)%Z) None = Ok [20; 30]%Z
  ∧ list_slice [10; 20; 30; 40]%Z None None (Some (-2)%Z) = Ok [40; 20]%Z
  ∧ list_slice [10; 20; 30; 40]%Z (Some 3%Z) (Some 1%Z) None = Ok []
  ∧ list_slice [10; 20; 30; 40]%Z None (Some 9%Z) (Some 3%Z) = Ok [10; 40]%Z.
Proof. repeat split. Qed.

Example scenario_tuple_select :
  bl_select <$> feed_select scenario (SelTuple [Some 1%Z; None]) "auto"
  = Ok (Some [3; 5; 9; 11; 16; 20]%nat).
Proof. vm_compute. reflexivity. Qed.

(** "select all, no need to do anything" *)
Lemma feed_select_default (self : RawTimestream) :
  feed_select self (SelTuple [Some 0%Z; None]) "all" = Ok self.
Proof. unfold feed_select. by rewrite decide_True. Qed.

Example scenario_cross_select :
  bl_select <$> feed_select scenario (SelList [1; 2]%Z) "cross"
  = Ok (Some [1; 7; 13; 15]%nat).
Proof. vm_compute. reflexivity. Qed.

Example scenario_separate_blorder :
  (λ r, ts_blorder r.1) <$> separate_pol_and_bl scenario true
  = Ok [(1,1); (1,2); (1,3); (2,2); (2,3); (3,3)]%Z.
Proof. vm_compute. reflexivity. Qed.

Example scenario_separate_dist_axis :
  (λ r, (ts_dist_axis r.1, main_data_dist_axis r.2)) <$> separate_pol_and_bl scenario true
  = Ok (0, 0)%nat.
Proof. vm_compute. reflexivity. Qed.


(** *** The feed pairs of the separated container *)

Lemma bind_seq_nth {C : Type} (g : Z → C) (l : list Z) :
  ∀ pre, (j ← seq (length pre) (length l); [g (nth j (pre ++ l) 0%Z)]) = g <$> l.
Proof.
  induction l as [|x t IH]; intros pre; [done|].
  simpl length. rewrite <- cons_seq, bind_cons, nth_middle. simpl. f_equal.
  specialize (IH (pre ++ [x])).
  rewrite length_app, Nat.add_1_r, <- app_assoc in IH. exact IH.
Qed.

Lemma upper_pairs_from (l : list Z) :
  ∀ pre,
    (i ← seq (length pre) (length l);
     j ← seq i (length pre + length l - i);
     [(nth i (pre ++ l) 0%Z, nth j (pre ++ l) 0%Z)])
    = feed_pairs l.
Proof.
  induction l as [|x t IH]; intros pre; [done|].
  simpl length. rewrite <- cons_seq, bind_cons. cbn [feed_pairs]. f_equal.
  - replace (length pre + S (length t) - length pre)%nat
      with (length (x :: t)) by (simpl; lia).
    rewrite nth_middle. apply (bind_seq_nth (pair x) (x :: t) pre).
  - specialize (IH (pre ++ [x])).
    rewrite length_app, Nat.add_1_r, <- app_assoc in IH.
    rewrite <- IH. apply list_bind_ext; [|done].
    intros i. by replace (length pre + S (length t) - i)%nat
      with (S (length pre) + length t - i)%nat by lia.
Qed.

Lemma upper_pairs_feed_pairs (l : list Z) :
  upper_pairs l l (length l) = feed_pairs l.
Proof. exact (upper_pairs_from l []). Qed.

Lemma elem_of_index_pairs (n i j : nat) :
  (i, j) ∈ index_pairs n ↔ (i ≤ j < n)%nat.
Proof.
  unfold index_pairs. rewrite list_elem_of_bind. split.
  - intros (i' & Hj & Hi). apply list_elem_of_bind in Hj as (j' & Hij & Hj).
    apply list_elem_of_singleton in Hij as [= -> ->].
    apply elem_of_seq in Hi, Hj. lia.
  - intros H. exists i. split; [|apply elem_of_seq; lia].
    apply list_elem_of_bind. exists j. split; [by left | apply elem_of_seq; lia].
Qed.

Lemma fmap_bind_list {X Y V : Type} (f : Y → V) (g : X → list Y) (l : list X) :
  f <$> (l ≫= g) = l ≫= (λ x, f <$> g x).
Proof.
  induction l as [|x l IH]; [done|].
  by rewrite !bind_cons, fmap_app, IH.
Qed.

Lemma upper_pairs_index_pairs (xs ys : list Z) (n : nat) :
  upper_pairs xs ys n
  = (λ ij : nat * nat, (nth ij.1 xs 0%Z, nth ij.2 ys 0%Z)) <$> index_pairs n.
Proof.
  unfold upper_pairs, index_pairs. rewrite fmap_bind_list.
  apply list_bind_ext; [|done]. intros i. rewrite fmap_bind_list.
  by apply list_bind_ext.
Qed.

Lemma redistribute_frame (self self' : RawTimestream) (axis : nat) :
  redistribute self axis = Ok self' →
  main_data_dist_axis self' = axis
  ∧ feedno self' = feedno self ∧ channo self' = channo self
  ∧ blorder self' = blorder self ∧ vis self' = vis self
  ∧ vis_mask self' = vis_mask self.
Proof.
  unfold redistribute. case_decide; [|discriminate]. by intros [= <-].
Qed.

(** C1: when [separate_pol_and_bl] succeeds, the new container's
    polarization axis carries the labels xx, yy, xy, yx in that order,
    and its baseline order is the list of pairs of a feed with itself or
    a later feed, over the sorted feed numbers. *)
Theorem separate_pol_and_bl_axes (self self' : RawTimestream)
    (keep_dist_axis : bool) (ts : Timestream) :
  separate_pol_and_bl self keep_dist_axis = Ok (ts, self') →
  ts_pol ts = ["xx"; "yy"; "xy"; "yx"]%string
  ∧ ts_blorder ts = feed_pairs (sorted (feedno self))
  ∧ ts_blorder ts
    = upper_pairs (sorted (feedno self)) (sorted (feedno self)) (length (feedno self))
  ∧ Sorted Z.le (sorted (feedno self))
  ∧ sorted (feedno self) ≡ₚ feedno self.
Proof.
  intros H. unfold separate_pol_and_bl in H.
  apply bind_Ok in H as (axis_name & _ & H).
  apply bind_Ok in H as ([keep s1] & Hs1 & H). cbn [fst snd] in H.
  assert (feedno s1 = feedno self) as Hfeed.
  { destruct (decide ("baseline"%string = axis_name)).
    - apply bind_Ok in Hs1 as (s & Hs & [= _ <-]).
      by apply redistribute_frame in Hs as (_ & ? & _).
    - by injection Hs1 as _ <-. }
  repeat (apply bind_Ok in H as (? & _ & H)).
  destruct (decide (0 < _)%nat) in H; [discriminate|].
  apply bind_Ok in H as (s2 & _ & [= <- _]). cbn.
  rewrite Hfeed.
  assert (length (sorted (feedno self)) = length (feedno self)) as Hlen.
  { unfold sorted. by rewrite merge_sort_Permutation. }
  split; [done|]. split.
  { by rewrite upper_pairs_feed_pairs. }
  split; [by rewrite Hlen|]. split.
  - apply (Sorted_merge_sort Z.le).
  - apply merge_sort_Permutation.
Qed.

Lemma separate_pol_and_bl_axes_witness :
  ∃ ts self',
    separate_pol_and_bl scenario true = Ok (ts, self')
    ∧ ts_pol ts = ["xx"; "yy"; "xy"; "yx"]%string
    ∧ ts_blorder ts = [(1,1); (1,2); (1,3); (2,2); (2,3); (3,3)]%Z.
Proof.
  destruct (separate_pol_and_bl scenario true) as [[ts self']|e] eqn:H;
    [|vm_compute in H; discriminate].
  exists ts, self'. split; [done|].
  destruct (separate_pol_and_bl_axes scenario self' true ts H) as (Hpol & Hbl & _).
  split; [exact Hpol | exact Hbl].
Defined.


(** *** The separated data *)

Lemma getitem_Ok {A : Type} (l : list A) (i : nat) (x : A) :
  getitem l i = Ok x ↔ l !! i = Some x.
Proof. unfold getitem. destruct (l !! i); split; congruence. Qed.

Lemma _get_ind_spec (bl : list (Z * Z)) (chp : Z * Z) (cj : bool) (b : nat) :
  _get_ind bl chp = Ok (cj, b) →
  (cj = true ↔ chp ∉ bl)
  ∧ (cj = false → index bl chp = Ok b)
  ∧ (cj = true → index (conj_blorder bl) chp = Ok b).
Proof.
  unfold _get_ind. destruct (index bl chp) as [i|e] eqn:Hi.
  - intros [= <- <-]. split; [|done]. split; [done|].
    intros Hn. destruct Hn. apply index_is_Ok. by eexists.
  - destruct (index_Raise _ _ _ Hi) as [-> Hn].
    intros H. apply bind_Ok in H as (i & Hc & [= <- <-]). done.
Qed.

Lemma gather_at3 {A : Type} (inds : list nat) (arr g : list (list (list A)))
    (t f k b : nat) (row : list A) :
  gather inds arr = Ok g →
  row_at arr t f = Some row →
  inds !! k = Some b →
  ∃ v, row !! b = Some v ∧ at3 g t f k = Some v.
Proof.
  intros Hg Hrow Hk. unfold gather in Hg. unfold row_at in Hrow.
  destruct (arr !! t) as [plane|] eqn:Ht; [|done].
  destruct (mapM_Ok_lookup _ _ _ _ _ Hg Ht) as (gplane & Hgp & Hgt).
  destruct (mapM_Ok_lookup _ _ _ _ _ Hgp Hrow) as (grow & Hgr & Hgf).
  destruct (mapM_Ok_lookup _ _ _ _ _ Hgr Hk) as (v & Hv & Hgk).
  exists v. split; [by apply getitem_Ok|].
  unfold at3, row_at. by rewrite Hgt, Hgf.
Qed.

Lemma where_conj_at3 (cjs : list bool) (g : list (list (list complex)))
    (t f k : nat) (cj : bool) (v : complex) :
  cjs !! k = Some cj → at3 g t f k = Some v →
  at3 (where_conj cjs g) t f k = Some (if cj then conj v else v).
Proof.
  unfold at3, row_at, where_conj. intros Hcj Hv. rewrite list_lookup_fmap.
  destruct (g !! t) as [plane|]; [|done]. simpl in *.
  rewrite list_lookup_fmap.
  destruct (plane !! f) as [row|]; [|done]. simpl in *.
  rewrite lookup_zip_with, Hcj, Hv. done.
Qed.

Lemma stack4_at4 {A : Type} (a b c d : list (list (list A))) (t f p k : nat) :
  is_Some (row_at a t f) → (p < 4)%nat →
  at4 (stack4 a b c d) t f p k
  = at3 (match p with 0 => a | 1 => b | 2 => c | _ => d end) t f k.
Proof.
  intros [row Hrow] Hp. unfold at4, at3, stack4.
  unfold row_at at 1. rewrite list_lookup_imap.
  unfold row_at in Hrow.
  destruct (a !! t) as [plane|] eqn:Ht; [|done]. simpl.
  rewrite list_lookup_imap, Hrow. simpl.
  destruct p as [|[|[|[|p]]]]; [| | | |lia]; unfold row_at at 1; simpl.
  - unfold row_at. by rewrite Ht, Hrow.
  - by destruct (row_at b t f).
  - by destruct (row_at c t f).
  - by destruct (row_at d t f).
Qed.

Lemma gather_row_at {A : Type} (inds : list nat) (arr g : list (list (list A)))
    (t f : nat) :
  gather inds arr = Ok g → is_Some (row_at arr t f) → is_Some (row_at g t f).
Proof.
  intros Hg [row Hrow]. unfold gather in Hg. unfold row_at in *.
  destruct (arr !! t) as [plane|] eqn:Ht; [|done].
  destruct (mapM_Ok_lookup _ _ _ _ _ Hg Ht) as (gplane & Hgp & ->).
  destruct (mapM_Ok_lookup _ _ _ _ _ Hgp Hrow) as (grow & _ & ->). done.
Qed.

Lemma where_conj_row_at (cjs : list bool) (g : list (list (list complex)))
    (t f : nat) :
  is_Some (row_at g t f) → is_Some (row_at (where_conj cjs g) t f).
Proof.
  unfold row_at, where_conj. rewrite list_lookup_fmap.
  destruct (g !! t) as [plane|]; simpl; [|done].
  rewrite list_lookup_fmap. destruct (plane !! f); simpl; [done|].
  by intros [? [=]].
Qed.

Lemma resolved_pair (bl pairs : list (Z * Z)) (lst : list (bool * nat))
    (k : nat) (chp : Z * Z) :
  mapM (_get_ind bl) pairs = Ok lst →
  pairs !! k = Some chp →
  ∃ cj b, _get_ind bl chp = Ok (cj, b)
          ∧ (fst <$> lst) !! k = Some cj ∧ (snd <$> lst) !! k = Some b.
Proof.
  intros Hl Hk.
  destruct (mapM_Ok_lookup _ _ _ _ _ Hl Hk) as ([cj b] & Hcb & Hlk).
  exists cj, b. by rewrite !list_lookup_fmap, Hlk.
Qed.

Lemma upper_pairs_lookup (xs ys : list Z) (n k i j : nat) :
  index_pairs n !! k = Some (i, j) →
  upper_pairs xs ys n !! k = Some (nth i xs 0%Z, nth j ys 0%Z).
Proof.
  intros H. by rewrite upper_pairs_index_pairs, list_lookup_fmap, H.
Qed.

Example scenario_separated_entries :
  (λ r, (at4 (ts_vis r.1) 0 0 0 1, at4 (ts_vis r.1) 0 0 3 1,
         at4 (ts_vis_mask r.1) 0 0 3 1))
    <$> separate_pol_and_bl scenario true
  = Ok (Some (2%float, 3%float), Some (16%float, (-17)%float), Some false).
Proof. vm_compute. reflexivity. Qed.

(** *** feed_select: the correlation types *)

Lemma elem_of_combinations2 {A : Type} (l : list A) (a b : A) :
  (a, b) ∈ combinations2 l → a ∈ l ∧ b ∈ l.
Proof.
  induction l as [|x t IH]; [by intros ?%elem_of_nil|].
  cbn [combinations2].
  rewrite elem_of_app, list_elem_of_fmap. intros [(y & [= -> ->] & Hy)|H].
  - split; [left | by right].
  - destruct (IH H). split; by right.
Qed.

Lemma elem_of_combinations_with_replacement2 {A : Type} (l : list A) (a b : A) :
  (a, b) ∈ combinations_with_replacement2 l
  ↔ (a, b) ∈ combinations2 l ∨ (a = b ∧ a ∈ l).
Proof.
  induction l as [|x t IH].
  - simpl. split; [by intros ?%elem_of_nil|].
    intros [?%elem_of_nil|[_ ?%elem_of_nil]]; done.
  - cbn [combinations_with_replacement2 combinations2].
    rewrite !elem_of_app, IH, !list_elem_of_fmap. split.
    + intros [(y & [= -> ->] & Hy)|[H|[-> H]]].
      * apply elem_of_cons in Hy as [->|Hy]; [right; split; [done|left]|].
        left. left. eauto.
      * left. by right.
      * right. split; [done | by right].
    + intros [[(y & [= -> ->] & Hy)|H]|[-> H]].
      * left. exists y. split; [done | by right].
      * right. by left.
      * apply elem_of_cons in H as [->|H].
        -- left. exists x. split; [done | left].
        -- right. right. done.
Qed.

Lemma cross_sets_diag (c : Z * Z) (s : gset Z) :
  s ∈ cross_sets c c ↔ s ∈ [ ({[c.1]} : gset Z); {[c.2]}; {[c.1; c.2]} ].
Proof.
  unfold cross_sets.
  assert (∀ a : Z, ({[a; a]} : gset Z) = {[a]}) as Hidem.
  { intros a. apply set_eq. intros x.
    rewrite elem_of_union, !elem_of_singleton. tauto. }
  assert (∀ a b : Z, ({[b; a]} : gset Z) = {[a; b]}) as Hcomm.
  { intros a b. apply set_eq. intros x.
    rewrite !elem_of_union, !elem_of_singleton. tauto. }
  rewrite !Hidem, (Hcomm c.1 c.2).
  rewrite !elem_of_cons, !elem_of_nil. tauto.
Qed.

Section ChannelPairs.
Variables (fn : list Z) (cn : list (Z * Z)) (feeds : list Z).

Let fc := feed_channels fn cn.

Lemma channel_pairs_auto_elem (P : list (gset Z)) (s : gset Z) :
  channel_pairs fn cn feeds "auto" = Ok P →
  s ∈ P ↔ ∃ fd c, fd ∈ feeds ∧ fc fd = Ok c
                  ∧ s ∈ [ {[c.1]}; {[c.2]}; {[c.1; c.2]} ].
Proof.
  unfold channel_pairs. rewrite decide_True by done.
  intros H. apply bind_Ok in H as (ls & Hls & [= <-]).
  rewrite list_elem_of_join. split.
  - intros (l & Hs & Hl).
    apply (mapM_Ok_elem_of _ _ _ _ Hls) in Hl as (fd & Hfd & Hl).
    apply bind_Ok in Hl as (c & Hc & [= <-]). by exists fd, c.
  - intros (fd & c & Hfd & Hc & Hs). eexists. split; [exact Hs|].
    apply (mapM_Ok_elem_of _ _ _ _ Hls). exists fd. split; [done|].
    fold fc. by rewrite Hc.
Qed.

Lemma channel_pairs_cross_elem (P : list (gset Z)) (s : gset Z) :
  channel_pairs fn cn feeds "cross" = Ok P →
  s ∈ P ↔ ∃ fd1 fd2 c12 c34, (fd1, fd2) ∈ combinations2 feeds
            ∧ fc fd1 = Ok c12 ∧ fc fd2 = Ok c34 ∧ s ∈ cross_sets c12 c34.
Proof.
  unfold channel_pairs. rewrite decide_False, decide_True by done.
  intros H. apply bind_Ok in H as (ls & Hls & [= <-]).
  rewrite list_elem_of_join. split.
  - intros (l & Hs & Hl).
    apply (mapM_Ok_elem_of _ _ _ _ Hls) in Hl as ([fd1 fd2] & Hfd & Hl).
    apply bind_Ok in Hl as (c12 & H12 & Hl).
    apply bind_Ok in Hl as (c34 & H34 & [= <-]). by exists fd1, fd2, c12, c34.
  - intros (fd1 & fd2 & c12 & c34 & Hfd & H12 & H34 & Hs).
    eexists. split; [exact Hs|].
    apply (mapM_Ok_elem_of _ _ _ _ Hls). exists (fd1, fd2). split; [done|].
    fold fc. simpl. by rewrite H12, H34.
Qed.

Lemma channel_pairs_all_elem (P : list (gset Z)) (s : gset Z) :
  channel_pairs fn cn feeds "all" = Ok P →
  s ∈ P ↔ ∃ fd1 fd2 c12 c34,
            (fd1, fd2) ∈ combinations_with_replacement2 feeds
            ∧ fc fd1 = Ok c12 ∧ fc fd2 = Ok c34 ∧ s ∈ cross_sets c12 c34.
Proof.
  unfold channel_pairs. rewrite !decide_False, decide_True by done.
  intros H. apply bind_Ok in H as (ls & Hls & [= <-]).
  rewrite list_elem_of_join. split.
  - intros (l & Hs & Hl).
    apply (mapM_Ok_elem_of _ _ _ _ Hls) in Hl as ([fd1 fd2] & Hfd & Hl).
    apply bind_Ok in Hl as (c12 & H12 & Hl).
    apply bind_Ok in Hl as (c34 & H34 & [= <-]). by exists fd1, fd2, c12, c34.
  - intros (fd1 & fd2 & c12 & c34 & Hfd & H12 & H34 & Hs).
    eexists. split; [exact Hs|].
    apply (mapM_Ok_elem_of _ _ _ _ Hls). exists (fd1, fd2). split; [done|].
    fold fc. simpl. by rewrite H12, H34.
Qed.

(** The all-selection looks up the channels of every selected feed. *)
Lemma channel_pairs_all_feeds (P : list (gset Z)) (fd : Z) :
  channel_pairs fn cn feeds "all" = Ok P → fd ∈ feeds → is_Ok (fc fd).
Proof.
  unfold channel_pairs. rewrite !decide_False, decide_True by done.
  intros H Hfd. apply bind_Ok in H as (ls & Hls & _).
  assert ((fd, fd) ∈ combinations_with_replacement2 feeds) as Hin.
  { apply elem_of_combinations_with_replacement2. by right. }
  destruct (mapM_Ok_inv _ _ _ _ Hls Hin) as [l Hl].
  apply bind_Ok in Hl as (c & Hc & _). by exists c.
Qed.

Lemma channel_pairs_auto_Ok :
  (∀ fd, fd ∈ feeds → is_Ok (fc fd)) →
  is_Ok (channel_pairs fn cn feeds "auto").
Proof.
  intros Hfc. unfold channel_pairs. rewrite decide_True by done.
  destruct (mapM_is_Ok
    (λ fd : Z, c12 ← feed_channels fn cn fd;
               Ok [ ({[c12.1]} : gset Z); {[c12.2]}; {[c12.1; c12.2]} ]) feeds)
    as [ls Hls].
  { intros fd Hfd. destruct (Hfc fd Hfd) as [c Hc]. unfold fc in Hc.
    rewrite Hc. by eexists. }
  rewrite Hls. by eexists.
Qed.

Lemma channel_pairs_cross_Ok :
  (∀ fd, fd ∈ feeds → is_Ok (fc fd)) →
  is_Ok (channel_pairs fn cn feeds "cross").
Proof.
  intros Hfc. unfold channel_pairs. rewrite decide_False, decide_True by done.
  destruct (mapM_is_Ok
    (λ fds : Z * Z, c12 ← feed_channels fn cn fds.1;
                    c34 ← feed_channels fn cn fds.2;
                    Ok (cross_sets c12 c34)) (combinations2 feeds))
    as [ls Hls].
  { intros [fd1 fd2] [H1 H2]%elem_of_combinations2.
    destruct (Hfc fd1 H1) as [c12 Hc12]. destruct (Hfc fd2 H2) as [c34 Hc34].
    unfold fc in *. simpl. rewrite Hc12, Hc34. by eexists. }
  rewrite Hls. by eexists.
Qed.

Lemma channel_pairs_all_Ok :
  (∀ fd, fd ∈ feeds → is_Ok (fc fd)) →
  is_Ok (channel_pairs fn cn feeds "all").
Proof.
  intros Hfc. unfold channel_pairs. rewrite !decide_False, decide_True by done.
  destruct (mapM_is_Ok
    (λ fds : Z * Z, c12 ← feed_channels fn cn fds.1;
                    c34 ← feed_channels fn cn fds.2;
                    Ok (cross_sets c12 c34)) (combinations_with_replacement2 feeds))
    as [ls Hls].
  { intros [fd1 fd2] H.
    assert (fd1 ∈ feeds ∧ fd2 ∈ feeds) as [H1 H2].
    { apply elem_of_combinations_with_replacement2 in H as [H|[-> H]];
        [by apply elem_of_combinations2 | done]. }
    destruct (Hfc fd1 H1) as [c12 Hc12]. destruct (Hfc fd2 H2) as [c34 Hc34].
    unfold fc in *. simpl. rewrite Hc12, Hc34. by eexists. }
  rewrite Hls. by eexists.
Qed.

(** The channel sets of the all-selection are those of the
    auto-selection together with those of the cross-selection. *)
Lemma channel_pairs_all_split (Pall Pauto Pcross : list (gset Z)) (s : gset Z) :
  channel_pairs fn cn feeds "all" = Ok Pall →
  channel_pairs fn cn feeds "auto" = Ok Pauto →
  channel_pairs fn cn feeds "cross" = Ok Pcross →
  s ∈ Pall ↔ s ∈ Pauto ∨ s ∈ Pcross.
Proof.
  intros Hall Hauto Hcross.
  rewrite (channel_pairs_all_elem _ _ Hall), (channel_pairs_auto_elem _ _ Hauto),
    (channel_pairs_cross_elem _ _ Hcross).
  split.
  - intros (fd1 & fd2 & c12 & c34 & Hfd & H12 & H34 & Hs).
    apply elem_of_combinations_with_replacement2 in Hfd as [Hfd|[-> Hfd]].
    + right. by exists fd1, fd2, c12, c34.
    + left. assert (c34 = c12) as -> by congruence.
      exists fd2, c12. split; [done|]. split; [done|].
      by apply cross_sets_diag.
  - intros [(fd & c & Hfd & Hc & Hs)|(fd1 & fd2 & c12 & c34 & Hfd & H12 & H34 & Hs)].
    + exists fd, fd, c, c. split.
      { apply elem_of_combinations_with_replacement2. by right. }
      split; [done|]. split; [done|]. by apply cross_sets_diag.
    + exists fd1, fd2, c12, c34. split; [|done].
      apply elem_of_combinations_with_replacement2. by left.
Qed.

End ChannelPairs.


(** *** feed_select: the selected baseline indices *)

Lemma sorted_elements_set (S : gset nat) :
  (list_to_set (merge_sort Nat.le (elements S)) : gset nat) = S
  ∧ NoDup (merge_sort Nat.le (elements S)).
Proof.
  split.
  - apply set_eq. intros i.
    by rewrite elem_of_list_to_set, merge_sort_Permutation, elem_of_elements.
  - rewrite merge_sort_Permutation. apply NoDup_elements.
Qed.

Lemma pair_indices_set (bl P : list (gset Z)) (l : list nat) :
  pair_indices bl P = Ok l →
  NoDup l ∧ ∀ i, i ∈ (list_to_set l : gset nat) ↔ ∃ s, s ∈ P ∧ index bl s = Ok i.
Proof.
  unfold pair_indices. intros H. apply bind_Ok in H as (idxs & Hidxs & [= <-]).
  destruct (sorted_elements_set (list_to_set idxs)) as [-> Hnd].
  split; [done|]. intros i.
  by rewrite elem_of_list_to_set, (mapM_Ok_elem_of _ _ _ _ Hidxs).
Qed.

Lemma pair_indices_is_Ok (bl P : list (gset Z)) :
  (∀ s, s ∈ P → is_Ok (index bl s)) ↔ is_Ok (pair_indices bl P).
Proof.
  unfold pair_indices. split.
  - intros H. destruct (mapM_is_Ok (index bl) P H) as [idxs ->]. by eexists.
  - intros [l H] s Hs. apply bind_Ok in H as (idxs & Hidxs & _).
    by eapply mapM_Ok_inv.
Qed.

Lemma select_indices_union (f0 : InFile) (feeds : list Z) (iall : list nat) :
  select_indices f0 feeds "all" = Ok iall →
  ∃ iauto icross,
    select_indices f0 feeds "auto" = Ok iauto
    ∧ select_indices f0 feeds "cross" = Ok icross
    ∧ (list_to_set iall : gset nat) = list_to_set iauto ∪ list_to_set icross
    ∧ NoDup iall ∧ NoDup iauto ∧ NoDup icross.
Proof.
  unfold select_indices. intros H. apply bind_Ok in H as (Pall & HPall & Hall).
  assert (∀ fd, fd ∈ feeds →
            is_Ok (feed_channels (f_feedno f0) (f_channo f0) fd)) as Hfc.
  { intros fd Hfd. by eapply channel_pairs_all_feeds. }
  destruct (channel_pairs_auto_Ok _ _ _ Hfc) as [Pauto HPauto].
  destruct (channel_pairs_cross_Ok _ _ _ Hfc) as [Pcross HPcross].
  pose proof (λ s, channel_pairs_all_split _ _ _ _ _ _ s HPall HPauto HPcross)
    as Hsplit.
  assert (∀ s, s ∈ Pall → is_Ok (index (blorder_sets (f_blorder f0)) s)) as Hidx.
  { apply pair_indices_is_Ok. by eexists. }
  destruct (proj1 (pair_indices_is_Ok (blorder_sets (f_blorder f0)) Pauto))
    as [iauto Hauto].
  { intros s Hs. apply Hidx, Hsplit. by left. }
  destruct (proj1 (pair_indices_is_Ok (blorder_sets (f_blorder f0)) Pcross))
    as [icross Hcross].
  { intros s Hs. apply Hidx, Hsplit. by right. }
  rewrite HPauto, HPcross. simpl. exists iauto, icross.
  destruct (pair_indices_set _ _ _ Hall) as [Hnd Hin].
  destruct (pair_indices_set _ _ _ Hauto) as [Hnda Hina].
  destruct (pair_indices_set _ _ _ Hcross) as [Hndc Hinc].
  repeat split; try done.
  apply set_eq. intros i. rewrite elem_of_union, Hin, Hina, Hinc. split.
  - intros (s & Hs & Hi). apply Hsplit in Hs as [Hs|Hs]; [left|right]; eauto.
  - intros [(s & Hs & Hi)|(s & Hs & Hi)]; exists s; split; try done;
      apply Hsplit; auto.
Qed.

Lemma feed_select_list (self : RawTimestream) (F : list Z) (corr : string)
    (f0 : InFile) (rest : list InFile) :
  infiles self = f0 :: rest →
  feed_select self (SelList F) corr
  = (let feeds := intersect1d (f_feedno f0) F in
     indices ← select_indices f0 feeds corr;
     chans ← mapM (feed_channels (f_feedno f0) (f_channo f0)) feeds;
     Ok (data_select_baseline self indices feeds chans)).
Proof.
  intros Hf. unfold feed_select, select_indices.
  rewrite decide_False by (intros [[=] _]).
  rewrite Hf. simpl. by destruct (channel_pairs _ _ _ _).
Qed.


(** C5: for a feed list [F], a feed-to-channel map defined on the
    selected feeds and a baseline order holding every channel set the
    all-selection asks for, the three selections succeed, and the index
    list of [corr='all'] has no duplicates and holds exactly the indices
    of [corr='auto'] together with those of [corr='cross']. *)
Theorem feed_select_all_is_auto_union_cross (self : RawTimestream)
    (F : list Z) (f0 : InFile) (rest : list InFile) :
  infiles self = f0 :: rest →
  (∀ fd, fd ∈ intersect1d (f_feedno f0) F →
     is_Ok (feed_channels (f_feedno f0) (f_channo f0) fd)) →
  (∀ chps s,
     channel_pairs (f_feedno f0) (f_channo f0) (intersect1d (f_feedno f0) F) "all"
       = Ok chps →
     s ∈ chps → s ∈ blorder_sets (f_blorder f0)) →
  ∃ sall sauto scross iall iauto icross,
    feed_select self (SelList F) "all" = Ok sall
    ∧ feed_select self (SelList F) "auto" = Ok sauto
    ∧ feed_select self (SelList F) "cross" = Ok scross
    ∧ bl_select sall = Some iall
    ∧ bl_select sauto = Some iauto
    ∧ bl_select scross = Some icross
    ∧ (list_to_set iall : gset nat) = list_to_set iauto ∪ list_to_set icross
    ∧ NoDup iall.
Proof.
  intros Hf Hfc Hbl. set (feeds := intersect1d (f_feedno f0) F) in *.
  destruct (channel_pairs_all_Ok _ _ _ Hfc) as [Pall HPall].
  destruct (proj1 (pair_indices_is_Ok (blorder_sets (f_blorder f0)) Pall))
    as [iall Hall].
  { intros s Hs. apply index_is_Ok. by eapply Hbl. }
  assert (select_indices f0 feeds "all" = Ok iall) as Hsel.
  { unfold select_indices. by rewrite HPall. }
  destruct (select_indices_union _ _ _ Hsel)
    as (iauto & icross & Hauto & Hcross & Hset & Hnd & _).
  destruct (mapM_is_Ok (feed_channels (f_feedno f0) (f_channo f0)) feeds Hfc)
    as [chans Hchans].
  exists (data_select_baseline self iall feeds chans),
    (data_select_baseline self iauto feeds chans),
    (data_select_baseline self icross feeds chans), iall, iauto, icross.
  rewrite !(feed_select_list _ _ _ _ _ Hf). fold feeds. cbn zeta.
  rewrite Hsel, Hauto, Hcross. simpl. rewrite Hchans. simpl. done.
Qed.

Lemma feed_select_all_is_auto_union_cross_witness :
  ∃ sall sauto scross,
    feed_select scenario (SelList [1; 2]%Z) "all" = Ok sall
    ∧ feed_select scenario (SelList [1; 2]%Z) "auto" = Ok sauto
    ∧ feed_select scenario (SelList [1; 2]%Z) "cross" = Ok scross
    ∧ bl_select sall = Some [0; 1; 3; 6; 7; 9; 12; 13; 15; 16]%nat
    ∧ bl_select sauto = Some [0; 3; 6; 9; 12; 16]%nat
    ∧ bl_select scross = Some [1; 7; 13; 15]%nat.
Proof.
  destruct (feed_select_all_is_auto_union_cross scenario [1; 2]%Z
              scenario_file [] eq_refl)
    as (sall & sauto & scross & iall & iauto & icross
        & Hall & Hauto & Hcross & _).
  - intros fd Hfd.
    assert (intersect1d (f_feedno scenario_file) [1; 2]%Z = [1; 2]%Z) as E
      by (vm_compute; reflexivity).
    rewrite E in Hfd.
    repeat (apply elem_of_cons in Hfd as [->|Hfd];
            [eexists; vm_compute; reflexivity|]).
    by apply elem_of_nil in Hfd.
  - intros chps s Hch Hs.
    assert (Ok chps = Ok [ ({[0]} : gset Z); {[0; 1]}; {[1; 0]}; {[1]};
                           {[0; 2]}; {[0; 3]}; {[1; 2]}; {[1; 3]};
                           {[2]}; {[2; 3]}; {[3; 2]}; {[3]} ]%Z) as [= ->].
    { rewrite <- Hch. vm_compute. reflexivity. }
    repeat (apply elem_of_cons in Hs as [->|Hs];
            [apply (bool_decide_unpack _); vm_compute; exact I|]).
    by apply elem_of_nil in Hs.
  - exists sall, sauto, scross. split; [done|]. split; [done|]. split; [done|].
    vm_compute in Hall, Hauto, Hcross.
    injection Hall as <-. injection Hauto as <-. injection Hcross as <-.
    done.
Defined.


(** *** The distribution axis of the source container *)

(** After a successful [separate_pol_and_bl] a source container that
    was not distributed along the baseline axis has the distribution
    axis it had; one that was distributed along the baseline axis ends
    up distributed along the time axis.  The new container takes the
    axis the source had during the gather. *)
Lemma separate_pol_and_bl_dist_axis (self self' : RawTimestream)
    (keep_dist_axis : bool) (ts : Timestream) :
  separate_pol_and_bl self keep_dist_axis = Ok (ts, self') →
  (main_data_axes !! main_data_dist_axis self = Some "baseline"%string →
     main_data_dist_axis self' = 0%nat ∧ ts_dist_axis ts = 0%nat)
  ∧ (main_data_axes !! main_data_dist_axis self ≠ Some "baseline"%string →
     main_data_dist_axis self' = main_data_dist_axis self
     ∧ ts_dist_axis ts = main_data_dist_axis self).
Proof.
  intros H. unfold separate_pol_and_bl in H.
  apply bind_Ok in H as (axis_name & Hax & H). apply getitem_Ok in Hax.
  apply bind_Ok in H as ([keep s1] & Hs1 & H). cbn [fst snd] in H.
  repeat (apply bind_Ok in H as (? & _ & H)).
  destruct (decide (0 < _)%nat) in H; [discriminate|].
  apply bind_Ok in H as (s2 & Hs2 & [= <- <-]). cbn [ts_dist_axis].
  rewrite Hax. destruct (decide ("baseline"%string = axis_name)) as [<-|Hne].
  - apply bind_Ok in Hs1 as (s & Hs & [= <- <-]).
    apply redistribute_frame in Hs as (Hs & _).
    injection Hs2 as <-. split; [done|]. by intros [].
  - injection Hs1 as <- <-. split; [intros [= ->]; done|]. intros _.
    split; [|done]. destruct keep_dist_axis.
    + by apply redistribute_frame in Hs2 as (? & _).
    + by injection Hs2 as <-.
Qed.

Lemma separate_pol_and_bl_dist_axis_witness :
  ∃ ts self',
    separate_pol_and_bl reversed true = Ok (ts, self')
    ∧ main_data_dist_axis self' = main_data_dist_axis reversed
    ∧ ts_dist_axis ts = main_data_dist_axis reversed.
Proof.
  destruct (separate_pol_and_bl reversed true) as [[ts self']|e] eqn:H;
    [|vm_compute in H; discriminate].
  exists ts, self'. split; [reflexivity|].
  apply (separate_pol_and_bl_dist_axis reversed self' true ts H).
  vm_compute. discriminate.
Defined.

Lemma redistribute_same_axis (self : RawTimestream) :
  (main_data_dist_axis self < length main_data_axes)%nat →
  redistribute self (main_data_dist_axis self) = Ok self.
Proof.
  intros H. unfold redistribute. rewrite decide_True by done. by destruct self.
Qed.

(** C8: the code does not keep the distribution axis of a container
    distributed along the baseline axis.  The docstring has
    [keep_dist_axis] say "whether to redistribute main data to the
    original dist axis if the dist axis has changed during the
    operation"; the axis changes in the baseline case only, and there
    the flag is overwritten: the example container, distributed along
    the baseline axis (axis 2), is left on the time axis (axis 0) by
    [separate_pol_and_bl(keep_dist_axis=True)], and on every container
    the call gives what [keep_dist_axis=False] gives. *)
Theorem keep_dist_axis_has_no_effect :
  (∃ ts self',
     separate_pol_and_bl scenario true = Ok (ts, self')
     ∧ main_data_dist_axis scenario = 2%nat
     ∧ main_data_axes !! main_data_dist_axis scenario = Some "baseline"%string
     ∧ main_data_dist_axis self' = 0%nat)
  ∧ ∀ self, separate_pol_and_bl self true = separate_pol_and_bl self false.
Proof.
  split.
  - destruct (separate_pol_and_bl scenario true) as [[ts self']|e] eqn:H;
      [|vm_compute in H; discriminate].
    exists ts, self'. split; [reflexivity|]. split; [reflexivity|].
    split; [reflexivity|].
    apply (f_equal (λ r, match r with
                         | Ok p => main_data_dist_axis p.2
                         | Raise _ => 1%nat
                         end)) in H.
    vm_compute in H. symmetry. exact H.
  - intros self. unfold separate_pol_and_bl.
    destruct (getitem main_data_axes (main_data_dist_axis self))
      as [axis_name|] eqn:Hax; [|done].
    cbn [mbind result_bind].
    destruct (decide ("baseline"%string = axis_name)); [done|].
    cbn [mbind result_bind fst snd].
    apply getitem_Ok, lookup_lt_Some in Hax.
    by rewrite (redistribute_same_axis self Hax).
Qed.


(** *** Resolving a channel pair to a baseline index *)

Lemma elem_of_conj_blorder (bl : list (Z * Z)) (chp : Z * Z) :
  chp ∈ conj_blorder bl ↔ (chp.2, chp.1) ∈ bl.
Proof.
  unfold conj_blorder. rewrite list_elem_of_fmap. split.
  - intros ([a b] & -> & H). done.
  - intros H. exists (chp.2, chp.1). by destruct chp.
Qed.

Lemma pair_set_eq (a b c d : Z) :
  ({[a; b]} : gset Z) = {[c; d]} ↔ (a = c ∧ b = d) ∨ (a = d ∧ b = c).
Proof.
  rewrite set_eq. split.
  - intros H.
    pose proof (H a) as Ha. pose proof (H b) as Hb.
    pose proof (H c) as Hc. pose proof (H d) as Hd.
    rewrite !elem_of_union, !elem_of_singleton in Ha, Hb, Hc, Hd. lia.
  - intros Heq x. rewrite !elem_of_union, !elem_of_singleton. lia.
Qed.

Lemma _get_ind_Raise (bl : list (Z * Z)) (chp : Z * Z) (e : exn) :
  _get_ind bl chp = Raise e → e = ValueError.
Proof.
  unfold _get_ind. destruct (index bl chp) as [i|e'] eqn:Hi; [discriminate|].
  destruct (index_Raise _ _ _ Hi) as [-> _].
  destruct (index (conj_blorder bl) chp) as [i|e'] eqn:Hc; [discriminate|].
  destruct (index_Raise _ _ _ Hc) as [-> _]. by intros [= <-].
Qed.

Lemma _get_ind_absent (bl : list (Z * Z)) (chp : Z * Z) :
  chp ∉ bl → (chp.2, chp.1) ∉ bl → _get_ind bl chp = Raise ValueError.
Proof.
  intros Hn Hr. unfold _get_ind. rewrite (index_not_elem _ _ Hn).
  rewrite index_not_elem; [done|]. by rewrite elem_of_conj_blorder.
Qed.

Lemma elem_of_upper_pairs (xs ys : list Z) (n i j : nat) :
  (i ≤ j < n)%nat → (nth i xs 0%Z, nth j ys 0%Z) ∈ upper_pairs xs ys n.
Proof.
  intros [k Hk]%elem_of_index_pairs%list_elem_of_lookup.
  apply list_elem_of_lookup. exists k. by apply upper_pairs_lookup.
Qed.

(** [feed_select] fails with [ValueError] when a channel set it asks
    for is in the baseline order in neither orientation. *)
Lemma feed_select_pair_not_found (self : RawTimestream) (f0 : InFile)
    (rest : list InFile) (F : list Z) (corr : string)
    (chps : list (gset Z)) (s : gset Z) :
  infiles self = f0 :: rest →
  channel_pairs (f_feedno f0) (f_channo f0) (intersect1d (f_feedno f0) F) corr
    = Ok chps →
  s ∈ chps → s ∉ blorder_sets (f_blorder f0) →
  feed_select self (SelList F) corr = Raise ValueError.
Proof.
  intros Hf Hch Hs Hn. rewrite (feed_select_list _ _ _ _ _ Hf). cbn zeta.
  unfold select_indices. rewrite Hch. cbn [mbind result_bind].
  unfold pair_indices.
  rewrite (mapM_Raise (index (blorder_sets (f_blorder f0))) chps ValueError s);
    [done| |done|].
  - intros y e He. by apply index_Raise in He as [-> _].
  - exists ValueError. by apply index_not_elem.
Qed.

(** [separate_pol_and_bl] fails with [ValueError] when the channel pair
    of some polarization slot of some feed pair is in the baseline
    order in neither orientation. *)
Lemma separate_pol_and_bl_pair_not_found (self : RawTimestream)
    (keep_dist_axis : bool) (xs ys : list Z) (p i j : nat) :
  is_Some (main_data_axes !! main_data_dist_axis self) →
  xchans self = Ok xs → ychans self = Ok ys →
  (i ≤ j < length (feedno self))%nat → (p < 4)%nat →
  chan_pair xs ys p i j ∉ blorder self →
  ((chan_pair xs ys p i j).2, (chan_pair xs ys p i j).1) ∉ blorder self →
  separate_pol_and_bl self keep_dist_axis = Raise ValueError.
Proof.
  intros [axis_name Hax] Hxs Hys Hij Hp Hn Hr. unfold separate_pol_and_bl.
  unfold getitem. rewrite Hax. cbn [mbind result_bind].
  assert (∃ ks : bool * RawTimestream,
            (if decide ("baseline"%string = axis_name)
             then self0 ← redistribute self 0; Ok (false, self0)
             else Ok (keep_dist_axis, self)) = Ok ks
            ∧ feedno ks.2 = feedno self ∧ channo ks.2 = channo self
            ∧ blorder ks.2 = blorder self) as (ks & -> & Hfeed & Hchan & Hbl).
  { destruct (decide _).
    - unfold redistribute. rewrite decide_True by (simpl; lia).
      eexists. split; [reflexivity|]. done.
    - eexists. split; [reflexivity|]. done. }
  cbn [mbind result_bind].
  assert (xchans ks.2 = Ok xs) as -> by (unfold xchans in *; by rewrite Hfeed, Hchan).
  assert (ychans ks.2 = Ok ys) as -> by (unfold ychans in *; by rewrite Hfeed, Hchan).
  cbn [mbind result_bind]. rewrite Hfeed, Hbl.
  assert (length (sorted (feedno self)) = length (feedno self)) as ->.
  { unfold sorted. by rewrite merge_sort_Permutation. }
  pose proof (_get_ind_Raise (blorder self)) as Honly.
  pose proof (_get_ind_absent _ _ Hn Hr) as Habs.
  assert (∀ pairs, chan_pair xs ys p i j ∈ pairs →
            mapM (_get_ind (blorder self)) pairs = Raise ValueError) as Hfail.
  { intros pairs Hin. eapply mapM_Raise; [exact Honly|exact Hin|by eexists]. }
  set (n := length (feedno self)) in *.
  destruct (mapM_Ok_or_Raise (_get_ind (blorder self)) (upper_pairs xs xs n)
              ValueError Honly) as [[xx Hxx]|Hxx]; rewrite Hxx; [|done].
  cbn [mbind result_bind].
  destruct (mapM_Ok_or_Raise (_get_ind (blorder self)) (upper_pairs ys ys n)
              ValueError Honly) as [[yy Hyy]|Hyy]; rewrite Hyy; [|done].
  cbn [mbind result_bind].
  destruct (mapM_Ok_or_Raise (_get_ind (blorder self)) (upper_pairs xs ys n)
              ValueError Honly) as [[xy Hxy]|Hxy]; rewrite Hxy; [|done].
  cbn [mbind result_bind].
  destruct (mapM_Ok_or_Raise (_get_ind (blorder self)) (upper_pairs ys xs n)
              ValueError Honly) as [[yx Hyx]|Hyx]; rewrite Hyx; [|done].
  exfalso.
  assert (chan_pair xs ys p i j ∈ upper_pairs xs xs n
          ∨ chan_pair xs ys p i j ∈ upper_pairs ys ys n
          ∨ chan_pair xs ys p i j ∈ upper_pairs xs ys n
          ∨ chan_pair xs ys p i j ∈ upper_pairs ys xs n) as Hin.
  { destruct p as [|[|[|[|p]]]]; [| | | |lia]; simpl;
      [left | right; left | right; right; left | right; right; right];
      by apply elem_of_upper_pairs. }
  destruct Hin as [Hin|[Hin|[Hin|Hin]]]; apply Hfail in Hin; congruence.
Qed.

End RawTsFacts.

(** ** freq_flag.py *)

Section FreqFlagFacts.
Import RawTs FreqFlag.

Example spike_flagged :
  column3 true (time_and_bl_data_operate (flag params_init) spike_vis spike_mask) 0 0
  = [false; true; false; false; false; false; false; false; true;
     false; false; false].
Proof. vm_compute. reflexivity. Qed.


Lemma foldr_insert_true_lookup (inds : list nat) (l : list bool) (i : nat) (m : bool) :
  l !! i = Some m →
  ∃ m', foldr (λ j acc, <[j := true]> acc) l inds !! i = Some m' ∧ Bool.le m m'.
Proof.
  intros Hl. induction inds as [|j inds IH]; simpl.
  - exists m. split; [done|]. by destruct m.
  - destruct IH as (m' & Hm' & Hle). destruct (decide (j = i)) as [->|Hne].
    + exists true. split; [|by destruct m].
      apply list_lookup_insert_eq. by eapply lookup_lt_Some.
    + exists m'. by rewrite list_lookup_insert_ne.
Qed.

(** [flag] only ever raises entries of the mask column. *)
Lemma flag_lookup (p : Params) (vis : list complex) (vis_mask : list bool)
    (i : nat) (m : bool) :
  vis_mask !! i = Some m →
  ∃ m', flag p vis vis_mask !! i = Some m' ∧ Bool.le m m'.
Proof.
  intros Hl. unfold flag. case_decide.
  - by apply foldr_insert_true_lookup.
  - exists m. split; [done|]. by destruct m.
Qed.

Lemma flag_small_sample (p : Params) (vis : list complex) (vis_mask : list bool) :
  (Z.of_nat (length (valid_abs vis vis_mask)) < freq_points p)%Z →
  flag p vis vis_mask = vis_mask.
Proof. intros H. unfold flag. case_decide; [lia|done]. Qed.

Lemma column3_lookup {A : Type} (d : A) (arr : list (list (list A)))
    (t f b : nat) (x : A) :
  at3 arr t f b = Some x → column3 d arr t b !! f = Some x.
Proof.
  unfold at3, row_at, column3. destruct (arr !! t) as [plane|]; [|done].
  rewrite list_lookup_fmap. destruct (plane !! f) as [row|]; [|done].
  simpl. by intros ->.
Qed.

Lemma column4_lookup {A : Type} (d : A) (arr : list (list (list (list A))))
    (t f p b : nat) (x : A) :
  at4 arr t f p b = Some x → column4 d arr t p b !! f = Some x.
Proof.
  unfold at4, column4. unfold row_at at 1.
  destruct (arr !! t) as [plane|]; [|done].
  rewrite list_lookup_fmap. destruct (plane !! f) as [pols|]; [|done].
  simpl. by intros ->.
Qed.

Lemma time_and_bl_data_operate_at3 (func : list complex → list bool → list bool)
    (v : list (list (list complex))) (mk : list (list (list bool)))
    (t f b : nat) :
  at3 (time_and_bl_data_operate func v mk) t f b
  = (λ m, default m (func (column3 c0 v t b) (column3 true mk t b) !! f))
      <$> at3 mk t f b.
Proof.
  unfold at3, row_at, time_and_bl_data_operate. rewrite list_lookup_imap.
  destruct (mk !! t) as [plane|]; [|done]. simpl.
  rewrite list_lookup_imap. destruct (plane !! f) as [row|]; [|done]. simpl.
  by rewrite list_lookup_imap.
Qed.

Lemma time_pol_and_bl_data_operate_at4
    (func : list complex → list bool → list bool)
    (v : list (list (list (list complex))))
    (mk : list (list (list (list bool)))) (t f p b : nat) :
  at4 (time_pol_and_bl_data_operate func v mk) t f p b
  = (λ m, default m (func (column4 c0 v t p b) (column4 true mk t p b) !! f))
      <$> at4 mk t f p b.
Proof.
  unfold at4, time_pol_and_bl_data_operate. unfold row_at at 1 3.
  rewrite list_lookup_imap.
  destruct (mk !! t) as [plane|]; [|done]. simpl.
  rewrite list_lookup_imap. destruct (plane !! f) as [pols|]; [|done]. simpl.
  unfold row_at. rewrite list_lookup_imap.
  destruct (pols !! p) as [row|]; [|done]. simpl.
  by rewrite list_lookup_imap.
Qed.

(** the mask after the stage, entry by entry *)
Lemma process_mask (p : Params) (ts : tod) (t f pl b : nat) :
  tod_mask (process p ts).1 t f pl b = tod_mask ts t f pl b
  ∨ tod_mask (process p ts).1 t f pl b
    = (λ m, default m (flag p (tod_vis_column ts t pl b)
                              (tod_mask_column ts t pl b) !! f))
        <$> tod_mask ts t f pl b.
Proof.
  unfold process. case_decide; [|by left]. right.
  destruct ts as [rt|s]; simpl.
  - apply time_and_bl_data_operate_at3.
  - apply time_pol_and_bl_data_operate_at4.
Qed.

Lemma tod_mask_column_lookup (ts : tod) (t f pl b : nat) (m : bool) :
  tod_mask ts t f pl b = Some m → tod_mask_column ts t pl b !! f = Some m.
Proof.
  destruct ts; simpl; [apply column3_lookup | apply column4_lookup].
Qed.

(** C6: the flagging stage leaves every visibility as it was, and every
    mask entry after the stage is at least its value before: an entry
    is only ever changed from false to true. *)
Theorem flag_stage_only_raises_mask (p : Params) (ts : tod) :
  (∀ t f pl b, tod_vis (process p ts).1 t f pl b = tod_vis ts t f pl b)
  ∧ (∀ t f pl b m,
       tod_mask ts t f pl b = Some m →
       ∃ m', tod_mask (process p ts).1 t f pl b = Some m' ∧ Bool.le m m').
Proof.
  split.
  - intros t f pl b. unfold process. case_decide; [|done]. by destruct ts.
  - intros t f pl b m Hm.
    destruct (process_mask p ts t f pl b) as [-> | ->].
    + exists m. split; [done|]. by destruct m.
    + rewrite Hm. simpl.
      destruct (flag_lookup p (tod_vis_column ts t pl b) _ _ _
                  (tod_mask_column_lookup _ _ _ _ _ _ Hm)) as (m' & -> & Hle).
      by exists m'.
Qed.

Lemma flag_stage_only_raises_mask_witness :
  tod_vis (process params_init (Raw spike)).1 0 8 0 0 = tod_vis (Raw spike) 0 8 0 0
  ∧ tod_mask (Raw spike) 0 8 0 0 = Some false
  ∧ tod_mask (process params_init (Raw spike)).1 0 8 0 0 = Some true
  ∧ ∃ m', tod_mask (process params_init (Raw spike)).1 0 1 0 0 = Some m'
          ∧ Bool.le true m'.
Proof.
  destruct (flag_stage_only_raises_mask params_init (Raw spike)) as [Hv Hm].
  split; [apply Hv|]. split; [reflexivity|]. split; [vm_compute; reflexivity|].
  apply Hm. reflexivity.
Defined.


(** C7: below the configured minimum of frequency points the stage
    flags nothing, hands the container back as it was and issues one
    warning; a column with fewer valid samples than the minimum keeps
    its mask; with five frequency points and [freq_points=10] the stage
    is skipped with a warning. *)
Theorem flag_stage_skips_small_samples (p : Params) (ts : tod) :
  ((Z.of_nat (length (tod_freq ts)) < freq_points p)%Z →
     process p ts = (ts, ["Not enough frequency points to do the flag"%string]))
  ∧ (∀ vis vis_mask,
       (Z.of_nat (length (valid_abs vis vis_mask)) < freq_points p)%Z →
       flag p vis vis_mask = vis_mask)
  ∧ (∀ t pl b,
       (Z.of_nat (length (valid_abs (tod_vis_column ts t pl b)
                                    (tod_mask_column ts t pl b)))
        < freq_points p)%Z →
       ∀ f, tod_mask (process p ts).1 t f pl b = tod_mask ts t f pl b)
  ∧ (length (freq five_freq) = 5%nat
     ∧ process params_init (Raw five_freq)
       = (Raw five_freq, ["Not enough frequency points to do the flag"%string])).
Proof.
  split; [|split; [|split]].
  - intros H. unfold process. case_decide; [lia|done].
  - intros v mk. apply flag_small_sample.
  - intros t pl b Hsmall f.
    destruct (process_mask p ts t f pl b) as [-> | ->]; [done|].
    rewrite (flag_small_sample _ _ _ Hsmall).
    destruct (tod_mask ts t f pl b) as [m|] eqn:Hm; [|done].
    by rewrite (tod_mask_column_lookup _ _ _ _ _ _ Hm).
  - split; [reflexivity|]. vm_compute. reflexivity.
Qed.

Lemma flag_stage_skips_small_samples_witness :
  process params_init (Raw five_freq)
  = (Raw five_freq, ["Not enough frequency points to do the flag"%string])
  ∧ flag params_init [(1, 0); (100, 0); (1, 0)]%float [false; false; false]
    = [false; false; false]
  ∧ ∀ f, tod_mask (process {| sigma := 3; freq_points := 12 |} (Raw spike)).1 0 f 0 0
         = tod_mask (Raw spike) 0 f 0 0.
Proof.
  pose proof (flag_stage_skips_small_samples params_init (Raw five_freq))
    as (Hskip & Hcol & _).
  pose proof (flag_stage_skips_small_samples
                {| sigma := 3; freq_points := 12 |} (Raw spike))
    as (_ & _ & Hkeep & _).
  split; [apply Hskip; vm_compute; reflexivity|].
  split; [apply Hcol; vm_compute; reflexivity|].
  apply Hkeep. vm_compute. reflexivity.
Defined.

End FreqFlagFacts.

(** ** multiscale.py, continued *)

Section MultiscaleMore.
Import Multiscale.
Local Open Scope Qc_scope.

(** *** up_sampling *)

(** X2: [up_sampling] of a one-dimensional array of [n >= 1] entries
    has [2n - 1] entries, the input at the even positions and zero at
    the odd ones; an empty array is a [ValueError]. *)
Theorem up_sampling_spec (a : list Qc) :
  up_sampling [] = Raise ValueError
  ∧ (a ≠ [] →
     ∃ a1, up_sampling a = Ok a1
           ∧ length a1 = (2 * length a - 1)%nat
           ∧ (∀ k, (k < length a)%nat → a1 !! (2 * k)%nat = a !! k)
           ∧ (∀ k, (2 * k + 1 < length a1)%nat → a1 !! (2 * k + 1)%nat = Some 0)).
Proof.
  split; [done|]. intros Ha. destruct a as [|x a]; [done|].
  eexists. split; [reflexivity|]. split; [by rewrite length_fmap, length_seq|].
  split.
  - intros k Hk. rewrite list_lookup_fmap, lookup_seq_lt by (simpl in *; lia).
    rewrite Nat.add_0_l. cbn [fmap option_fmap option_map].
    assert (Nat.even (2 * k) = true) as ->
      by (apply Nat.even_spec; by exists k).
    assert (2 * k / 2 = k)%nat as ->
      by (rewrite Nat.mul_comm; by apply Nat.div_mul).
    destruct (lookup_lt_is_Some_2 (x :: a) k Hk) as [y Hy].
    rewrite Hy. f_equal. by apply nth_lookup_Some with (d := 0) in Hy.
  - intros k Hk. rewrite length_fmap, length_seq in Hk.
    rewrite list_lookup_fmap, lookup_seq_lt by lia.
    rewrite Nat.add_0_l. cbn [fmap option_fmap option_map].
    assert (Nat.even (2 * k + 1) = false) as ->; [|done].
    rewrite <- Nat.negb_odd. apply negb_false_iff, Nat.odd_spec.
    by exists k.
Qed.

Lemma up_sampling_spec_witness :
  ∃ a1, up_sampling _phi = Ok a1 ∧ length a1 = 9%nat
        ∧ a1 !! 2%nat = _phi !! 1%nat ∧ a1 !! 3%nat = Some 0.
Proof.
  destruct (up_sampling_spec _phi) as [_ H].
  destruct H as (a1 & Ha1 & Hlen & Heven & Hodd); [done|].
  exists a1. split; [done|]. split; [exact Hlen|]. split.
  - apply (Heven 1%nat). simpl. lia.
  - apply (Hodd 1%nat). rewrite Hlen. simpl. lia.
Defined.


(** *** The starlet transform in general *)

Lemma starlet_loop_ok (gen2 approx_only : bool) (n : nat) :
  ∀ li phi a W, phi ≠ [] →
  ∃ W' approx,
    starlet_loop gen2 approx_only n li phi a W = Ok (W', approx)
    ∧ length W' = (length W + if approx_only then 0 else n)%nat
    ∧ shape approx = shape a
    ∧ (Forall (λ w, shape w = shape a) W → Forall (λ w, shape w = shape a) W').
Proof.
  induction n as [|n IH]; intros li phi a W Hphi.
  - exists W, a. repeat split; auto. destruct approx_only; lia.
  - simpl.
    assert (∃ phi', (if (0 <? li)%nat then up_sampling phi else Ok phi) = Ok phi'
                    ∧ phi' ≠ []) as (phi' & -> & Hphi').
    { destruct (0 <? li)%nat; [by apply up_sampling_nonempty | by exists phi]. }
    simpl. destruct (convolve_shape a phi' Hphi') as (approx & -> & Hs). simpl.
    assert (∃ W1, (if approx_only then Ok W
                   else if gen2
                        then c ← convolve approx phi'; Ok (W ++ [sub a c])
                        else Ok (W ++ [sub a approx])) = Ok W1
                  ∧ length W1 = (length W + if approx_only then 0 else 1)%nat
                  ∧ (Forall (λ w, shape w = shape a) W →
                     Forall (λ w, shape w = shape a) W1))
      as (W1 & -> & Hlen1 & Hall1).
    { destruct approx_only; [exists W; split; [done|]; split; [lia|done]|].
      destruct gen2.
      - destruct (convolve_shape approx phi' Hphi') as (c & -> & Hc). simpl.
        eexists. split; [done|]. rewrite length_app. split; [done|].
        intros HW. apply Forall_app. split; [done|]. by repeat constructor.
      - eexists. split; [done|]. rewrite length_app. split; [done|].
        intros HW. apply Forall_app. split; [done|]. by repeat constructor. }
    simpl. destruct (IH (S li) phi' approx W1 Hphi')
      as (W' & r & -> & Hlen & Hsr & Hall).
    exists W', r. split; [done|]. split.
    { rewrite Hlen, Hlen1. destruct approx_only; lia. }
    split; [congruence|].
    intros HW. rewrite <- Hs. apply Hall. rewrite Hs. by apply Hall1.
Qed.

(** X3: for every level and every non-empty [phi] the starlet
    transform succeeds; it returns [level + 1] arrays ([1] with
    [approx_only], the input alone for a level at or below zero), each
    of the shape of the input. *)
Theorem starlet_transform_shape (a : ndarray) (level : Z)
    (gen2 approx_only : bool) (phi : list Qc) :
  phi ≠ [] →
  ∃ W, starlet_transform a (Some level) gen2 approx_only phi = Ok W
       ∧ length W = (if approx_only then 1 else Z.to_nat level + 1)%nat
       ∧ Forall (λ w, shape w = shape a) W.
Proof.
  intros Hphi. unfold starlet_transform. simpl.
  destruct (Z.leb_spec level 0) as [Hl|Hl].
  - exists [a]. split; [done|]. split; [|by repeat constructor].
    replace (Z.to_nat level) with 0%nat by lia. by destruct approx_only.
  - destruct (starlet_loop_ok gen2 approx_only (Z.to_nat level) 0 phi a [] Hphi)
      as (W & approx & -> & Hlen & Hs & Hall).
    simpl. eexists. split; [done|]. rewrite length_app, Hlen. simpl. split.
    + destruct approx_only; lia.
    + apply Forall_app. split; [by apply Hall | by repeat constructor].
Qed.

Lemma starlet_transform_shape_witness :
  ∃ W, starlet_transform (of_list (qz <$> [1; 2; 4; 8; 16]%Z)) (Some 2%Z) true false _phi
       = Ok W
       ∧ length W = 3%nat
       ∧ Forall (λ w, shape w = [5%nat]) W.
Proof.
  refine (starlet_transform_shape (of_list (qz <$> [1; 2; 4; 8; 16]%Z)) 2 true false _phi _).
  done.
Defined.

(** the approximation does not depend on whether the bands are kept *)
Lemma starlet_loop_approx_only (n : nat) :
  ∀ li phi a W W0 W' r,
    starlet_loop false false n li phi a W = Ok (W', r) →
    starlet_loop false true n li phi a W0 = Ok (W0, r).
Proof.
  induction n as [|n IH]; intros li phi a W W0 W' r; simpl.
  - by intros [= _ <-].
  - intros H. apply bind_Ok in H as (phi' & -> & H). simpl.
    apply bind_Ok in H as (approx & -> & H). simpl in *.
    by eapply IH.
Qed.

(** X4: in exact arithmetic, for a level of at least one,
    [starlet_smooth] is the last array of the first-generation starlet
    transform, and [starlet_detrend] is the element-wise sum of the
    [level] detail arrays before it. *)
Theorem starlet_detrend_is_sum_of_bands (a : ndarray) (level : Z) (phi : list Qc) :
  (1 ≤ level)%Z → phi ≠ [] →
  ∃ W approx d,
    starlet_transform a (Some level) false false phi = Ok (W ++ [approx])
    ∧ length W = Z.to_nat level
    ∧ starlet_smooth a (Some level) phi = Ok approx
    ∧ starlet_detrend a (Some level) phi = Ok d
    ∧ shape d = shape a
    ∧ ∀ idx, data d idx = total_at idx W.
Proof.
  intros Hl Hphi.
  destruct (starlet_loop_telescopes (Z.to_nat level) 0 phi a [] Hphi)
    as (W & approx & Hloop & Hlen & Hs & Hall & Hsum).
  pose proof (starlet_loop_approx_only _ _ _ _ _ [] _ _ Hloop) as Hloop'.
  exists W, approx, (sub a approx).
  unfold starlet_detrend, starlet_smooth, head0, starlet_transform. simpl.
  destruct (Z.leb_spec level 0) as [?|_]; [lia|].
  rewrite Hloop, Hloop'. simpl. repeat split; try done.
  intros idx. specialize (Hsum idx). simpl in *.
  rewrite <- (Qcplus_0_l (data a idx)), <- Hsum. ring.
Qed.

Lemma starlet_detrend_is_sum_of_bands_witness :
  ∃ W approx d,
    starlet_transform (of_list (qz <$> [1; 2; 4; 8; 16]%Z)) (Some 2%Z) false false _phi
      = Ok (W ++ [approx])
    ∧ length W = 2%nat
    ∧ starlet_smooth (of_list (qz <$> [1; 2; 4; 8; 16]%Z)) (Some 2%Z) _phi = Ok approx
    ∧ starlet_detrend (of_list (qz <$> [1; 2; 4; 8; 16]%Z)) (Some 2%Z) _phi = Ok d
    ∧ shape d = [5%nat]
    ∧ ∀ idx, data d idx = total_at idx W.
Proof.
  refine (starlet_detrend_is_sum_of_bands
            (of_list (qz <$> [1; 2; 4; 8; 16]%Z)) 2 _phi _ _); [lia|done].
Defined.


(** *** The median transforms *)

Lemma median_filter_shape (a : ndarray) (size : Z) :
  (0 < size)%Z → ∃ b, median_filter a size = Ok b ∧ shape b = shape a.
Proof.
  intros Hs. unfold median_filter.
  destruct (Z.ltb_spec size 0) as [?|_]; [lia|].
  destruct (Z.eqb_spec size 0) as [?|_]; [lia|]. by eexists.
Qed.

Lemma starlet_smooth_shape (a : ndarray) (level : Z) (phi : list Qc) :
  phi ≠ [] → ∃ s, starlet_smooth a (Some level) phi = Ok s ∧ shape s = shape a.
Proof.
  intros Hphi. unfold starlet_smooth, head0, starlet_transform. simpl.
  destruct (Z.leb_spec level 0) as [Hl|Hl]; [by exists a|].
  destruct (starlet_loop_ok false true (Z.to_nat level) 0 phi a [] Hphi)
    as (W & approx & -> & Hlen & Hs & _).
  destruct W as [|w W]; [|simpl in Hlen; lia]. simpl. by exists approx.
Qed.

Lemma median_loop_telescopes (n : nat) :
  ∀ li scale a W, (0 ≤ scale)%Z →
  ∃ W' approx,
    median_loop false n li scale a W = Ok (W', approx)
    ∧ length W' = (length W + n)%nat
    ∧ shape approx = shape a
    ∧ (Forall (λ w, shape w = shape a) W → Forall (λ w, shape w = shape a) W')
    ∧ ∀ idx, total_at idx W' + data approx idx = total_at idx W + data a idx.
Proof.
  induction n as [|n IH]; intros li scale a W Hsc.
  - exists W, a. repeat split; auto with lia.
  - cbn [median_loop].
    set (scale' := if (0 <? li)%nat then (scale * 2)%Z else scale).
    assert (0 ≤ scale')%Z as Hsc' by (unfold scale'; destruct (0 <? li)%nat; lia).
    destruct (median_filter_shape a (2 * scale' + 1)) as (approx & -> & Hs); [lia|].
    cbn [mbind result_bind].
    destruct (IH (S li) scale' approx (W ++ [sub a approx]) Hsc')
      as (W' & r & -> & Hlen & Hsr & Hall & Hsum).
    exists W', r. split; [done|]. split.
    { rewrite Hlen, length_app. simpl. lia. }
    split; [congruence|]. split.
    { intros HW. rewrite <- Hs. apply Hall. apply Forall_app. split.
      - eapply Forall_impl; [exact HW|]. simpl. congruence.
      - constructor; [|constructor]. simpl. congruence. }
    intros idx. rewrite Hsum, total_at_snoc. simpl. ring.
Qed.

Lemma median_wavelet_loop_telescopes (tau : Qc) (phi : list Qc) (n : nat) :
  phi ≠ [] →
  ∀ li scale a W, (0 ≤ scale)%Z →
  ∃ W' approx,
    median_wavelet_loop false n li scale tau phi a W = Ok (W', approx)
    ∧ length W' = (length W + n)%nat
    ∧ shape approx = shape a
    ∧ (Forall (λ w, shape w = shape a) W → Forall (λ w, shape w = shape a) W')
    ∧ ∀ idx, total_at idx W' + data approx idx = total_at idx W + data a idx.
Proof.
  intros Hphi. induction n as [|n IH]; intros li scale a W Hsc.
  - exists W, a. repeat split; auto with lia.
  - cbn [median_wavelet_loop].
    set (scale' := if (0 <? li)%nat then (scale * 2)%Z else scale).
    assert (0 ≤ scale')%Z as Hsc' by (unfold scale'; destruct (0 <? li)%nat; lia).
    destruct (median_filter_shape a (2 * scale' + 1)) as (m & -> & Hm); [lia|].
    cbn [mbind result_bind].
    set (b := add m (clip_above (sub a m) (tau * MAD (sub a m)))).
    destruct (starlet_smooth_shape b (Z.of_nat li + 1) phi Hphi)
      as (approx & -> & Hs).
    assert (shape approx = shape a) as Hsa by (rewrite Hs; simpl; congruence).
    cbn [mbind result_bind].
    destruct (IH (S li) scale' approx (W ++ [sub a approx]) Hsc')
      as (W' & r & -> & Hlen & Hsr & Hall & Hsum).
    exists W', r. split; [done|]. split.
    { rewrite Hlen, length_app. simpl. lia. }
    split; [congruence|]. split.
    { intros HW. rewrite <- Hsa. apply Hall. apply Forall_app. split.
      - eapply Forall_impl; [exact HW|]. simpl. congruence.
      - constructor; [|constructor]. simpl. congruence. }
    intros idx. rewrite Hsum, total_at_snoc. simpl. ring.
Qed.

(** the bands and the approximation add up to the input *)
Lemma bands_sum (a : ndarray) (W : list ndarray) (approx : ndarray) :
  shape approx = shape a →
  Forall (λ w, shape w = shape a) W →
  (∀ idx, total_at idx W + data approx idx = data a idx) →
  ∃ s, sum_arrays (W ++ [approx]) = Some s ∧ shape s = shape a
       ∧ ∀ idx, data s idx = data a idx.
Proof.
  intros Hs Hall Hsum.
  assert (Forall (λ w, shape w = shape a) (W ++ [approx])) as HallW.
  { apply Forall_app. split; [done | by repeat constructor]. }
  assert (∀ idx, total_at idx (W ++ [approx]) = data a idx) as Htot.
  { intros idx. by rewrite total_at_snoc, Hsum. }
  destruct (W ++ [approx]) as [|w ws] eqn:HW; [by destruct W|].
  exists (foldl add w ws). split; [done|]. split.
  { rewrite foldl_add_shape. by inversion HallW. }
  intros idx. rewrite foldl_add_at. exact (Htot idx).
Qed.

(** X5: for a level of at least one and a non-negative [scale] the
    multiscale median transform succeeds and returns [level + 1] arrays
    of the shape of the input; in exact arithmetic their element-wise
    sum is the input. *)
Theorem multiscale_median_transform_sums_to_input (a : ndarray) (level scale : Z) :
  (1 ≤ level)%Z → (0 ≤ scale)%Z →
  ∃ W s,
    multiscale_median_transform a (Some level) scale false = Ok W
    ∧ length W = (Z.to_nat level + 1)%nat
    ∧ Forall (λ w, shape w = shape a) W
    ∧ sum_arrays W = Some s
    ∧ shape s = shape a
    ∧ ∀ idx, data s idx = data a idx.
Proof.
  intros Hl Hsc. unfold multiscale_median_transform. simpl.
  destruct (Z.leb_spec level 0) as [?|_]; [lia|].
  destruct (median_loop_telescopes (Z.to_nat level) 0 scale a [] Hsc)
    as (W & approx & -> & Hlen & Hs & Hall & Hsum).
  simpl in *.
  destruct (bands_sum a W approx Hs (Hall (Forall_nil_2 _))) as (s & Hsa & Hss & Hd).
  { intros idx. rewrite Hsum. ring. }
  exists (W ++ [approx]), s. split; [done|]. split.
  { rewrite length_app, Hlen. simpl. lia. }
  split; [|done].
  apply Forall_app. split; [by apply Hall | by repeat constructor].
Qed.

Lemma multiscale_median_transform_sums_to_input_witness :
  ∃ W s,
    multiscale_median_transform (of_list (qz <$> [1; 2; 4; 8; 16]%Z)) (Some 2%Z) 2 false
      = Ok W
    ∧ length W = 3%nat
    ∧ Forall (λ w, shape w = [5%nat]) W
    ∧ sum_arrays W = Some s
    ∧ shape s = [5%nat]
    ∧ ∀ idx, data s idx = data (of_list (qz <$> [1; 2; 4; 8; 16]%Z)) idx.
Proof.
  refine (multiscale_median_transform_sums_to_input
            (of_list (qz <$> [1; 2; 4; 8; 16]%Z)) 2 2 _ _); lia.
Defined.

(** X6: for a level of at least one, a non-negative [scale] and a
    non-empty kernel the median-wavelet transform succeeds and returns
    [level + 1] arrays of the shape of the input; in exact arithmetic
    their element-wise sum is the input, whatever the kernel and the
    threshold [tau] are. *)
Theorem median_wavelet_transform_sums_to_input (a : ndarray) (level scale : Z)
    (tau : Qc) (phi : list Qc) :
  (1 ≤ level)%Z → (0 ≤ scale)%Z → phi ≠ [] →
  ∃ W s,
    median_wavelet_transform a (Some level) scale tau false phi = Ok W
    ∧ length W = (Z.to_nat level + 1)%nat
    ∧ Forall (λ w, shape w = shape a) W
    ∧ sum_arrays W = Some s
    ∧ shape s = shape a
    ∧ ∀ idx, data s idx = data a idx.
Proof.
  intros Hl Hsc Hphi. unfold median_wavelet_transform. simpl.
  destruct (Z.leb_spec level 0) as [?|_]; [lia|].
  destruct (median_wavelet_loop_telescopes tau phi (Z.to_nat level) Hphi 0 scale a [] Hsc)
    as (W & approx & -> & Hlen & Hs & Hall & Hsum).
  simpl in *.
  destruct (bands_sum a W approx Hs (Hall (Forall_nil_2 _))) as (s & Hsa & Hss & Hd).
  { intros idx. rewrite Hsum. ring. }
  exists (W ++ [approx]), s. split; [done|]. split.
  { rewrite length_app, Hlen. simpl. lia. }
  split; [|done].
  apply Forall_app. split; [by apply Hall | by repeat constructor].
Qed.

Lemma median_wavelet_transform_sums_to_input_witness :
  ∃ W s,
    median_wavelet_transform (of_list (qz <$> [1; 2; 4; 8; 16]%Z)) (Some 2%Z) 2
      (qz 5) false _phi = Ok W
    ∧ length W = 3%nat
    ∧ Forall (λ w, shape w = [5%nat]) W
    ∧ sum_arrays W = Some s
    ∧ shape s = [5%nat]
    ∧ ∀ idx, data s idx = data (of_list (qz <$> [1; 2; 4; 8; 16]%Z)) idx.
Proof.
  refine (median_wavelet_transform_sums_to_input
            (of_list (qz <$> [1; 2; 4; 8; 16]%Z)) 2 2 (qz 5) _phi _ _ _);
    [lia|lia|done].
Defined.


(** *** Smoothing a constant array *)

Lemma reflect_lt (i : Z) (n : nat) : (0 < n)%nat → (reflect i n < n)%nat.
Proof.
  intros Hn. unfold reflect. destruct (Nat.eqb_spec n 0) as [?|_]; [lia|].
  pose proof (Z.mod_pos_bound i (2 * Z.of_nat n)) as Hm.
  destruct (Z.ltb_spec (i mod (2 * Z.of_nat n)) (Z.of_nat n)); lia.
Qed.

Lemma in_bounds_nth (shp idx : list nat) (ax n : nat) :
  in_bounds shp idx → shp !! ax = Some n → (nth ax idx 0 < n)%nat.
Proof.
  intros Hb Hn. destruct (Forall2_lookup_r _ _ _ _ _ Hb Hn) as (v & Hv & Hlt).
  by rewrite (nth_lookup_Some _ _ 0%nat _ Hv).
Qed.

Lemma in_bounds_insert (shp idx : list nat) (ax n v : nat) :
  in_bounds shp idx → shp !! ax = Some n → (v < n)%nat →
  in_bounds shp (<[ax := v]> idx).
Proof.
  intros Hb Hn Hv. unfold in_bounds.
  rewrite <- (list_insert_id shp ax n Hn). by apply Forall2_insert.
Qed.

Lemma weight_sum_app (u v : list Qc) :
  weight_sum (u ++ v) = weight_sum u + weight_sum v.
Proof.
  unfold weight_sum. induction u as [|x u IH]; simpl; [ring|]. rewrite IH. ring.
Qed.

Lemma weight_sum_rev (w : list Qc) : weight_sum (rev w) = weight_sum w.
Proof.
  induction w as [|x w IH]; [done|]. simpl rev.
  rewrite weight_sum_app, IH. unfold weight_sum. simpl. ring.
Qed.

Lemma weighted_constant (c : Qc) (w : list Qc) :
  ∀ f : nat → Qc → Qc, (∀ j wj, w !! j = Some wj → f j wj = wj * c) →
  foldr Qcplus 0 (imap f w) = weight_sum w * c.
Proof.
  unfold weight_sum. induction w as [|x w IH]; intros f Hf; simpl; [ring|].
  rewrite (IH (f ∘ S)).
  - rewrite (Hf 0%nat x) by done. ring.
  - intros j wj Hj. by apply (Hf (S j)).
Qed.

Lemma convolve1d_constant (a b : ndarray) (w : list Qc) (ax : nat) (c : Qc) :
  weight_sum w = 1 → constant_on a c → convolve1d a w ax = Ok b →
  shape b = shape a ∧ constant_on b c.
Proof.
  intros Hw Ha. unfold convolve1d. destruct w as [|x w]; [done|].
  destruct (shape a !! ax) as [n|] eqn:Hn; [|done].
  intros [= <-]. split; [done|]. intros idx Hidx. cbn [data shape] in *.
  rewrite (weighted_constant c).
  - change (rev w ++ [x]) with (rev (x :: w)).
    rewrite weight_sum_rev, Hw. ring.
  - intros j wj _. f_equal. apply Ha. eapply in_bounds_insert; [done..|].
    apply reflect_lt. pose proof (in_bounds_nth _ _ _ _ Hidx Hn). lia.
Qed.

Lemma convolve_constant (a b : ndarray) (phi : list Qc) (c : Qc) :
  weight_sum phi = 1 → constant_on a c → convolve a phi = Ok b →
  shape b = shape a ∧ constant_on b c.
Proof.
  intros Hw. unfold convolve. generalize (seq 0 (ndim a)). intros axes.
  revert a. induction axes as [|ax axes IH]; intros a Ha; simpl.
  - by intros [= <-].
  - intros H. apply bind_Ok in H as (a' & Ha' & H).
    destruct (convolve1d_constant _ _ _ _ _ Hw Ha Ha') as [Hs Hc].
    destruct (IH a' Hc H) as [Hs' Hc']. split; [congruence|done].
Qed.

Lemma weight_sum_interleaved (a : list Qc) :
  weight_sum ((λ k, if Nat.even k then nth (k / 2) a 0 else 0)
                <$> seq 0 (2 * length a))
  = weight_sum a.
Proof.
  induction a as [|x a IH]; [done|].
  replace (2 * length (x :: a))%nat with (S (S (2 * length a))) by (simpl; lia).
  rewrite <- !cons_seq, !fmap_cons. cbn [Nat.even].
  rewrite <- (fmap_add_seq 2 0), <- list_fmap_compose.
  unfold weight_sum in *. cbn [foldr]. rewrite <- IH.
  change (nth (0 `div` 2) (x :: a) 0) with x.
  assert (∀ u v : list Qc, u = v → x + (0 + foldr Qcplus 0 u) = x + foldr Qcplus 0 v)
    as Hcong by (intros u v ->; ring).
  apply Hcong. apply list_fmap_ext. intros _ k _. unfold compose.
  change (Nat.even (2 + k)) with (Nat.even k).
  assert ((2 + k) / 2 = S (k / 2))%nat as ->.
  { change (2 + k)%nat with (1 * 2 + k)%nat.
    rewrite Nat.add_comm, Nat.div_add by lia. lia. }
  by destruct (Nat.even k).
Qed.

Lemma up_sampling_weight_sum (a a1 : list Qc) :
  up_sampling a = Ok a1 → weight_sum a1 = weight_sum a.
Proof.
  destruct a as [|x a]; [done|]. intros H.
  assert (a1 = (λ k, if Nat.even k then nth (k / 2) (x :: a) 0 else 0)
                 <$> seq 0 (2 * length (x :: a) - 1)) as ->
    by (symmetry; by injection H).
  clear H. rewrite <- (weight_sum_interleaved (x :: a)).
  remember (2 * length (x :: a) - 1)%nat as m eqn:Hm.
  assert (2 * length (x :: a) = S m)%nat as -> by (simpl in *; lia).
  rewrite seq_S, fmap_app, weight_sum_app, Nat.add_0_l.
  assert (Nat.even m = false) as Hk.
  { rewrite <- Nat.negb_odd. apply negb_false_iff, Nat.odd_spec.
    exists (length a). simpl in Hm. lia. }
  cbn [fmap list_fmap]. rewrite Hk. unfold weight_sum. cbn [foldr]. ring.
Qed.

Lemma starlet_loop_constant (c : Qc) (gen2 approx_only : bool) (n : nat) :
  ∀ li phi a W W' r,
    weight_sum phi = 1 → constant_on a c →
    starlet_loop gen2 approx_only n li phi a W = Ok (W', r) →
    constant_on r c.
Proof.
  induction n as [|n IH]; intros li phi a W W' r Hw Ha; simpl.
  - by intros [= _ <-].
  - intros H. apply bind_Ok in H as (phi' & Hphi' & H).
    assert (weight_sum phi' = 1) as Hw'.
    { destruct (0 <? li)%nat; [|by injection Hphi' as <-].
      by rewrite (up_sampling_weight_sum _ _ Hphi'). }
    apply bind_Ok in H as (approx & Happrox & H).
    apply bind_Ok in H as (W1 & _ & H).
    destruct (convolve_constant _ _ _ _ Hw' Ha Happrox) as [_ Hc].
    by eapply IH.
Qed.

Lemma weight_sum_nonempty (phi : list Qc) : weight_sum phi = 1 → phi ≠ [].
Proof. intros H ->. discriminate. Qed.

Lemma starlet_smooth_constant (a : ndarray) (level : Z) (phi : list Qc) (c : Qc) :
  weight_sum phi = 1 → constant_on a c →
  ∃ s, starlet_smooth a (Some level) phi = Ok s ∧ shape s = shape a
       ∧ constant_on s c.
Proof.
  intros Hw Ha.
  destruct (starlet_smooth_shape a level phi (weight_sum_nonempty _ Hw))
    as (s & Hs & Hshape).
  exists s. split; [done|]. split; [done|].
  unfold starlet_smooth, head0, starlet_transform in Hs. simpl in Hs.
  destruct (level <=? 0)%Z; [by injection Hs as <-|].
  apply bind_Ok in Hs as (l & Hl & Hs).
  apply bind_Ok in Hl as ([W r] & Hloop & [= <-]).
  pose proof (starlet_loop_constant c _ _ _ _ _ _ _ _ _ Hw Ha Hloop) as Hr.
  destruct (starlet_loop_ok false true (Z.to_nat level) 0 phi a []
              (weight_sum_nonempty _ Hw)) as (W2 & r2 & Hloop2 & Hlen & _).
  rewrite Hloop in Hloop2. injection Hloop2 as <- <-.
  destruct W as [|? ?]; [|done]. simpl in Hs. by injection Hs as <-.
Qed.

(** X7: on an array of floating dtype and in exact arithmetic: when
    the entries of [phi] sum to one, [starlet_smooth] of an array that
    is constant is that same constant array and [starlet_detrend] of
    it is zero everywhere, at every level. *)
Theorem starlet_smooth_detrend_constant (a : ndarray) (level : Z)
    (phi : list Qc) (c : Qc) :
  weight_sum phi = 1 → constant_on a c →
  ∃ s d,
    starlet_smooth a (Some level) phi = Ok s
    ∧ shape s = shape a ∧ constant_on s c
    ∧ starlet_detrend a (Some level) phi = Ok d
    ∧ shape d = shape a ∧ constant_on d 0.
Proof.
  intros Hw Ha.
  destruct (starlet_smooth_constant a level phi c Hw Ha) as (s & Hs & Hshape & Hc).
  exists s, (sub a s). unfold starlet_detrend. rewrite Hs. simpl.
  repeat split; try done.
  intros idx Hidx. simpl in *. rewrite Ha by done.
  rewrite Hc by (by rewrite Hshape). ring.
Qed.

Lemma starlet_smooth_detrend_constant_witness :
  ∃ s d,
    starlet_smooth (of_list (replicate 4 (Q2Qc (7 # 2)))) (Some 3%Z) _phi = Ok s
    ∧ shape s = [4%nat] ∧ constant_on s (Q2Qc (7 # 2))
    ∧ starlet_detrend (of_list (replicate 4 (Q2Qc (7 # 2)))) (Some 3%Z) _phi = Ok d
    ∧ shape d = [4%nat] ∧ constant_on d 0.
Proof.
  refine (starlet_smooth_detrend_constant
            (of_list (replicate 4 (Q2Qc (7 # 2)))) 3 _phi (Q2Qc (7 # 2)) _ _).
  - apply Qc_is_canon. reflexivity.
  - intros idx Hidx. inversion Hidx as [|i n idx' shp' Hi Hrest]; subst.
    inversion Hrest; subst. simpl.
    destruct i as [|[|[|[|i]]]]; try reflexivity. lia.
Defined.


Lemma window_offsets_nonempty (nd size : nat) :
  (0 < size)%nat → window_offsets nd size ≠ [].
Proof.
  intros Hs. induction nd as [|nd IH]; [done|]. cbn [window_offsets].
  destruct (window_offsets nd size) as [|r rs] eqn:Hw; [done|].
  destruct size as [|size]; [lia|]. rewrite <- cons_seq, bind_cons. done.
Qed.

Lemma shift_index_in_bounds (shp idx : list nat) (off : list Z) :
  in_bounds shp idx → in_bounds shp (shift_index shp idx off).
Proof.
  intros Hb. unfold in_bounds, shift_index.
  apply Forall2_same_length_lookup_2; [by rewrite length_imap|].
  intros i v n Hv Hn. rewrite list_lookup_imap, Hn in Hv. injection Hv as <-.
  apply reflect_lt. pose proof (in_bounds_nth _ _ _ _ Hb Hn). lia.
Qed.

Lemma nth_constant (c : Qc) (l : list Qc) (i : nat) :
  Forall (λ x, x = c) l → (i < length l)%nat → nth i l 0 = c.
Proof.
  intros Hall Hi. destruct (lookup_lt_is_Some_2 l i Hi) as [x Hx].
  rewrite (nth_lookup_Some _ _ 0 _ Hx). by eapply Forall_lookup_1 in Hall.
Qed.

Lemma median_filter_constant (a b : ndarray) (size : Z) (c : Qc) :
  constant_on a c → median_filter a size = Ok b →
  shape b = shape a ∧ constant_on b c.
Proof.
  intros Ha. unfold median_filter.
  destruct (Z.ltb_spec size 0) as [|Hs0]; [done|].
  destruct (Z.eqb_spec size 0) as [|Hs1]; [done|].
  assert (0 < size)%Z as Hs by lia. intros [= <-].
  split; [done|]. intros idx Hidx. cbn [data shape] in *.
  set (offs := window_offsets (ndim a) (Z.to_nat size)).
  set (vals := (λ off, data a (shift_index (shape a) idx off)) <$> offs).
  assert (Forall (λ x, x = c) vals) as Hvals.
  { apply Forall_fmap, Forall_forall. intros off _. simpl.
    by apply Ha, shift_index_in_bounds. }
  assert (0 < length vals)%nat as Hlen.
  { unfold vals. rewrite length_fmap.
    pose proof (window_offsets_nonempty (ndim a) (Z.to_nat size)) as Hne.
    fold offs in Hne. destruct offs; [destruct Hne; [lia|done]|simpl; lia]. }
  apply nth_constant.
  - by rewrite merge_sort_Permutation.
  - rewrite merge_sort_Permutation.
    exact (Nat.div_lt (length vals) 2 Hlen ltac:(lia)).
Qed.

(** X8: on an array of floating dtype and in exact arithmetic: when
    the entries of [phi] sum to one and [scale] is not negative, the
    median and median-wavelet smoothers return a constant array as it
    is and the two detrenders return zero everywhere, at every
    level. *)
Theorem median_smooth_detrend_constant (a : ndarray) (level scale : Z)
    (tau : Qc) (phi : list Qc) (c : Qc) :
  (0 ≤ scale)%Z → weight_sum phi = 1 → constant_on a c →
  ∃ s1 d1 s2 d2,
    multiscale_median_smooth a (Some level) scale = Ok s1
    ∧ constant_on s1 c
    ∧ multiscale_median_detrend a (Some level) scale = Ok d1
    ∧ constant_on d1 0
    ∧ median_wavelet_smooth a (Some level) scale tau phi = Ok s2
    ∧ constant_on s2 c
    ∧ median_wavelet_detrend a (Some level) scale tau phi = Ok d2
    ∧ constant_on d2 0.
Proof.
  intros Hsc Hw Ha.
  assert (∀ s, shape s = shape a → constant_on s c → constant_on (sub a s) 0)
    as Hsub.
  { intros s Hs Hc idx Hidx. simpl in *. rewrite Ha, Hc by congruence. ring. }
  assert (∃ s1, multiscale_median_smooth a (Some level) scale = Ok s1
                ∧ shape s1 = shape a ∧ constant_on s1 c) as (s1 & Hs1 & Hsh1 & Hc1).
  { unfold multiscale_median_smooth, head0, multiscale_median_transform. simpl.
    destruct (level <=? 0)%Z; [by exists a|].
    destruct (Z.to_nat level) as [|n] eqn:Hn; [by exists a|].
    destruct (median_loop_telescopes (S n) 0 scale a [] Hsc)
      as (W0 & r0 & Hl0 & _).
    assert (∃ r, median_loop true (S n) 0 scale a [] = Ok ([], r)
                 ∧ shape r = shape a ∧ constant_on r c) as (r & -> & Hr & Hcr).
    { clear Hl0. generalize (S n) 0%nat scale Hsc a Ha.
      clear. intros n; induction n as [|n IH]; intros li scale Hsc a Ha.
      - by exists a.
      - cbn [median_loop].
        set (scale' := if (0 <? li)%nat then (scale * 2)%Z else scale).
        assert (0 ≤ scale')%Z as Hsc'
          by (unfold scale'; destruct (0 <? li)%nat; lia).
        destruct (median_filter_shape a (2 * scale' + 1)) as (m & Hm & Hs); [lia|].
        rewrite Hm. cbn [mbind result_bind].
        destruct (median_filter_constant _ _ _ _ Ha Hm) as [_ Hc].
        destruct (IH (S li) scale' Hsc' m Hc) as (r & -> & Hr & Hcr).
        exists r. split; [done|]. split; [congruence|done]. }
    simpl. by exists r. }
  assert (∃ s2, median_wavelet_smooth a (Some level) scale tau phi = Ok s2
                ∧ shape s2 = shape a ∧ constant_on s2 c) as (s2 & Hs2 & Hsh2 & Hc2).
  { unfold median_wavelet_smooth, head0, median_wavelet_transform. simpl.
    destruct (level <=? 0)%Z; [by exists a|].
    destruct (Z.to_nat level) as [|n] eqn:Hn; [by exists a|].
    assert (∃ r, median_wavelet_loop true (S n) 0 scale tau phi a [] = Ok ([], r)
                 ∧ shape r = shape a ∧ constant_on r c) as (r & -> & Hr & Hcr).
    { generalize (S n) 0%nat scale Hsc a Ha.
      clear -Hw. intros n; induction n as [|n IH]; intros li scale Hsc a Ha.
      - by exists a.
      - cbn [median_wavelet_loop].
        set (scale' := if (0 <? li)%nat then (scale * 2)%Z else scale).
        assert (0 ≤ scale')%Z as Hsc'
          by (unfold scale'; destruct (0 <? li)%nat; lia).
        destruct (median_filter_shape a (2 * scale' + 1)) as (m & Hm & Hs); [lia|].
        rewrite Hm. cbn [mbind result_bind].
        destruct (median_filter_constant _ _ _ _ Ha Hm) as [_ Hc].
        set (b := add m (clip_above (sub a m) (tau * MAD (sub a m)))).
        assert (constant_on b c) as Hb.
        { intros idx Hidx. unfold b in *. cbn [shape data add clip_above sub] in *.
          rewrite (Hc idx Hidx), (Ha idx) by (by rewrite <- Hs).
          destruct (Qclt_le_dec _ _); ring. }
        destruct (starlet_smooth_constant b (Z.of_nat li + 1) phi c Hw Hb)
          as (s & -> & Hss & Hsc2).
        cbn [mbind result_bind].
        destruct (IH (S li) scale' Hsc' s Hsc2) as (r & -> & Hr & Hcr).
        exists r. split; [done|]. split; [|done].
        rewrite Hr, Hss. unfold b. simpl. done. }
    simpl. by exists r. }
  exists s1, (sub a s1), s2, (sub a s2).
  unfold multiscale_median_detrend, median_wavelet_detrend.
  rewrite Hs1, Hs2. simpl. repeat split; auto.
Qed.

Lemma median_smooth_detrend_constant_witness :
  ∃ s1 d1 s2 d2,
    multiscale_median_smooth (of_list (replicate 4 (Q2Qc (7 # 2)))) (Some 2%Z) 2 = Ok s1
    ∧ constant_on s1 (Q2Qc (7 # 2))
    ∧ multiscale_median_detrend (of_list (replicate 4 (Q2Qc (7 # 2)))) (Some 2%Z) 2 = Ok d1
    ∧ constant_on d1 0
    ∧ median_wavelet_smooth (of_list (replicate 4 (Q2Qc (7 # 2)))) (Some 2%Z) 2 (qz 5) _phi
      = Ok s2
    ∧ constant_on s2 (Q2Qc (7 # 2))
    ∧ median_wavelet_detrend (of_list (replicate 4 (Q2Qc (7 # 2)))) (Some 2%Z) 2 (qz 5) _phi
      = Ok d2
    ∧ constant_on d2 0.
Proof.
  refine (median_smooth_detrend_constant
            (of_list (replicate 4 (Q2Qc (7 # 2)))) 2 2 (qz 5) _phi (Q2Qc (7 # 2)) _ _ _).
  - lia.
  - apply Qc_is_canon. reflexivity.
  - intros idx Hidx. inversion Hidx as [|i n idx' shp' Hi Hrest]; subst.
    inversion Hrest; subst. simpl.
    destruct i as [|[|[|[|i]]]]; try reflexivity. lia.
Defined.

End MultiscaleMore.

(** ** multiscale.py on arrays of integer dtype *)

Section IntegerKernel.
Import Multiscale.
Local Open Scope Qc_scope.

Lemma trunc_small (q : Qc) : -1 < q → q < 1 → trunc q = 0.
Proof.
  unfold trunc, Qclt, Qlt. destruct q as [[n d] Hq]. simpl. intros Hl Hu.
  assert (Z.quot n (Z.pos d) = 0)%Z as ->; [|by apply Qc_is_canon].
  apply Z.quot_small_iff; lia.
Qed.

Lemma weighted_zero (f : nat → Qc → Qc) (w : list Qc) :
  (∀ j wj, w !! j = Some wj → f j wj = 0) →
  foldr Qcplus 0 (imap f w) = 0.
Proof.
  revert f. induction w as [|x w IH]; intros f Hf; simpl; [done|].
  rewrite (Hf 0%nat x eq_refl), IH; [ring|].
  intros j wj Hj. apply (Hf (S j) wj Hj).
Qed.

Lemma convolve1d_zero_kernel (a b : ndarray) (w : list Qc) (ax : nat) :
  Forall (λ q, q = 0) w → convolve1d a w ax = Ok b →
  shape b = shape a ∧ ∀ idx, data b idx = 0.
Proof.
  intros Hw. unfold convolve1d. destruct w as [|x w]; [done|].
  destruct (shape a !! ax) as [n|]; [|done].
  intros [= <-]. split; [done|]. intros idx. cbn [data].
  apply weighted_zero. intros j wj Hj.
  assert (wj = 0) as ->; [|ring].
  apply list_elem_of_lookup_2, list_elem_of_In in Hj.
  change (rev w ++ [x]) with (rev (x :: w)) in Hj. apply in_rev in Hj.
  rewrite Forall_forall in Hw. apply Hw. by apply list_elem_of_In.
Qed.

Lemma convolve_axes_zero_kernel (phi : list Qc) (axes : list nat) :
  Forall (λ q, q = 0) phi → axes ≠ [] →
  ∀ a b, convolve_axes axes a phi = Ok b → ∀ idx, data b idx = 0.
Proof.
  intros Hphi. induction axes as [|ax axes IH]; [done|]. intros _ a b H.
  simpl in H. apply bind_Ok in H as (a' & Ha' & H).
  destruct (convolve1d_zero_kernel _ _ _ _ Hphi Ha') as [_ Hz].
  destruct axes as [|ax' axes]; [by injection H as <-|].
  by apply (IH ltac:(done) a' b).
Qed.

Lemma convolve_zero_kernel (a b : ndarray) (phi : list Qc) :
  Forall (λ q, q = 0) phi → shape a ≠ [] → convolve a phi = Ok b →
  ∀ idx, data b idx = 0.
Proof.
  intros Hphi Ha. apply convolve_axes_zero_kernel; [done|].
  unfold ndim. by destruct (shape a).
Qed.

Lemma up_sampling_zero (phi phi' : list Qc) :
  Forall (λ q, q = 0) phi → up_sampling phi = Ok phi' →
  Forall (λ q, q = 0) phi'.
Proof.
  intros Hphi. unfold up_sampling. destruct phi as [|x phi]; [done|].
  assert (∀ i, nth i (x :: phi) 0 = 0) as Hn.
  { intros i. destruct (nth_in_or_default i (x :: phi) 0) as [Hin| ->]; [|done].
    rewrite Forall_forall in Hphi. apply Hphi. by apply list_elem_of_In. }
  intros [= <-]. apply Forall_fmap, Forall_forall. intros k _. unfold compose.
  destruct (Nat.even k); [exact (Hn (k / 2)%nat)|done].
Qed.

Lemma starlet_loop_zero_kernel (n : nat) :
  ∀ li phi a W W' r,
    Forall (λ q, q = 0) phi → shape a ≠ [] →
    (0 < n)%nat ∨ (∀ idx, data a idx = 0) →
    starlet_loop false true n li phi a W = Ok (W', r) →
    ∀ idx, data r idx = 0.
Proof.
  induction n as [|n IH]; intros li phi a W W' r Hphi Ha Hz; simpl.
  - intros [= _ <-]. destruct Hz as [?|?]; [lia|done].
  - intros H. apply bind_Ok in H as (phi' & Hphi' & H).
    assert (Forall (λ q, q = 0) phi') as Hz'.
    { destruct (0 <? li)%nat; [|by injection Hphi' as <-].
      by eapply up_sampling_zero. }
    apply bind_Ok in H as (approx & Happrox & H). simpl in H.
    pose proof (convolve_zero_kernel _ _ _ Hz' Ha Happrox) as Hzero.
    assert (shape approx = shape a) as Hs.
    { assert (phi' ≠ []) as Hne.
      { intros ->. unfold convolve in Happrox.
        destruct (shape a) as [|m shp] eqn:Hsh; [done|].
        unfold ndim in Happrox. rewrite Hsh in Happrox. simpl in Happrox.
        discriminate. }
      destruct (convolve_shape a phi' Hne) as (b & Hb & Hsb). congruence. }
    eapply IH; [exact Hz'| |right; exact Hzero|exact H]. by rewrite Hs.
Qed.

(** X24: on an array of integer dtype the transforms cast the kernel
    to integers, which drops every weight smaller than one in absolute
    value: the default spline becomes all zeros.  With the cast kernel
    [starlet_smooth] of an array of one or more dimensions is zero
    everywhere and [starlet_detrend] is the input itself, at every
    level of at least one. *)
Theorem starlet_smooth_integer_kernel (a : ndarray) (level : Z) (phi : list Qc) :
  (1 ≤ level)%Z → shape a ≠ [] → phi ≠ [] →
  Forall (λ q, -1 < q ∧ q < 1) phi →
  Forall (λ q, q = 0) (astype_int phi)
  ∧ ∃ s d,
      starlet_smooth a (Some level) (astype_int phi) = Ok s
      ∧ shape s = shape a
      ∧ (∀ idx, data s idx = 0)
      ∧ starlet_detrend a (Some level) (astype_int phi) = Ok d
      ∧ shape d = shape a
      ∧ ∀ idx, data d idx = data a idx.
Proof.
  intros Hl Ha Hphi Hsmall.
  assert (Forall (λ q, q = 0) (astype_int phi)) as Hz.
  { apply Forall_fmap. eapply Forall_impl; [exact Hsmall|].
    intros q [? ?]. by apply trunc_small. }
  split; [done|].
  assert (astype_int phi ≠ []) as Hne by (by destruct phi).
  destruct (starlet_smooth_shape a level (astype_int phi) Hne) as (s & Hs & Hshape).
  exists s, (sub a s). unfold starlet_detrend. rewrite Hs. simpl.
  assert (∀ idx, data s idx = 0) as Hzero.
  { unfold starlet_smooth, head0, starlet_transform in Hs. simpl in Hs.
    destruct (Z.leb_spec level 0) as [?|_]; [lia|].
    apply bind_Ok in Hs as (l & Hl' & Hg).
    apply bind_Ok in Hl' as ([W r] & Hloop & [= <-]).
    destruct (starlet_loop_ok false true (Z.to_nat level) 0 (astype_int phi) a [] Hne)
      as (W1 & r1 & Hloop1 & Hlen & _).
    rewrite Hloop in Hloop1. injection Hloop1 as <- <-.
    destruct W as [|w W]; [|simpl in Hlen; lia].
    simpl in Hg. injection Hg as <-.
    eapply starlet_loop_zero_kernel; [exact Hz|exact Ha| |exact Hloop].
    left. lia. }
  repeat split; try done.
  intros idx. simpl. rewrite Hzero. ring.
Qed.

Lemma starlet_smooth_integer_kernel_witness :
  astype_int _phi = [0; 0; 0; 0; 0]
  ∧ ∃ s d,
      starlet_smooth (of_list (qz <$> [1; 2; 4; 8; 16]%Z)) (Some 2%Z) (astype_int _phi)
      = Ok s
      ∧ (∀ idx, data s idx = 0)
      ∧ starlet_detrend (of_list (qz <$> [1; 2; 4; 8; 16]%Z)) (Some 2%Z)
          (astype_int _phi) = Ok d
      ∧ ∀ idx, data d idx = data (of_list (qz <$> [1; 2; 4; 8; 16]%Z)) idx.
Proof.
  split.
  { unfold astype_int, _phi. simpl. repeat f_equal; by apply Qc_is_canon. }
  destruct (starlet_smooth_integer_kernel
              (of_list (qz <$> [1; 2; 4; 8; 16]%Z)) 2 _phi)
    as (_ & s & d & Hs & _ & Hz & Hd & _ & Hda).
  - lia.
  - done.
  - done.
  - unfold _phi. repeat constructor.
  - by exists s, d.
Defined.

End IntegerKernel.

(** ** raw_timestream.py, continued *)

Section RawTsMore.
Import RawTs.

(** *** feed_select: errors and what a selection holds *)

Lemma feed_select_unfold (self : RawTimestream) (value : selection) (corr : string) :
  feed_select self value corr
  = if decide (value = SelTuple [Some 0%Z; None] ∧ corr = "all"%string) then Ok self
    else
      f0 ← getitem (infiles self) 0;
      feeds ← selected_feeds (f_feedno f0) value;
      indices ← select_indices f0 feeds corr;
      chans ← mapM (feed_channels (f_feedno f0) (f_channo f0)) feeds;
      Ok (data_select_baseline self indices feeds chans).
Proof.
  unfold feed_select, select_indices, selected_feeds.
  destruct (decide _); [done|].
  destruct (getitem (infiles self) 0) as [f0|]; [|done]. simpl.
  destruct value as [t|l|]; [| |done].
  - destruct (slice_args t) as [[[start stop] step]|]; [|done]. simpl.
    destruct (list_slice _ _ _ _); [|done]. simpl.
    by destruct (channel_pairs _ _ _ _).
  - simpl. by destruct (channel_pairs _ _ _ _).
Qed.

(** X9: outside the default call, [feed_select] raises [IndexError]
    without an input file, [ValueError] for a [value] that is neither
    tuple nor list, [TypeError] for a tuple of no or more than three
    entries, [ValueError] for a tuple with step zero, and [ValueError]
    for a [corr] other than 'auto', 'cross' and 'all'. *)
Theorem feed_select_errors (self : RawTimestream) (value : selection)
    (corr : string) :
  ¬ (value = SelTuple [Some 0%Z; None] ∧ corr = "all"%string) →
  (infiles self = [] → feed_select self value corr = Raise IndexError)
  ∧ (infiles self ≠ [] → value = SelOther →
       feed_select self value corr = Raise ValueError)
  ∧ (∀ t, infiles self ≠ [] → value = SelTuple t →
       (length t = 0 ∨ 3 < length t)%nat →
       feed_select self value corr = Raise TypeError)
  ∧ (infiles self ≠ [] → (∃ start stop, value = SelTuple [start; stop; Some 0%Z]) →
       feed_select self value corr = Raise ValueError)
  ∧ (∀ f0 feeds,
       head (infiles self) = Some f0 →
       selected_feeds (f_feedno f0) value = Ok feeds →
       corr ≠ "auto"%string → corr ≠ "cross"%string → corr ≠ "all"%string →
       feed_select self value corr = Raise ValueError).
Proof.
  intros Hdef. rewrite feed_select_unfold, decide_False by done.
  split; [by intros ->|].
  assert (infiles self ≠ [] → ∃ f0, getitem (infiles self) 0 = Ok f0) as Hf.
  { destruct (infiles self) as [|f0 rest]; [done|]. by exists f0. }
  split.
  { intros Hne ->. by destruct (Hf Hne) as [f0 ->]. }
  split.
  { intros t Hne -> Hlen. destruct (Hf Hne) as [f0 ->]. simpl.
    destruct Hlen as [Hlen|Hlen];
      [by destruct t | by destruct t as [|?[|?[|?[|??]]]]; simpl in *; try lia]. }
  split.
  { intros Hne (start & stop & ->). destruct (Hf Hne) as [f0 ->]. simpl.
    unfold list_slice, slice_indices. done. }
  intros f0 feeds Hhead Hfeeds Ha Hc Hall.
  unfold getitem. rewrite <- head_lookup, Hhead. simpl. rewrite Hfeeds. simpl.
  unfold select_indices, channel_pairs. by rewrite !decide_False.
Qed.


Lemma feed_select_errors_witness :
  feed_select (container_of scenario_file 0 [] []) (SelList [1; 2]%Z) "both"
  = Raise ValueError
  ∧ feed_select (container_of scenario_file 0 [] []) SelOther "auto" = Raise ValueError
  ∧ feed_select (container_of scenario_file 0 [] []) (SelTuple []) "auto" = Raise TypeError.
Proof.
  split; [|split].
  - refine (proj2 (proj2 (proj2 (proj2
      (feed_select_errors (container_of scenario_file 0 [] []) (SelList [1; 2]%Z) "both" _))))
      scenario_file [1; 2]%Z _ _ _ _ _); try done.
    by intros [? _].
  - refine (proj1 (proj2
      (feed_select_errors (container_of scenario_file 0 [] []) SelOther "auto" _)) _ _);
      try done. by intros [? _].
  - refine (proj1 (proj2 (proj2
      (feed_select_errors (container_of scenario_file 0 [] []) (SelTuple []) "auto" _)))
      [] _ _ _); try done; [by intros [? _] | by left].
Defined.

(** *** The selected feeds *)

Lemma omap_lookup_seq {A : Type} (f : nat → option A) (l : list A) :
  ∀ pre, (∀ k, f k = (pre ++ l) !! k) →
  omap f (seq (length pre) (length l)) = l.
Proof.
  induction l as [|x l IH]; intros pre Hf; [done|].
  simpl length. rewrite <- cons_seq. cbn [omap list_omap].
  rewrite Hf, list_lookup_middle by done. f_equal.
  specialize (IH (pre ++ [x])). rewrite length_app, Nat.add_1_r in IH.
  apply IH. intros k. by rewrite Hf, <- app_assoc.
Qed.

(** [l[0:None]] is the whole list *)
Lemma list_slice_all {A : Type} (l : list A) :
  list_slice l (Some 0%Z) None None = Ok l.
Proof.
  unfold list_slice, slice_indices. simpl.
  rewrite Z.min_l by lia. simpl. f_equal.
  replace (Z.to_nat ((Z.of_nat (length l) - 0 + 1 - 1) / 1)) with (length l)
    by (rewrite Z.div_1_r; lia).
  apply (omap_lookup_seq _ l []). intros k. simpl. f_equal. lia.
Qed.

Lemma intersect1d_spec (a b : list Z) :
  Sorted Z.le (intersect1d a b) ∧ NoDup (intersect1d a b)
  ∧ ∀ x, x ∈ intersect1d a b ↔ x ∈ a ∧ x ∈ b.
Proof.
  unfold intersect1d, sorted. split; [apply (Sorted_merge_sort Z.le)|]. split.
  - rewrite merge_sort_Permutation. apply NoDup_elements.
  - intros x. rewrite merge_sort_Permutation, elem_of_elements,
      elem_of_intersection, !elem_of_list_to_set. done.
Qed.

(** X10: after a successful selection the recorded feeds are, for
    the tuple [(0, None)], all feed numbers of the first file and, for
    a list, the feed numbers of the file that are in the list, sorted
    and without duplicates. *)
Theorem feed_select_feeds (self self' : RawTimestream) (value : selection)
    (corr : string) (f0 : InFile) :
  head (infiles self) = Some f0 →
  corr ≠ "all"%string →
  feed_select self value corr = Ok self' →
  ∃ feeds,
    _feed_select self' = Some feeds
    ∧ (value = SelTuple [Some 0%Z; None] → feeds = f_feedno f0)
    ∧ (∀ F, value = SelList F →
         Sorted Z.le feeds ∧ NoDup feeds
         ∧ ∀ x, x ∈ feeds ↔ x ∈ f_feedno f0 ∧ x ∈ F).
Proof.
  intros Hhead Hcorr. rewrite feed_select_unfold, decide_False by (by intros [_ ?]).
  unfold getitem. rewrite <- head_lookup, Hhead. cbn [mbind result_bind].
  intros H. apply bind_Ok in H as (feeds & Hfeeds & H).
  apply bind_Ok in H as (inds & _ & H).
  apply bind_Ok in H as (chans & _ & [= <-]).
  exists feeds. split; [done|]. split.
  - intros ->. simpl in Hfeeds. rewrite list_slice_all in Hfeeds. congruence.
  - intros F ->. injection Hfeeds as <-. apply intersect1d_spec.
Qed.

Lemma feed_select_feeds_witness :
  ∃ self' feeds,
    feed_select scenario (SelList [9; 2; 1; 2]%Z) "cross" = Ok self'
    ∧ _feed_select self' = Some feeds
    ∧ Sorted Z.le feeds ∧ NoDup feeds
    ∧ ∀ x, x ∈ feeds ↔ x ∈ f_feedno scenario_file ∧ x ∈ [9; 2; 1; 2]%Z.
Proof.
  destruct (feed_select scenario (SelList [9; 2; 1; 2]%Z) "cross") as [self'|e] eqn:H;
    [|vm_compute in H; discriminate].
  destruct (feed_select_feeds scenario self' (SelList [9; 2; 1; 2]%Z) "cross"
              scenario_file eq_refl ltac:(done) H) as (feeds & Hf & _ & Hl).
  exists self', feeds. split; [done|]. split; [done|]. by apply Hl.
Defined.


(** *** What a feed selection holds *)

Lemma channel_pairs_members (fn : list Z) (cn : list (Z * Z)) (feeds : list Z)
    (corr : string) (P : list (gset Z)) (s : gset Z) (z : Z) :
  channel_pairs fn cn feeds corr = Ok P → s ∈ P → z ∈ s →
  ∃ fd c, fd ∈ feeds ∧ feed_channels fn cn fd = Ok c ∧ (z = c.1 ∨ z = c.2).
Proof.
  intros HP Hs Hz.
  destruct (decide (corr = "auto"%string)) as [->|Ha].
  { apply (channel_pairs_auto_elem _ _ _ _ _ HP) in Hs
      as (fd & c & Hfd & Hc & Hs).
    exists fd, c. split; [done|]. split; [done|].
    rewrite !elem_of_cons, elem_of_nil in Hs.
    destruct Hs as [->|[->|[->|[]]]];
      rewrite ?elem_of_union, !elem_of_singleton in Hz; tauto. }
  assert (∃ fd1 fd2 c12 c34, fd1 ∈ feeds ∧ fd2 ∈ feeds
            ∧ feed_channels fn cn fd1 = Ok c12 ∧ feed_channels fn cn fd2 = Ok c34
            ∧ s ∈ cross_sets c12 c34)
    as (fd1 & fd2 & c12 & c34 & H1 & H2 & Hc12 & Hc34 & Hsin).
  { destruct (decide (corr = "cross"%string)) as [->|Hc].
    - apply (channel_pairs_cross_elem _ _ _ _ _ HP) in Hs
        as (fd1 & fd2 & c12 & c34 & Hfd & ? & ? & ?).
      apply elem_of_combinations2 in Hfd as [? ?]. by exists fd1, fd2, c12, c34.
    - destruct (decide (corr = "all"%string)) as [->|Hall].
      + apply (channel_pairs_all_elem _ _ _ _ _ HP) in Hs
          as (fd1 & fd2 & c12 & c34 & Hfd & ? & ? & ?).
        assert (fd1 ∈ feeds ∧ fd2 ∈ feeds) as [? ?].
        { apply elem_of_combinations_with_replacement2 in Hfd as [Hfd|[-> Hfd]];
            [by apply elem_of_combinations2 | done]. }
        by exists fd1, fd2, c12, c34.
      + unfold channel_pairs in HP. by rewrite !decide_False in HP. }
  unfold cross_sets in Hsin. rewrite !elem_of_cons, elem_of_nil in Hsin.
  destruct Hsin as [->|[->|[->|[->|[]]]]];
    rewrite elem_of_union, !elem_of_singleton in Hz;
    destruct Hz as [->| ->];
    first [ by (exists fd1, c12; auto) | by (exists fd2, c34; auto) ].
Qed.

(** X11: a successful selection records one channel pair for every
    selected feed and a baseline selection that is sorted, has no
    duplicates and only holds baselines both of whose channels belong
    to selected feeds; the data, the baseline order, the files and the
    distribution axis are left as they were. *)
Theorem feed_select_selection (self self' : RawTimestream) (value : selection)
    (corr : string) :
  ¬ (value = SelTuple [Some 0%Z; None] ∧ corr = "all"%string) →
  feed_select self value corr = Ok self' →
  ∃ f0 feeds chans inds,
    head (infiles self) = Some f0
    ∧ _feed_select self' = Some feeds
    ∧ _channel_select self' = Some chans
    ∧ bl_select self' = Some inds
    ∧ Forall2 (λ fd c, feed_channels (f_feedno f0) (f_channo f0) fd = Ok c)
              feeds chans
    ∧ Sorted Nat.le inds ∧ NoDup inds
    ∧ (∀ i, i ∈ inds →
         ∃ bl, f_blorder f0 !! i = Some bl
               ∧ bl.1 ∈ channels_of chans ∧ bl.2 ∈ channels_of chans)
    ∧ vis self' = vis self ∧ vis_mask self' = vis_mask self
    ∧ blorder self' = blorder self ∧ infiles self' = infiles self
    ∧ main_data_dist_axis self' = main_data_dist_axis self.
Proof.
  intros Hdef. rewrite feed_select_unfold, decide_False by done.
  intros H. apply bind_Ok in H as (f0 & Hf0 & H).
  apply bind_Ok in H as (feeds & Hfeeds & H).
  apply bind_Ok in H as (inds & Hinds & H).
  apply bind_Ok in H as (chans & Hchans & [= <-]).
  exists f0, feeds, chans, inds.
  split. { apply getitem_Ok in Hf0. by rewrite head_lookup. }
  do 3 (split; [done|]).
  split; [by apply mapM_Ok|].
  unfold select_indices in Hinds. apply bind_Ok in Hinds as (P & HP & Hinds).
  destruct (pair_indices_set _ _ _ Hinds) as [Hnd Hin].
  split.
  { unfold pair_indices in Hinds. apply bind_Ok in Hinds as (idxs & _ & [= <-]).
    apply (Sorted_merge_sort Nat.le). }
  split; [done|]. split; [|done].
  intros i Hi. apply (elem_of_list_to_set (C := gset nat)) in Hi.
  apply Hin in Hi as (s & Hs & Hidx).
  apply index_Ok in Hidx as [Hl _]. unfold blorder_sets in Hl.
  rewrite list_lookup_fmap in Hl.
  destruct (f_blorder f0 !! i) as [bl|] eqn:Hbl; [|done].
  simpl in Hl. apply (inj Some) in Hl. exists bl. split; [done|].
  assert (∀ z, z ∈ s → z ∈ channels_of chans) as Hsub.
  { intros z Hz.
    destruct (channel_pairs_members _ _ _ _ _ _ _ HP Hs Hz)
      as (fd & c & Hfd & Hc & Hzc).
    unfold channels_of. apply list_elem_of_bind. exists c. split.
    - rewrite !elem_of_cons. tauto.
    - apply (mapM_Ok_elem_of _ _ _ _ Hchans). eauto. }
  split; apply Hsub; rewrite <- Hl, elem_of_union, !elem_of_singleton; auto.
Qed.

Lemma feed_select_selection_witness :
  ∃ self' inds,
    feed_select scenario (SelTuple [Some 1%Z; None]) "all" = Ok self'
    ∧ bl_select self' = Some inds
    ∧ Sorted Nat.le inds ∧ NoDup inds
    ∧ _channel_select self' = Some [(2, 3); (4, 5)]%Z.
Proof.
  destruct (feed_select scenario (SelTuple [Some 1%Z; None]) "all") as [self'|e] eqn:H;
    [|vm_compute in H; discriminate].
  destruct (feed_select_selection scenario self' (SelTuple [Some 1%Z; None]) "all")
    as (f0 & feeds & chans & inds & Hf0 & Hfd & Hch & Hbl & Hfc & Hs & Hnd & _);
    [by intros [[=] _] | done |].
  exists self', inds. split; [done|]. split; [done|]. split; [done|]. split; [done|].
  apply (f_equal (λ r, match r with Ok s => _channel_select s | Raise _ => None end)) in H.
  vm_compute in H. symmetry. exact H.
Defined.

Lemma list_slice_elem {A : Type} (l r : list A) (start stop step : option Z)
    (x : A) :
  list_slice l start stop step = Ok r → x ∈ r → x ∈ l.
Proof.
  unfold list_slice. intros H Hx.
  apply bind_Ok in H as ([[st sp] stp] & _ & [= <-]).
  apply list_elem_of_omap in Hx as (k & _ & Hk).
  by eapply list_elem_of_lookup_2.
Qed.

Lemma selected_feeds_elem (feedno feeds : list Z) (value : selection) (x : Z) :
  selected_feeds feedno value = Ok feeds → x ∈ feeds → x ∈ feedno.
Proof.
  destruct value as [t|F|]; simpl; [| |done].
  - intros H. apply bind_Ok in H as ([[st sp] stp] & _ & H).
    by eapply list_slice_elem.
  - intros [= <-] Hx. by apply intersect1d_spec in Hx as [? _].
Qed.

(** X12: when every feed of the first file has its row of channels, a
    'cross' selection that settles on fewer than two feeds succeeds:
    no channel pair is looked up, the baseline selection applied is
    empty, and the feeds and their channels are recorded. *)
Theorem feed_select_cross_needs_two_feeds (self : RawTimestream) (f0 : InFile)
    (value : selection) (feeds : list Z) :
  head (infiles self) = Some f0 →
  (length (f_feedno f0) ≤ length (f_channo f0))%nat →
  selected_feeds (f_feedno f0) value = Ok feeds →
  (length feeds < 2)%nat →
  ∃ chans,
    feed_select self value "cross" = Ok (data_select_baseline self [] feeds chans)
    ∧ select_indices f0 feeds "cross" = Ok []
    ∧ Forall2 (λ fd c, feed_channels (f_feedno f0) (f_channo f0) fd = Ok c)
              feeds chans.
Proof.
  intros Hhead Hlen Hfeeds Hfew.
  assert (select_indices f0 feeds "cross" = Ok []) as Hsel.
  { assert (combinations2 feeds = []) as Hcomb
      by (by destruct feeds as [|?[|??]]; simpl in *; try lia).
    unfold select_indices, channel_pairs.
    rewrite decide_False, decide_True, Hcomb by done.
    vm_compute. reflexivity. }
  destruct (mapM_is_Ok (feed_channels (f_feedno f0) (f_channo f0)) feeds)
    as [chans Hchans].
  { intros fd Hfd. apply (selected_feeds_elem _ _ _ _ Hfeeds) in Hfd.
    apply index_is_Ok in Hfd as [i Hi]. unfold feed_channels. rewrite Hi. simpl.
    apply index_Ok in Hi as [Hi%lookup_lt_Some _].
    destruct (lookup_lt_is_Some_2 (f_channo f0) i) as [c Hc]; [lia|].
    exists c. unfold getitem. by rewrite Hc. }
  exists chans.
  rewrite feed_select_unfold, decide_False by (by intros [_ ?]).
  unfold getitem. rewrite <- head_lookup, Hhead. cbn [mbind result_bind].
  rewrite Hfeeds. cbn [mbind result_bind]. rewrite Hsel. cbn [mbind result_bind].
  rewrite Hchans. split; [done|]. split; [done|]. by apply mapM_Ok.
Qed.

Lemma feed_select_cross_needs_two_feeds_witness :
  ∃ chans,
    feed_select scenario (SelList [2; 7]%Z) "cross"
    = Ok (data_select_baseline scenario [] [2]%Z chans)
    ∧ select_indices scenario_file [2]%Z "cross" = Ok []
    ∧ Forall2 (λ fd c, feed_channels (f_feedno scenario_file)
                         (f_channo scenario_file) fd = Ok c) [2]%Z chans.
Proof.
  refine (feed_select_cross_needs_two_feeds scenario scenario_file
            (SelList [2; 7]%Z) [2]%Z _ _ _ _).
  - reflexivity.
  - simpl. lia.
  - vm_compute. reflexivity.
  - simpl. lia.
Defined.


(** *** separate_pol_and_bl: what a successful call went through *)

Lemma redistribute_same_data (s s' : RawTimestream) (axis : nat) :
  redistribute s axis = Ok s' → same_data s s'.
Proof.
  unfold redistribute. case_decide; [|done]. intros [= <-]. by repeat split.
Qed.

Lemma same_data_trans (s1 s2 s3 : RawTimestream) :
  same_data s1 s2 → same_data s2 s3 → same_data s1 s3.
Proof.
  unfold same_data. intros (?&?&?&?&?&?&?&?&?&?&?&?) (?&?&?&?&?&?&?&?&?&?&?&?).
  repeat split; congruence.
Qed.

Lemma separate_pol_and_bl_inv (self self' : RawTimestream)
    (keep_dist_axis : bool) (ts : Timestream) :
  separate_pol_and_bl self keep_dist_axis = Ok (ts, self') →
  let n := length (feedno self) in
  ∃ xs ys lst gv gm,
    xchans self = Ok xs ∧ ychans self = Ok ys
    ∧ (∀ p, (p < 4)%nat →
         mapM (_get_ind (blorder self)) (slot_pairs xs ys n p) = Ok (lst p)
         ∧ gather (snd <$> lst p) (vis self) = Ok (gv p)
         ∧ gather (snd <$> lst p) (vis_mask self) = Ok (gm p))
    ∧ ts_vis ts = stack4 (where_conj (fst <$> lst 0%nat) (gv 0%nat))
                         (where_conj (fst <$> lst 1%nat) (gv 1%nat))
                         (where_conj (fst <$> lst 2%nat) (gv 2%nat))
                         (where_conj (fst <$> lst 3%nat) (gv 3%nat))
    ∧ ts_vis_mask ts = stack4 (gm 0%nat) (gm 1%nat) (gm 2%nat) (gm 3%nat)
    ∧ ts_blorder ts = upper_pairs (sorted (feedno self)) (sorted (feedno self)) n
    ∧ ts_feedno ts = feedno self ∧ ts_freq ts = freq self
    ∧ ts_attrs ts = filter (λ kv, kv.1 ∉ time_ordered_attrs) (attrs self)
    ∧ Forall (λ k, k ∈ ["vis"; "vis_mask"; "blorder"]%string) (bl_ordered_datasets self)
    ∧ same_data self self'.
Proof.
  intros H n. unfold separate_pol_and_bl in H.
  apply bind_Ok in H as (axis_name & _ & H).
  apply bind_Ok in H as ([keep s1] & Hs1 & H). cbn [fst snd] in H.
  assert (same_data self s1) as Hsame.
  { destruct (decide ("baseline"%string = axis_name)).
    - apply bind_Ok in Hs1 as (s & Hs & [= _ <-]).
      by eapply redistribute_same_data.
    - injection Hs1 as _ <-. by repeat split. }
  clear Hs1.
  pose proof Hsame as (Ei & Eb & Ef & Ec & Efr & Hfeed & Hchan & Hbl & Hvis & Hmask & Eat & Ebo).
  apply bind_Ok in H as (xs & Hxs & H).
  apply bind_Ok in H as (ys & Hys & H).
  apply bind_Ok in H as (xx & Hxx & H).
  apply bind_Ok in H as (yy & Hyy & H).
  apply bind_Ok in H as (xy & Hxy & H).
  apply bind_Ok in H as (yx & Hyx & H).
  apply bind_Ok in H as (v0 & Hv0 & H).
  apply bind_Ok in H as (v1 & Hv1 & H).
  apply bind_Ok in H as (v2 & Hv2 & H).
  apply bind_Ok in H as (v3 & Hv3 & H).
  apply bind_Ok in H as (m0 & Hm0 & H).
  apply bind_Ok in H as (m1 & Hm1 & H).
  apply bind_Ok in H as (m2 & Hm2 & H).
  apply bind_Ok in H as (m3 & Hm3 & H).
  destruct (decide (0 < _)%nat) as [|Hnone] in H; [discriminate|].
  apply bind_Ok in H as (s2 & Hs2 & [= <- <-]).
  assert (length (sorted (feedno self)) = n) as Hlen.
  { unfold sorted, n. by rewrite merge_sort_Permutation. }
  rewrite Hfeed, Hbl, Hvis, Hmask, Hlen in *.
  exists xs, ys,
    (λ p, match p with 0 => xx | 1 => yy | 2 => xy | _ => yx end),
    (λ p, match p with 0 => v0 | 1 => v1 | 2 => v2 | _ => v3 end),
    (λ p, match p with 0 => m0 | 1 => m1 | 2 => m2 | _ => m3 end).
  split. { unfold xchans in *. by rewrite <- Hfeed, <- Hchan. }
  split. { unfold ychans in *. by rewrite <- Hfeed, <- Hchan. }
  split. { intros p Hp. destruct p as [|[|[|[|p]]]]; [done..|lia]. }
  cbn [ts_vis ts_vis_mask ts_blorder ts_feedno ts_freq ts_attrs].
  do 3 (split; [done|]). split; [done|]. split; [done|]. split; [by rewrite Eat|].
  split.
  { rewrite <- Ebo. apply Forall_forall. intros k Hk.
    destruct (decide (k ∈ ["vis"; "vis_mask"; "blorder"]%string)) as [|Hnot]; [done|].
    destruct Hnone.
    assert (k ∈ filter (λ k, k ∉ ["vis"; "vis_mask"; "blorder"]%string)
                  (bl_ordered_datasets s1)) as Hin
      by (by apply list_elem_of_filter).
    destruct (filter _ _); [by apply elem_of_nil in Hin | simpl; lia]. }
  eapply same_data_trans; [exact Hsame|].
  destruct keep; [by eapply redistribute_same_data|].
  injection Hs2 as <-. by repeat split.
Qed.


(** X14: a successful separation leaves everything of the raw
    container but its distribution axis as it was; the new container
    has the feed numbers and frequencies of the source and its
    attributes but 'obstime' and 'sec1970'; and the source had no
    baseline-ordered dataset other than 'vis', 'vis_mask' and
    'blorder'. *)
Theorem separate_pol_and_bl_frame (self self' : RawTimestream)
    (keep_dist_axis : bool) (ts : Timestream) :
  separate_pol_and_bl self keep_dist_axis = Ok (ts, self') →
  same_data self self'
  ∧ ts_feedno ts = feedno self
  ∧ ts_freq ts = freq self
  ∧ (∀ kv, kv ∈ ts_attrs ts
           ↔ kv ∈ attrs self ∧ kv.1 ≠ "obstime"%string ∧ kv.1 ≠ "sec1970"%string)
  ∧ Forall (λ k, k ∈ ["vis"; "vis_mask"; "blorder"]%string)
           (bl_ordered_datasets self).
Proof.
  intros H. destruct (separate_pol_and_bl_inv _ _ _ _ H)
    as (xs & ys & lst & gv & gm & _ & _ & _ & _ & _ & _ & Hfd & Hfr & Hat & Hbo & Hsame).
  split; [done|]. split; [done|]. split; [done|]. split; [|done].
  intros kv. rewrite Hat, list_elem_of_filter. unfold time_ordered_attrs.
  rewrite !elem_of_cons, elem_of_nil. tauto.
Qed.

Lemma separate_pol_and_bl_frame_witness :
  ∃ ts self',
    separate_pol_and_bl scenario true = Ok (ts, self')
    ∧ vis self' = vis scenario ∧ vis_mask self' = vis_mask scenario
    ∧ ts_feedno ts = [1; 2; 3]%Z
    ∧ ts_attrs ts = [("telescope", "cylinder")]%string.
Proof.
  destruct (separate_pol_and_bl scenario true) as [[ts self']|e] eqn:H;
    [|vm_compute in H; discriminate].
  destruct (separate_pol_and_bl_frame scenario self' true ts H)
    as ((_&_&_&_&_&_&_&_&Hv&Hm&_) & Hfd & _ & _ & _).
  exists ts, self'. split; [done|]. split; [done|]. split; [done|]. split; [done|].
  apply (f_equal (λ r, match r with Ok p => ts_attrs p.1 | Raise _ => [] end)) in H.
  vm_compute in H. symmetry. exact H.
Defined.

(** X13: a container that can be separated no longer can once it
    lists a baseline-ordered dataset other than 'vis', 'vis_mask' and
    'blorder': the call raises the [RuntimeError] whose message is
    'Should not have other bl_ordered_datasets %s' with the set of the
    other dataset names substituted. *)
Theorem separate_pol_and_bl_unexpected_dataset (self self' : RawTimestream)
    (keep_dist_axis : bool) (ts : Timestream) (names : list string) (k : string) :
  separate_pol_and_bl self keep_dist_axis = Ok (ts, self') →
  k ∈ names → k ∉ ["vis"; "vis_mask"; "blorder"]%string →
  separate_pol_and_bl (with_bl_ordered_datasets self names) keep_dist_axis
  = Raise (RuntimeErrorOf "Should not have other bl_ordered_datasets %s"
             (list_to_set names
              ∖ ({["vis"; "vis_mask"; "blorder"]}%string : gset string)))
  ∧ k ∈ (list_to_set names
         ∖ ({["vis"; "vis_mask"; "blorder"]}%string : gset string) : gset string).
Proof.
  intros H Hk Hnot. split; [|set_unfold; tauto].
  unfold separate_pol_and_bl in *.
  cbn [main_data_dist_axis with_bl_ordered_datasets] in *.
  destruct (getitem main_data_axes (main_data_dist_axis self)) as [axis_name|];
    [|done]. cbn [mbind result_bind] in *.
  apply bind_Ok in H as ([keep s1] & Hs1 & H). cbn [fst snd] in H.
  assert (∃ s1',
    (if decide ("baseline"%string = axis_name)
     then self0 ← redistribute (with_bl_ordered_datasets self names) 0;
          Ok (false, self0)
     else Ok (keep_dist_axis, with_bl_ordered_datasets self names))
    = Ok (keep, s1')
    ∧ s1' = with_bl_ordered_datasets s1 names) as (s1' & -> & ->).
  { destruct (decide _).
    - unfold redistribute in *. rewrite decide_True in * by (simpl; lia).
      simpl in Hs1. injection Hs1 as <- <-. eexists. split; reflexivity.
    - injection Hs1 as <- <-. by eexists. }
  cbn [mbind result_bind fst snd].
  change (xchans (with_bl_ordered_datasets s1 names)) with (xchans s1).
  change (ychans (with_bl_ordered_datasets s1 names)) with (ychans s1).
  cbn [feedno blorder vis vis_mask bl_ordered_datasets with_bl_ordered_datasets].
  repeat (apply bind_Ok in H as (? & -> & H); cbn [mbind result_bind]).
  rewrite decide_True; [done|].
  assert (k ∈ filter (λ k, k ∉ ["vis"; "vis_mask"; "blorder"]%string) names) as Hin
    by (by apply list_elem_of_filter).
  destruct (filter _ names); [by apply elem_of_nil in Hin | simpl; lia].
Qed.

Lemma separate_pol_and_bl_unexpected_dataset_witness :
  ∃ others : gset string,
    separate_pol_and_bl
      (with_bl_ordered_datasets scenario ["vis"; "vis_mask"; "blorder"; "noise"]%string)
      false
    = Raise (RuntimeErrorOf "Should not have other bl_ordered_datasets %s" others)
    ∧ "noise"%string ∈ others.
Proof.
  destruct (separate_pol_and_bl scenario false) as [[ts self']|e] eqn:H;
    [|vm_compute in H; discriminate].
  eexists.
  apply (separate_pol_and_bl_unexpected_dataset scenario self' false ts _ "noise" H).
  - set_unfold. tauto.
  - set_unfold. intros [|[|[|[]]]]; discriminate.
Defined.


(** *** The shape of the separated arrays *)

Lemma length_bind_singleton {A B : Type} (f : A → B) (l : list A) :
  length (l ≫= λ j, [f j]) = length l.
Proof. induction l as [|x l IH]; [done|]. rewrite bind_cons. simpl. by rewrite IH. Qed.

Lemma length_index_pairs_from (m : nat) :
  ∀ a, (2 * length (i ← seq a m; j ← seq i (a + m - i); [(i, j)]) = m * (m + 1))%nat.
Proof.
  induction m as [|m IH]; intros a; [done|].
  rewrite <- cons_seq, bind_cons, length_app, length_bind_singleton, length_seq.
  specialize (IH (S a)).
  erewrite (list_bind_ext _ (λ i, j ← seq i (S a + m - i); [(i, j)])
              (seq (S a) m) (seq (S a) m)); [|intros i|done].
  - lia.
  - by replace (a + S m - i)%nat with (S a + m - i)%nat by lia.
Qed.

Lemma length_index_pairs (n : nat) :
  (2 * length (index_pairs n) = n * (n + 1))%nat.
Proof. exact (length_index_pairs_from n 0). Qed.

Lemma length_upper_pairs (xs ys : list Z) (n : nat) :
  length (upper_pairs xs ys n) = length (index_pairs n).
Proof. by rewrite upper_pairs_index_pairs, length_fmap. Qed.

Lemma gather_row {A : Type} (inds : list nat) (arr g : list (list (list A)))
    (t f : nat) (row : list A) :
  gather inds arr = Ok g → row_at arr t f = Some row →
  ∃ grow, row_at g t f = Some grow ∧ length grow = length inds.
Proof.
  intros Hg Hrow. unfold gather in Hg. unfold row_at in *.
  destruct (arr !! t) as [plane|] eqn:Ht; [|done].
  destruct (mapM_Ok_lookup _ _ _ _ _ Hg Ht) as (gplane & Hgp & ->).
  destruct (mapM_Ok_lookup _ _ _ _ _ Hgp Hrow) as (grow & Hgr & ->).
  exists grow. split; [done|]. by apply mapM_Ok_length in Hgr.
Qed.

Lemma gather_no_row {A : Type} (inds : list nat) (arr g : list (list (list A)))
    (t f : nat) :
  gather inds arr = Ok g → row_at arr t f = None → row_at g t f = None.
Proof.
  intros Hg Hrow. unfold gather in Hg. unfold row_at in *.
  apply mapM_Ok in Hg.
  destruct (g !! t) as [gplane|] eqn:Hgt; [|done].
  destruct (Forall2_lookup_r _ _ _ _ _ Hg Hgt) as (plane & Ht & Hgp).
  rewrite Ht in Hrow. apply mapM_Ok in Hgp.
  destruct (gplane !! f) as [grow|] eqn:Hgf; [|done].
  destruct (Forall2_lookup_r _ _ _ _ _ Hgp Hgf) as (row & Hf & _). congruence.
Qed.

Lemma gather_length {A : Type} (inds : list nat) (arr g : list (list (list A))) :
  gather inds arr = Ok g → length g = length arr.
Proof. apply mapM_Ok_length. Qed.

Lemma where_conj_row (cjs : list bool) (g : list (list (list complex)))
    (t f : nat) :
  row_at (where_conj cjs g) t f
  = zip_with (λ (c : bool) v, if c then conj v else v) cjs <$> row_at g t f.
Proof.
  unfold row_at, where_conj. rewrite list_lookup_fmap.
  destruct (g !! t) as [plane|]; [|done]. simpl. by rewrite list_lookup_fmap.
Qed.

Lemma row_at_imap {A B : Type} (g : nat → nat → A → B)
    (a : list (list A)) (t f : nat) :
  row_at (imap (λ t plane, imap (λ f row, g t f row) plane) a) t f
  = g t f <$> row_at a t f.
Proof.
  unfold row_at. rewrite list_lookup_imap.
  destruct (a !! t) as [plane|]; simpl; [|done]. by rewrite list_lookup_imap.
Qed.

Lemma stack4_row {A : Type} (a b c d : list (list (list A))) (t f : nat) :
  row_at (stack4 a b c d) t f
  = (λ row, [row; default [] (row_at b t f); default [] (row_at c t f);
             default [] (row_at d t f)]) <$> row_at a t f.
Proof.
  unfold stack4.
  exact (row_at_imap
           (λ t f row, [row; default [] (row_at b t f);
                        default [] (row_at c t f); default [] (row_at d t f)])
           a t f).
Qed.

(** X15: for [n] feeds the separated container has [n(n+1)/2]
    baselines; its visibilities and mask have the time and frequency
    extent of the source, and at every time and frequency they hold
    four polarization rows, each with one entry per baseline. *)
Theorem separate_pol_and_bl_shape (self self' : RawTimestream)
    (keep_dist_axis : bool) (ts : Timestream) :
  separate_pol_and_bl self keep_dist_axis = Ok (ts, self') →
  let n := length (feedno self) in
  let nbl := length (ts_blorder ts) in
  (2 * nbl = n * (n + 1))%nat
  ∧ length (ts_vis ts) = length (vis self)
  ∧ length (ts_vis_mask ts) = length (vis_mask self)
  ∧ (∀ t f, match row_at (vis self) t f with
            | Some _ => ∃ pols, row_at (ts_vis ts) t f = Some pols
                                ∧ length pols = 4%nat
                                ∧ Forall (λ r, length r = nbl) pols
            | None => row_at (ts_vis ts) t f = None
            end)
  ∧ (∀ t f, match row_at (vis_mask self) t f with
            | Some _ => ∃ pols, row_at (ts_vis_mask ts) t f = Some pols
                                ∧ length pols = 4%nat
                                ∧ Forall (λ r, length r = nbl) pols
            | None => row_at (ts_vis_mask ts) t f = None
            end).
Proof.
  intros H n nbl. destruct (separate_pol_and_bl_inv _ _ _ _ H)
    as (xs & ys & lst & gv & gm & _ & _ & Hslot & Hv & Hm & Hbl & _).
  fold n in Hslot, Hbl.
  assert (nbl = length (index_pairs n)) as Hnbl
    by (unfold nbl; by rewrite Hbl, length_upper_pairs).
  assert (∀ p, (p < 4)%nat → length (lst p) = nbl) as Hlst.
  { intros p Hp. destruct (Hslot p Hp) as (Hl & _).
    apply mapM_Ok_length in Hl. rewrite Hl, Hnbl.
    destruct p as [|[|[|[|p]]]]; [apply length_upper_pairs..|lia]. }
  split; [rewrite Hnbl; apply length_index_pairs|].
  destruct (Hslot 0%nat) as (_ & Hg0 & Hgm0); [lia|].
  split.
  { rewrite Hv. unfold stack4, where_conj.
    rewrite length_imap, length_fmap. by eapply gather_length. }
  split.
  { rewrite Hm. unfold stack4. rewrite length_imap. by eapply gather_length. }
  split.
  - intros t f. rewrite Hv, stack4_row, !where_conj_row.
    destruct (row_at (vis self) t f) as [row|] eqn:Hrow.
    + assert (∀ p, (p < 4)%nat →
                ∃ r, row_at (gv p) t f = Some r ∧ length r = nbl) as Hrows.
      { intros p Hp. destruct (Hslot p Hp) as (_ & Hg & _).
        destruct (gather_row _ _ _ _ _ _ Hg Hrow) as (r & Hr & Hlen).
        exists r. split; [done|]. by rewrite Hlen, length_fmap, Hlst. }
      destruct (Hrows 0%nat) as (r0 & -> & Hl0); [lia|].
      destruct (Hrows 1%nat) as (r1 & -> & Hl1); [lia|].
      destruct (Hrows 2%nat) as (r2 & -> & Hl2); [lia|].
      destruct (Hrows 3%nat) as (r3 & -> & Hl3); [lia|].
      simpl. eexists. split; [done|]. split; [done|].
      repeat constructor;
        rewrite length_zip_with, length_fmap, Hlst by lia; lia.
    + by rewrite (gather_no_row _ _ _ _ _ Hg0 Hrow).
  - intros t f. rewrite Hm, stack4_row.
    destruct (row_at (vis_mask self) t f) as [row|] eqn:Hrow.
    + assert (∀ p, (p < 4)%nat →
                ∃ r, row_at (gm p) t f = Some r ∧ length r = nbl) as Hrows.
      { intros p Hp. destruct (Hslot p Hp) as (_ & _ & Hg).
        destruct (gather_row _ _ _ _ _ _ Hg Hrow) as (r & Hr & Hlen).
        exists r. split; [done|]. by rewrite Hlen, length_fmap, Hlst. }
      destruct (Hrows 0%nat) as (r0 & -> & Hl0); [lia|].
      destruct (Hrows 1%nat) as (r1 & -> & Hl1); [lia|].
      destruct (Hrows 2%nat) as (r2 & -> & Hl2); [lia|].
      destruct (Hrows 3%nat) as (r3 & -> & Hl3); [lia|].
      simpl. eexists. split; [done|]. split; [done|]. by repeat constructor.
    + by rewrite (gather_no_row _ _ _ _ _ Hgm0 Hrow).
Qed.

Lemma separate_pol_and_bl_shape_witness :
  ∃ ts self' pols,
    separate_pol_and_bl scenario true = Ok (ts, self')
    ∧ length (ts_blorder ts) = 6%nat
    ∧ length (ts_vis ts) = 1%nat
    ∧ row_at (ts_vis ts) 0 0 = Some pols
    ∧ length pols = 4%nat
    ∧ Forall (λ r, length r = 6%nat) pols.
Proof.
  destruct (separate_pol_and_bl scenario true) as [[ts self']|e] eqn:H;
    [|vm_compute in H; discriminate].
  destruct (separate_pol_and_bl_shape scenario self' true ts H)
    as (Hn & Hlen & _ & Hrows & _).
  specialize (Hrows 0%nat 0%nat). cbn in Hrows.
  destruct Hrows as (pols & Hp & Hl & Hall).
  assert (length (ts_blorder ts) = 6%nat) as Hbl by (cbn in Hn; lia).
  exists ts, self', pols. rewrite Hbl in Hall. done.
Defined.


(** *** Cross-polarization of one feed with itself *)

Lemma index_conj_blorder (bl : list (Z * Z)) (x y : Z) :
  index (conj_blorder bl) (y, x) = index bl (x, y).
Proof.
  unfold index, conj_blorder.
  induction bl as [|[a b] bl IH]; [done|].
  rewrite fmap_cons. simpl.
  destruct (decide ((b, a) = (y, x))) as [[= -> ->]|Hne].
  - by rewrite decide_True.
  - rewrite decide_False by (intros [= -> ->]; by apply Hne).
    destruct (list_find _ _) as [[i p]|];
      destruct (list_find _ bl) as [[i' p']|]; simpl in *; congruence.
Qed.

Lemma slot_pairs_lookup (xs ys : list Z) (n p k i j : nat) :
  (p < 4)%nat → index_pairs n !! k = Some (i, j) →
  slot_pairs xs ys n p !! k = Some (chan_pair xs ys p i j).
Proof.
  intros Hp Hk. destruct p as [|[|[|[|p]]]]; [..|lia];
    by apply upper_pairs_lookup.
Qed.

Lemma separate_pol_and_bl_slot (self self' : RawTimestream)
    (keep_dist_axis : bool) (ts : Timestream) :
  separate_pol_and_bl self keep_dist_axis = Ok (ts, self') →
  ∃ xs ys,
    xchans self = Ok xs ∧ ychans self = Ok ys
    ∧ ∀ p k i j, (p < 4)%nat →
        index_pairs (length (feedno self)) !! k = Some (i, j) →
        ∃ cj b,
          _get_ind (blorder self) (chan_pair xs ys p i j) = Ok (cj, b)
          ∧ (∀ t f row, row_at (vis self) t f = Some row →
               ∃ v, row !! b = Some v
                    ∧ at4 (ts_vis ts) t f p k = Some (if cj then conj v else v))
          ∧ (∀ t f row, row_at (vis_mask self) t f = Some row →
               ∃ m, row !! b = Some m
                    ∧ at4 (ts_vis_mask ts) t f p k = Some m).
Proof.
  intros H. destruct (separate_pol_and_bl_inv _ _ _ _ H)
    as (xs & ys & lst & gv & gm & Hxs & Hys & Hslot & Hv & Hm & _).
  exists xs, ys. split; [done|]. split; [done|].
  intros p k i j Hp Hk.
  destruct (Hslot p Hp) as (Hl & Hgv & Hgm).
  destruct (Hslot 0%nat) as (_ & Hgv0 & Hgm0); [lia|].
  pose proof (slot_pairs_lookup xs ys _ p k i j Hp Hk) as Hpk.
  destruct (resolved_pair _ _ _ _ _ Hl Hpk) as (cj & b & Hcb & Hcj & Hb).
  exists cj, b. split; [done|]. split.
  - intros t f row Hrow.
    destruct (gather_at3 _ _ _ _ _ _ _ _ Hgv Hrow Hb) as (v & Hrb & Hg).
    exists v. split; [done|]. rewrite Hv, stack4_at4; [|  |done].
    + rewrite <- (where_conj_at3 _ _ t f k cj v Hcj Hg).
      by destruct p as [|[|[|[|p]]]]; [..|lia].
    + eapply where_conj_row_at, gather_row_at; [exact Hgv0|by eexists].
  - intros t f row Hrow.
    destruct (gather_at3 _ _ _ _ _ _ _ _ Hgm Hrow Hb) as (m & Hrb & Hg).
    exists m. split; [done|]. rewrite Hm, stack4_at4; [|  |done].
    + rewrite <- Hg. by destruct p as [|[|[|[|p]]]]; [..|lia].
    + eapply gather_row_at; [exact Hgm0|by eexists].
Qed.

(** X16: for a feed whose channel pair is in the baseline order as
    [(x, y)] only, the separated 'yx' visibility of the feed with
    itself is the complex conjugate of its 'xy' visibility, both taken
    from the first baseline [(x, y)]. *)
Theorem separate_pol_and_bl_auto_yx_conj_xy (self self' : RawTimestream)
    (keep_dist_axis : bool) (ts : Timestream) :
  separate_pol_and_bl self keep_dist_axis = Ok (ts, self') →
  ∃ xs ys,
    xchans self = Ok xs ∧ ychans self = Ok ys
    ∧ ∀ i, (i < length (feedno self))%nat →
        (nth i ys 0%Z, nth i xs 0%Z) ∉ blorder self →
        ∃ k b,
          index_pairs (length (feedno self)) !! k = Some (i, i)
          ∧ index (blorder self) (nth i xs 0%Z, nth i ys 0%Z) = Ok b
          ∧ ∀ t f row, row_at (vis self) t f = Some row →
              ∃ v, row !! b = Some v
                   ∧ at4 (ts_vis ts) t f 2 k = Some v
                   ∧ at4 (ts_vis ts) t f 3 k = Some (conj v).
Proof.
  intros H. destruct (separate_pol_and_bl_slot _ _ _ _ H)
    as (xs & ys & Hxs & Hys & Hslot).
  exists xs, ys. split; [done|]. split; [done|].
  intros i Hi Hnot.
  assert (i ≤ i < length (feedno self))%nat as Hii by lia.
  apply elem_of_index_pairs, list_elem_of_lookup in Hii as [k Hk].
  destruct (Hslot 2%nat k i i ltac:(lia) Hk) as (cj2 & b2 & Hg2 & Hv2 & Hm2).
  destruct (Hslot 3%nat k i i ltac:(lia) Hk) as (cj3 & b3 & Hg3 & Hv3 & Hm3).
  simpl in Hg2, Hg3.
  apply _get_ind_spec in Hg3 as (Hcj3 & _ & Hi3).
  assert (cj3 = true) as -> by by apply Hcj3.
  specialize (Hi3 eq_refl). rewrite index_conj_blorder in Hi3.
  assert (cj2 = false ∧ b2 = b3) as [-> ->].
  { unfold _get_ind in Hg2. rewrite Hi3 in Hg2. by injection Hg2 as <- <-. }
  exists k, b3. split; [done|]. split; [done|].
  intros t f row Hrow.
  destruct (Hv2 t f row Hrow) as (v & Hrb & Hxy).
  destruct (Hv3 t f row Hrow) as (v' & Hrb' & Hyx).
  assert (v' = v) as -> by congruence.
  by exists v.
Qed.

Lemma separate_pol_and_bl_auto_yx_conj_xy_witness :
  ∃ ts self' v,
    separate_pol_and_bl scenario true = Ok (ts, self')
    ∧ at4 (ts_vis ts) 0 0 2 0 = Some v
    ∧ at4 (ts_vis ts) 0 0 3 0 = Some (conj v).
Proof.
  destruct (separate_pol_and_bl scenario true) as [[ts self']|e] eqn:H;
    [|vm_compute in H; discriminate].
  destruct (separate_pol_and_bl_auto_yx_conj_xy scenario self' true ts H)
    as (xs & ys & Hxs & Hys & Hall).
  vm_compute in Hxs, Hys. injection Hxs as <-. injection Hys as <-.
  destruct (Hall 0%nat) as (k & b & Hk & _ & Hrows).
  { simpl. lia. }
  { simpl. unfold scenario_file. simpl. set_unfold. intros H'.
    repeat (destruct H' as [[= ]|H']); done. }
  assert (k = 0%nat) as ->.
  { cbn in Hk. do 6 (destruct k as [|k]; [by try discriminate|]). done. }
  destruct (Hrows 0%nat 0%nat _ eq_refl) as (v & _ & H2 & H3).
  by exists ts, self', v.
Defined.

End RawTsMore.

(** ** raw_timestream.py: the resolution of channel pairs *)

Section RawTsResolution.
Import RawTs.

(** *** The entries of the separated container *)

Lemma sorted_of_sorted (l : list Z) : Sorted Z.le l → sorted l = l.
Proof.
  intros H. apply (Sorted_unique Z.le); [|done|].
  - apply (Sorted_merge_sort Z.le).
  - apply merge_sort_Permutation.
Qed.

Lemma chans_of_sorted (self : RawTimestream) (xs ys : list Z) (i : nat) (fi : Z) :
  Sorted Z.le (feedno self) →
  xchans self = Ok xs → ychans self = Ok ys →
  feedno self !! i = Some fi →
  ∃ c, feed_channels (feedno self) (channo self) fi = Ok c
       ∧ nth i xs 0%Z = c.1 ∧ nth i ys 0%Z = c.2.
Proof.
  intros Hs Hxs Hys Hi. unfold xchans, ychans in *.
  rewrite (sorted_of_sorted _ Hs) in Hxs, Hys.
  destruct (mapM_Ok_lookup _ _ _ _ _ Hxs Hi) as (x & Hx & Hxi).
  destruct (mapM_Ok_lookup _ _ _ _ _ Hys Hi) as (y & Hy & Hyi).
  apply bind_Ok in Hx as (i' & Hi' & Hx).
  apply bind_Ok in Hx as (c & Hc & [= <-]).
  rewrite Hi' in Hy. simpl in Hy. rewrite Hc in Hy. simpl in Hy.
  injection Hy as <-.
  exists c. unfold feed_channels. rewrite Hi'. simpl. split; [done|].
  split; by apply nth_lookup_Some.
Qed.

Lemma _get_ind_index (bl : list (Z * Z)) (chp : Z * Z) (cj : bool) (b : nat) :
  _get_ind bl chp = Ok (cj, b) →
  cj = negb (bool_decide (chp ∈ bl))
  ∧ index bl (if decide (chp ∈ bl) then chp else (chp.2, chp.1)) = Ok b.
Proof.
  intros H. apply _get_ind_spec in H as (Hcj & Hfw & Hbw).
  destruct (decide (chp ∈ bl)) as [Hin|Hout].
  - rewrite bool_decide_eq_true_2 by done. simpl.
    destruct cj; [by apply Hcj in Hin|]. split; [done|]. by apply Hfw.
  - rewrite bool_decide_eq_false_2 by done. simpl.
    destruct cj; [|destruct Hout; by apply dec_stable; intros ?%Hcj].
    split; [done|]. destruct chp as [x y]. rewrite <- index_conj_blorder.
    by apply Hbw.
Qed.

Lemma separate_pol_and_bl_resolved (self self' : RawTimestream)
    (keep_dist_axis : bool) (ts : Timestream) :
  separate_pol_and_bl self keep_dist_axis = Ok (ts, self') →
  ∃ xs ys,
    xchans self = Ok xs ∧ ychans self = Ok ys
    ∧ ∀ p k i j, (p < 4)%nat →
        index_pairs (length (feedno self)) !! k = Some (i, j) →
        ∃ b,
          index (blorder self)
            (if decide (chan_pair xs ys p i j ∈ blorder self)
             then chan_pair xs ys p i j
             else ((chan_pair xs ys p i j).2, (chan_pair xs ys p i j).1)) = Ok b
          ∧ (∀ t f row, row_at (vis self) t f = Some row →
               ∃ v, row !! b = Some v
                    ∧ at4 (ts_vis ts) t f p k
                      = Some (if decide (chan_pair xs ys p i j ∈ blorder self)
                              then v else conj v))
          ∧ (∀ t f row, row_at (vis_mask self) t f = Some row →
               ∃ m, row !! b = Some m
                    ∧ at4 (ts_vis_mask ts) t f p k = Some m).
Proof.
  intros H. destruct (separate_pol_and_bl_slot _ _ _ _ H)
    as (xs & ys & Hxs & Hys & Hslot).
  exists xs, ys. split; [done|]. split; [done|].
  intros p k i j Hp Hk.
  destruct (Hslot p k i j Hp Hk) as (cj & b & Hg & Hv & Hm).
  apply _get_ind_index in Hg as [-> Hb].
  exists b. split; [done|]. split; [|done].
  intros t f row Hrow. destruct (Hv t f row Hrow) as (v & Hrb & Hat).
  exists v. split; [done|]. rewrite Hat.
  by destruct (decide _); [rewrite bool_decide_eq_true_2|rewrite bool_decide_eq_false_2].
Qed.

(** X23: when the feed numbers of the container are stored in
    ascending order, the separated entry at time [t], frequency [f],
    polarization slot [p] and feed pair [(fi, fj)] is read from the
    channels of these two feeds (the rows [channo[feedno.index(fi)]]
    and [channo[feedno.index(fj)]]): it is the visibility of the first
    baseline equal to the slot's channel pair when the baseline order
    has that pair, and otherwise the complex conjugate of the
    visibility of the first baseline equal to the reversed pair; the
    mask entry is the mask of the same baseline, as it is. *)
Theorem separate_pol_and_bl_entries (self self' : RawTimestream)
    (keep_dist_axis : bool) (ts : Timestream) :
  separate_pol_and_bl self keep_dist_axis = Ok (ts, self') →
  Sorted Z.le (feedno self) →
  ∀ i j, (i ≤ j < length (feedno self))%nat →
    ∃ k fi fj ci cj,
      index_pairs (length (feedno self)) !! k = Some (i, j)
      ∧ feedno self !! i = Some fi ∧ feedno self !! j = Some fj
      ∧ ts_blorder ts !! k = Some (fi, fj)
      ∧ feed_channels (feedno self) (channo self) fi = Ok ci
      ∧ feed_channels (feedno self) (channo self) fj = Ok cj
      ∧ ∀ p, (p < 4)%nat →
          ∃ b,
            index (blorder self)
              (if decide (slot_pair p ci cj ∈ blorder self)
               then slot_pair p ci cj
               else ((slot_pair p ci cj).2, (slot_pair p ci cj).1)) = Ok b
            ∧ (∀ t f row, row_at (vis self) t f = Some row →
                 ∃ v, row !! b = Some v
                      ∧ at4 (ts_vis ts) t f p k
                        = Some (if decide (slot_pair p ci cj ∈ blorder self)
                                then v else conj v))
            ∧ (∀ t f row, row_at (vis_mask self) t f = Some row →
                 ∃ m, row !! b = Some m
                      ∧ at4 (ts_vis_mask ts) t f p k = Some m).
Proof.
  intros H Hs i j Hij.
  destruct (separate_pol_and_bl_resolved _ _ _ _ H)
    as (xs & ys & Hxs & Hys & Hres).
  destruct (separate_pol_and_bl_inv _ _ _ _ H)
    as (_ & _ & _ & _ & _ & _ & _ & _ & _ & _ & Hbl & _).
  pose proof Hij as [k Hk]%elem_of_index_pairs%list_elem_of_lookup.
  destruct (lookup_lt_is_Some_2 (feedno self) i) as [fi Hfi]; [lia|].
  destruct (lookup_lt_is_Some_2 (feedno self) j) as [fj Hfj]; [lia|].
  destruct (chans_of_sorted _ _ _ _ _ Hs Hxs Hys Hfi) as (ci & Hci & Hxi & Hyi).
  destruct (chans_of_sorted _ _ _ _ _ Hs Hxs Hys Hfj) as (cj & Hcj & Hxj & Hyj).
  exists k, fi, fj, ci, cj. split; [done|]. split; [done|]. split; [done|].
  split.
  { rewrite Hbl, (upper_pairs_lookup _ _ _ _ _ _ Hk), (sorted_of_sorted _ Hs).
    by rewrite (nth_lookup_Some _ _ _ _ Hfi), (nth_lookup_Some _ _ _ _ Hfj). }
  split; [done|]. split; [done|].
  intros p Hp.
  assert (chan_pair xs ys p i j = slot_pair p ci cj) as Hchp.
  { destruct p as [|[|[|[|p]]]]; [..|lia]; simpl; by rewrite ?Hxi, ?Hyi, ?Hxj, ?Hyj. }
  destruct (Hres p k i j Hp Hk) as (b & Hb & Hv & Hm).
  rewrite Hchp in Hb, Hv. by exists b.
Qed.

Lemma separate_pol_and_bl_entries_witness :
  ∃ ts self',
    separate_pol_and_bl scenario true = Ok (ts, self')
    ∧ ts_blorder ts !! 1%nat = Some (1, 2)%Z
    ∧ at4 (ts_vis ts) 0 0 0 1 = at3 (vis scenario) 0 0 1
    ∧ at4 (ts_vis ts) 0 0 3 1 = conj <$> at3 (vis scenario) 0 0 15
    ∧ at4 (ts_vis_mask ts) 0 0 3 1 = at3 (vis_mask scenario) 0 0 15.
Proof.
  destruct (separate_pol_and_bl scenario true) as [[ts self']|e] eqn:H;
    [|vm_compute in H; discriminate].
  assert (Sorted Z.le (feedno scenario)) as Hs
    by (repeat constructor; simpl; lia).
  destruct (separate_pol_and_bl_entries scenario self' true ts H Hs 0%nat 1%nat)
    as (k & fi & fj & ci & cj & Hk & Hfi & Hfj & Hbl & Hci & Hcj & Hslots).
  { simpl. lia. }
  assert (k = 1%nat) as ->.
  { cbn in Hk. do 6 (destruct k as [|k]; [by try discriminate|]). done. }
  injection Hfi as <-. injection Hfj as <-.
  vm_compute in Hci, Hcj. injection Hci as <-. injection Hcj as <-.
  exists ts, self'. split; [done|]. split; [exact Hbl|].
  destruct (Hslots 0%nat) as (b0 & Hb0 & Hv0 & _); [lia|].
  destruct (Hslots 3%nat) as (b3 & Hb3 & Hv3 & Hm3); [lia|].
  cbn [slot_pair fst snd] in Hb0, Hv0, Hb3, Hv3, Hm3.
  assert ((0, 2)%Z ∈ blorder scenario) as Hin
    by (apply list_elem_of_lookup; by exists 1%nat).
  assert ((1, 2)%Z ∉ blorder scenario) as Hout.
  { intros [i Hi]%index_is_Ok. vm_compute in Hi. discriminate. }
  rewrite decide_True in Hb0 by done.
  rewrite decide_False in Hb3 by done.
  vm_compute in Hb0, Hb3. injection Hb0 as <-. injection Hb3 as <-.
  destruct (Hv0 0%nat 0%nat _ eq_refl) as (v0 & Hr0 & Hat0).
  destruct (Hv3 0%nat 0%nat _ eq_refl) as (v3 & Hr3 & Hat3).
  destruct (Hm3 0%nat 0%nat _ eq_refl) as (m3 & Hq3 & ->).
  rewrite decide_True in Hat0 by done.
  rewrite decide_False in Hat3 by done.
  split; [rewrite Hat0, <- Hr0; reflexivity|].
  split; [|rewrite <- Hq3; reflexivity].
  rewrite Hat3. transitivity (conj <$> Some v3); [done|].
  rewrite <- Hr3. reflexivity.
Defined.

(** *** Resolving a channel pair *)

Lemma pair_lookup (bl : list (Z * Z)) (c1 c2 : Z) :
  ((c1, c2) ∈ bl →
     ∃ i, _get_ind bl (c1, c2) = Ok (false, i) ∧ bl !! i = Some (c1, c2)
          ∧ ∀ j y, bl !! j = Some y → (j < i)%nat → y ≠ (c1, c2))
  ∧ ((c1, c2) ∉ bl → (c2, c1) ∈ bl →
     ∃ i, _get_ind bl (c1, c2) = Ok (true, i) ∧ bl !! i = Some (c2, c1)
          ∧ ∀ j y, bl !! j = Some y → (j < i)%nat → y ≠ (c2, c1))
  ∧ ((c1, c2) ∉ bl → (c2, c1) ∉ bl → _get_ind bl (c1, c2) = Raise ValueError)
  ∧ ((c1, c2) ∈ bl ∨ (c2, c1) ∈ bl →
     ∃ i, index (blorder_sets bl) {[c1; c2]} = Ok i
          ∧ (bl !! i = Some (c1, c2) ∨ bl !! i = Some (c2, c1))
          ∧ ∀ j y, bl !! j = Some y → (j < i)%nat → y ≠ (c1, c2) ∧ y ≠ (c2, c1))
  ∧ ((c1, c2) ∉ bl → (c2, c1) ∉ bl →
     index (blorder_sets bl) {[c1; c2]} = Raise ValueError).
Proof.
  assert (∀ y : Z * Z, ({[y.1; y.2]} : gset Z) = {[c1; c2]}
                       ↔ y = (c1, c2) ∨ y = (c2, c1)) as Hset.
  { intros [a b]. rewrite pair_set_eq. simpl. split.
    - intros [[-> ->]|[-> ->]]; auto.
    - intros [[= -> ->]|[= -> ->]]; auto. }
  assert (({[c1; c2]} : gset Z) ∈ blorder_sets bl
          ↔ (c1, c2) ∈ bl ∨ (c2, c1) ∈ bl) as Hin.
  { unfold blorder_sets. rewrite list_elem_of_fmap. split.
    - intros (y & Hy & Hyin). symmetry in Hy.
      apply Hset in Hy as [->| ->]; auto.
    - intros [H|H]; eexists; (split; [|exact H]); symmetry; apply Hset; auto. }
  repeat split.
  - intros H. destruct (index_first _ _ H) as (i & Hi & Hl & Hmin).
    exists i. unfold _get_ind. by rewrite Hi.
  - intros Hn H. apply (elem_of_conj_blorder bl (c1, c2)) in H.
    destruct (index_first _ _ H) as (i & Hi & Hl & Hmin).
    exists i. unfold _get_ind. rewrite (index_not_elem _ _ Hn), Hi.
    split; [done|]. unfold conj_blorder in Hl, Hmin.
    rewrite list_lookup_fmap in Hl.
    destruct (bl !! i) as [[a b]|] eqn:Hbi; [|done].
    injection Hl as -> ->. split; [done|].
    intros j [a b] Hj Hlt [= -> ->].
    apply (Hmin j (c1, c2)); [|done|done].
    by rewrite list_lookup_fmap, Hj.
  - intros Hn Hr. by apply _get_ind_absent.
  - intros H. apply Hin in H.
    destruct (index_first _ _ H) as (i & Hi & Hl & Hmin).
    exists i. split; [done|]. unfold blorder_sets in Hl, Hmin.
    rewrite list_lookup_fmap in Hl.
    destruct (bl !! i) as [y|] eqn:Hbi; [|done].
    simpl in Hl. apply (inj Some) in Hl. apply Hset in Hl.
    split; [destruct Hl as [->| ->]; auto|].
    intros j y' Hj Hlt.
    assert (({[y'.1; y'.2]} : gset Z) ≠ {[c1; c2]}) as Hne.
    { apply (Hmin j); [|done]. by rewrite list_lookup_fmap, Hj. }
    rewrite Hset in Hne. tauto.
  - intros Hn Hr. apply index_not_elem. rewrite Hin. tauto.
Qed.




(** *** The concrete feed selection *)

Lemma feed_select_cross_12 (self : RawTimestream) (f0 : InFile)
    (rest : list InFile) :
  infiles self = f0 :: rest →
  f_feedno f0 = [1; 2; 3]%Z →
  f_channo f0 = [(0, 1); (2, 3); (4, 5)]%Z →
  (∀ s : gset Z, s ∈ [ ({[0; 2]} : gset Z); {[0; 3]}; {[1; 2]}; {[1; 3]} ]%Z →
     s ∈ blorder_sets (f_blorder f0)) →
  ∃ i02 i03 i12 i13,
    index (blorder_sets (f_blorder f0)) {[0; 2]}%Z = Ok i02
    ∧ index (blorder_sets (f_blorder f0)) {[0; 3]}%Z = Ok i03
    ∧ index (blorder_sets (f_blorder f0)) {[1; 2]}%Z = Ok i12
    ∧ index (blorder_sets (f_blorder f0)) {[1; 3]}%Z = Ok i13
    ∧ feed_select self (SelList [1; 2]%Z) "cross"
      = Ok (data_select_baseline self
              (merge_sort Nat.le
                 (elements (list_to_set [i02; i03; i12; i13] : gset nat)))
              [1; 2]%Z [(0, 1); (2, 3)]%Z).
Proof.
  intros Hf Hfeed Hchan Hbl.
  assert (intersect1d [1; 2; 3]%Z [1; 2]%Z = [1; 2]%Z) as Hfeeds
    by (vm_compute; reflexivity).
  assert (channel_pairs [1; 2; 3]%Z [(0, 1); (2, 3); (4, 5)]%Z [1; 2]%Z "cross"
          = Ok [ ({[0; 2]} : gset Z); {[0; 3]}; {[1; 2]}; {[1; 3]} ]%Z) as Hch
    by (vm_compute; reflexivity).
  destruct (proj1 (index_is_Ok (blorder_sets (f_blorder f0)) ({[0; 2]}%Z : gset Z)))
    as [i02 H02]; [apply Hbl; set_unfold; tauto|].
  destruct (proj1 (index_is_Ok (blorder_sets (f_blorder f0)) ({[0; 3]}%Z : gset Z)))
    as [i03 H03]; [apply Hbl; set_unfold; tauto|].
  destruct (proj1 (index_is_Ok (blorder_sets (f_blorder f0)) ({[1; 2]}%Z : gset Z)))
    as [i12 H12]; [apply Hbl; set_unfold; tauto|].
  destruct (proj1 (index_is_Ok (blorder_sets (f_blorder f0)) ({[1; 3]}%Z : gset Z)))
    as [i13 H13]; [apply Hbl; set_unfold; tauto|].
  exists i02, i03, i12, i13.
  split; [done|]. split; [done|]. split; [done|]. split; [done|].
  rewrite (feed_select_list _ _ _ _ _ Hf), Hfeed, Hchan, Hfeeds. cbn zeta.
  unfold select_indices. rewrite Hfeed, Hchan, Hch. cbn [mbind result_bind].
  unfold pair_indices. cbn [mapM mbind result_bind mret result_ret].
  rewrite H02, H03, H12, H13. cbn [mbind result_bind mret result_ret].
  reflexivity.
Qed.




(** *** Feed numbers stored out of order *)

(** C2: the code reads the channels of a feed pair from the wrong rows
    when the feed numbers are not stored in ascending order.  With the
    feeds stored as [3, 1, 2] on the channel rows
    [(4,5), (0,1), (2,3)], the first feed pair of the separated
    container is feed 1 with itself, whose channels are [(0, 1)]: its
    'xx' entry should be the visibility of baseline [(0,0)], index 0.
    [xchans] looks the feed up in the sorted list and takes row 0 of
    the channel table, the channels of feed 3, and the entry is the
    visibility of baseline [(4,4)], index 5; the mask entry is taken
    from there as well. *)
Theorem separate_pol_and_bl_unsorted_feeds :
  ∃ ts self',
    separate_pol_and_bl unsorted false = Ok (ts, self')
    ∧ feedno unsorted = [3; 1; 2]%Z
    ∧ ts_blorder ts !! 0%nat = Some (1, 1)%Z
    ∧ feed_channels (feedno unsorted) (channo unsorted) 1 = Ok (0, 1)%Z
    ∧ feed_channels (feedno unsorted) (channo unsorted) 3 = Ok (4, 5)%Z
    ∧ xchans unsorted = Ok [4; 0; 2]%Z
    ∧ index (blorder unsorted) (0, 0)%Z = Ok 0%nat
    ∧ index (blorder unsorted) (4, 4)%Z = Ok 5%nat
    ∧ at3 (vis unsorted) 0 0 0 = Some (1, 2)%float
    ∧ at3 (vis unsorted) 0 0 5 = Some (6, 7)%float
    ∧ at4 (ts_vis ts) 0 0 0 0 = Some (6, 7)%float
    ∧ at3 (vis_mask unsorted) 0 0 0 = Some true
    ∧ at3 (vis_mask unsorted) 0 0 5 = Some false
    ∧ at4 (ts_vis_mask ts) 0 0 0 0 = Some false.
Proof.
  destruct (separate_pol_and_bl unsorted false) as [[ts self']|e] eqn:H;
    [|vm_compute in H; discriminate].
  exists ts, self'. split; [reflexivity|]. split; [reflexivity|].
  assert ((λ r, match r with
                | Ok p => (ts_blorder p.1 !! 0%nat, at4 (ts_vis p.1) 0 0 0 0,
                           at4 (ts_vis_mask p.1) 0 0 0 0)
                | Raise _ => (None, None, None)
                end) (separate_pol_and_bl unsorted false)
          = (Some (1, 1)%Z, Some (6, 7)%float, Some false)) as Hall
    by (vm_compute; reflexivity).
  rewrite H in Hall. cbn beta iota in Hall. injection Hall as Hbl Hv Hm.
  split; [exact Hbl|].
  split; [vm_compute; reflexivity|]. split; [vm_compute; reflexivity|].
  split; [vm_compute; reflexivity|]. split; [vm_compute; reflexivity|].
  split; [vm_compute; reflexivity|]. split; [vm_compute; reflexivity|].
  split; [vm_compute; reflexivity|]. split; [exact Hv|].
  split; [vm_compute; reflexivity|]. split; [vm_compute; reflexivity|].
  exact Hm.
Qed.

End RawTsResolution.

(** ** freq_flag.py and rt2ts.py *)

Section FreqFlagMore.
Import RawTs FreqFlag.

Lemma process_mask_mono (p : Params) (ts : tod) (t f pl b : nat) (m : bool) :
  tod_mask ts t f pl b = Some m →
  ∃ m', tod_mask (process p ts).1 t f pl b = Some m' ∧ Bool.le m m'.
Proof.
  intros Hm. destruct (process_mask p ts t f pl b) as [-> | ->].
  - exists m. split; [done|]. by destruct m.
  - rewrite Hm. simpl.
    destruct (flag_lookup p (tod_vis_column ts t pl b) _ _ _
                (tod_mask_column_lookup _ _ _ _ _ _ Hm)) as (m' & -> & Hle).
    by exists m'.
Qed.

(** *** Separation followed by flagging *)

(** X19: separation followed by flagging: every sample masked in the
    raw container is masked, after [Rt2ts] and [Flag], in each
    polarization slot and feed pair whose channel pair [_get_ind]
    resolves to that baseline. *)
Theorem rt2ts_then_flag_keeps_raw_mask (pr : Rt2ts.Params) (pf : Params)
    (rt : RawTimestream) (ts : Timestream) :
  Rt2ts.process pr rt = Ok ts →
  ∃ xs ys,
    xchans rt = Ok xs ∧ ychans rt = Ok ys
    ∧ ∀ p k i j, (p < 4)%nat →
        index_pairs (length (feedno rt)) !! k = Some (i, j) →
        ∃ cj b,
          _get_ind (blorder rt) (chan_pair xs ys p i j) = Ok (cj, b)
          ∧ ∀ t f, at3 (vis_mask rt) t f b = Some true →
              tod_mask (process pf (Separated ts)).1 t f p k = Some true.
Proof.
  intros H. unfold Rt2ts.process in H.
  apply bind_Ok in H as ([ts' rt'] & H & [= <-]).
  destruct (separate_pol_and_bl_slot _ _ _ _ H)
    as (xs & ys & Hxs & Hys & Hslot).
  exists xs, ys. split; [done|]. split; [done|].
  intros p k i j Hp Hk.
  destruct (Hslot p k i j Hp Hk) as (cj & b & Hg & _ & Hmask).
  exists cj, b. split; [done|].
  intros t f Hraw. unfold at3 in Hraw.
  destruct (row_at (vis_mask rt) t f) as [row|] eqn:Hrow; [|done].
  destruct (Hmask t f row Hrow) as (m & Hrb & Hsep).
  assert (m = true) as -> by congruence.
  destruct (process_mask_mono pf (Separated ts') t f p k true Hsep)
    as ([|] & Hm' & Hle); done.
Qed.

Lemma rt2ts_then_flag_keeps_raw_mask_witness :
  ∃ ts, Rt2ts.process Rt2ts.params_init scenario = Ok ts
        ∧ at3 (vis_mask scenario) 0 0 12 = Some true
        ∧ tod_mask (process params_init (Separated ts)).1 0 0 2 0 = Some true.
Proof.
  destruct (Rt2ts.process Rt2ts.params_init scenario) as [ts|e] eqn:H;
    [|vm_compute in H; discriminate].
  exists ts. split; [done|]. split; [reflexivity|].
  destruct (rt2ts_then_flag_keeps_raw_mask Rt2ts.params_init params_init
              scenario ts H) as (xs & ys & Hxs & Hys & Hall).
  vm_compute in Hxs, Hys. injection Hxs as <-. injection Hys as <-.
  destruct (Hall 2%nat 0%nat 0%nat 0%nat ltac:(lia) eq_refl)
    as (cj & b & Hg & Hkeep).
  vm_compute in Hg. injection Hg as <- <-.
  apply Hkeep. reflexivity.
Defined.

End FreqFlagMore.

(** ** map_making1.py *)

Section MapMakingFacts.
Import RawTs MapMaking.

Lemma pair_ind_get_ind (bls : list (Z * Z)) (feeds : list Z) (a : nat * nat) :
  pair_ind bls feeds a
  = (f1 ← getitem feeds a.1; f2 ← getitem feeds a.2; _get_ind bls (f1, f2)).
Proof.
  unfold pair_ind, _get_ind.
  destruct (getitem feeds a.1) as [f1|]; [|done]. simpl.
  destruct (getitem feeds a.2) as [f2|]; [|done]. simpl.
  by rewrite index_conj_blorder.
Qed.


Lemma pair_ind_Ok (bls : list (Z * Z)) (feeds : list Z) (a : nat * nat)
    (cj : bool) (b : nat) :
  pair_ind bls feeds a = Ok (cj, b)
  ↔ ∃ f1 f2, feeds !! a.1 = Some f1 ∧ feeds !! a.2 = Some f2
             ∧ _get_ind bls (f1, f2) = Ok (cj, b).
Proof.
  rewrite pair_ind_get_ind. unfold getitem. split.
  - intros H. destruct (feeds !! a.1) as [f1|]; [|done].
    destruct (feeds !! a.2) as [f2|]; [|done]. by exists f1, f2.
  - intros (f1 & f2 & -> & -> & H). done.
Qed.

Lemma reorder_Ok (nbl : nat) (vis : list (list (list complex)))
    (bls : list (Z * Z)) (feeds : list Z) (allpairs : list (nat * nat))
    (out : list (list (list complex))) :
  reorder nbl vis bls feeds allpairs = Ok out →
  ∃ lst,
    Forall2 (λ a cb, pair_ind bls feeds a = Ok cb ∧ (cb.2 < nbl)%nat)
            allpairs lst
    ∧ (length allpairs ≤ nbl)%nat
    ∧ out = (λ plane : list (list complex),
               (λ row : list complex,
                  (λ ind : nat,
                     match (lst !! ind : option (bool * nat)) with
                     | Some (cj, b_ind) =>
                       let v := default zero (row !! b_ind) in
                       if cj then conj v else v
                     | None => zero
                     end) <$> seq 0 nbl) <$> plane) <$> vis.
Proof.
  intros H. unfold reorder in H.
  apply bind_Ok in H as (lst & Hl & [= <-]).
  exists lst. apply mapM_Ok in Hl.
  assert (∀ ind a, allpairs !! ind = Some a →
            ∃ cb, lst !! ind = Some cb ∧ pair_ind bls feeds a = Ok cb
                  ∧ (cb.2 < nbl)%nat ∧ (ind < nbl)%nat) as Hlk.
  { intros ind a Ha.
    destruct (Forall2_lookup_l _ _ _ ind (ind, a) Hl) as (cb & Hcb & Hstep).
    { by rewrite list_lookup_imap, Ha. }
    exists cb. split; [done|]. apply bind_Ok in Hstep as (cb' & Hp & Hd).
    simpl in *. case_decide as Hlt; [|done]. injection Hd as ->. tauto. }
  split; [|split; [|done]].
  - apply Forall2_same_length_lookup. split.
    + apply Forall2_length in Hl. by rewrite length_imap in Hl.
    + intros ind a cb Ha Hcb. destruct (Hlk ind a Ha) as (cb' & Hcb' & ? & ? & _).
      assert (cb' = cb) as -> by congruence. done.
  - destruct (decide (length allpairs = 0)%nat) as [->|Hne]; [lia|].
    destruct (lookup_lt_is_Some_2 allpairs (length allpairs - 1)) as [a Ha]; [lia|].
    destruct (Hlk _ _ Ha) as (_ & _ & _ & _ & ?). lia.
Qed.

(** X20: when the reordering succeeds there are at most as many
    pairs as columns; column [ind] of the result is the column of the
    baseline that [_get_ind] of raw_timestream.py resolves for the
    feed numbers of pair [ind], conjugated exactly when the pair was
    found reversed; the columns beyond the pairs are zero. *)
Theorem reorder_columns (nbl : nat) (vis : list (list (list complex)))
    (bls : list (Z * Z)) (feeds : list Z) (allpairs : list (nat * nat))
    (out : list (list (list complex))) :
  reorder nbl vis bls feeds allpairs = Ok out →
  (length allpairs ≤ nbl)%nat
  ∧ ∀ t f row ind,
      row_at vis t f = Some row → length row = nbl → (ind < nbl)%nat →
      match allpairs !! ind with
      | Some a =>
        ∃ f1 f2 cj b v,
          feeds !! a.1 = Some f1 ∧ feeds !! a.2 = Some f2
          ∧ _get_ind bls (f1, f2) = Ok (cj, b)
          ∧ row !! b = Some v
          ∧ at3 out t f ind = Some (if cj then conj v else v)
      | None => at3 out t f ind = Some zero
      end.
Proof.
  intros H. destruct (reorder_Ok _ _ _ _ _ _ H) as (lst & Hl & Hlen & ->).
  split; [done|]. intros t f row ind Hrow Hrl Hind.
  assert (∀ g : list complex → list complex,
            at3 ((λ plane : list (list complex), g <$> plane) <$> vis) t f ind
            = g row !! ind) as Hat.
  { intros g. unfold at3, row_at in *. rewrite list_lookup_fmap.
    destruct (vis !! t) as [plane|]; [|done]. simpl.
    by rewrite list_lookup_fmap, Hrow. }
  rewrite Hat, list_lookup_fmap, lookup_seq_lt by done. simpl.
  destruct (allpairs !! ind) as [a|] eqn:Ha.
  - destruct (Forall2_lookup_l _ _ _ _ _ Hl Ha) as ([cj b] & -> & Hp & Hb).
    apply pair_ind_Ok in Hp as (f1 & f2 & Hf1 & Hf2 & Hg). simpl in Hb.
    destruct (lookup_lt_is_Some_2 row b) as [v Hv]; [lia|].
    exists f1, f2, cj, b, v. by rewrite Hv.
  - apply Forall2_length in Hl. apply lookup_ge_None in Ha.
    rewrite (proj2 (lookup_ge_None lst ind)) by lia. done.
Qed.

Lemma reorder_columns_witness :
  ∃ out v,
    reorder 3 [[[(1, 2); (3, 4); (5, 6)]%float]] [(1, 1); (2, 1); (2, 2)]%Z
            [1; 2]%Z [(0, 1); (1, 1)]%nat = Ok out
    ∧ v = (3, 4)%float
    ∧ at3 out 0 0 0 = Some (conj v)
    ∧ at3 out 0 0 2 = Some zero.
Proof.
  destruct (reorder 3 [[[(1, 2); (3, 4); (5, 6)]%float]]
              [(1, 1); (2, 1); (2, 2)]%Z [1; 2]%Z [(0, 1); (1, 1)]%nat)
    as [out|e] eqn:H; [|vm_compute in H; discriminate].
  destruct (reorder_columns _ _ _ _ _ _ H) as (_ & Hcols).
  pose proof (Hcols 0 0 _ 0 eq_refl eq_refl ltac:(lia))%nat as H0.
  pose proof (Hcols 0 0 _ 2 eq_refl eq_refl ltac:(lia))%nat as H2.
  simpl in H0, H2.
  destruct H0 as (f1 & f2 & cj & b & v & [= <-] & [= <-] & Hg & Hv & H0).
  vm_compute in Hg. injection Hg as <- <-. injection Hv as <-.
  by exists out, (3, 4)%float.
Defined.

(** X21: over an array with one column per baseline the reordering
    succeeds exactly when there are no more pairs than baselines and
    every pair consists of two positions of the feed list whose feed
    numbers form a baseline in one of the two orientations. *)
Theorem reorder_succeeds_iff (vis : list (list (list complex)))
    (bls : list (Z * Z)) (feeds : list Z) (allpairs : list (nat * nat)) :
  is_Ok (reorder (length bls) vis bls feeds allpairs)
  ↔ (length allpairs ≤ length bls)%nat
    ∧ ∀ a, a ∈ allpairs →
        ∃ f1 f2,
          feeds !! a.1 = Some f1 ∧ feeds !! a.2 = Some f2
          ∧ ((f1, f2) ∈ bls ∨ (f2, f1) ∈ bls).
Proof.
  split.
  - intros [out H]. destruct (reorder_Ok _ _ _ _ _ _ H) as (lst & Hl & Hlen & _).
    split; [done|]. intros a [ind Ha]%list_elem_of_lookup.
    destruct (Forall2_lookup_l _ _ _ _ _ Hl Ha) as ([cj b] & _ & Hp & Hb).
    apply pair_ind_Ok in Hp as (f1 & f2 & Hf1 & Hf2 & Hg).
    exists f1, f2. split; [done|]. split; [done|].
    apply _get_ind_spec in Hg as (_ & Hfw & Hbw).
    destruct cj; [right|left].
    + apply index_is_Ok. exists b. rewrite <- index_conj_blorder. by apply Hbw.
    + apply index_is_Ok. exists b. by apply Hfw.
  - intros (Hlen & Hall). unfold reorder.
    destruct (mapM_is_Ok
                (λ ia : nat * (nat * nat),
                   cb ← pair_ind bls feeds ia.2;
                   if decide (cb.2 < length bls ∧ ia.1 < length bls)%nat
                   then Ok cb else Raise IndexError)
                (imap (λ (ind : nat) (a : nat * nat), (ind, a)) allpairs))
      as [lst Hm]; [|rewrite Hm; by eexists].
    intros x (ind & a & -> & Ha)%elem_of_lookup_imap.
    destruct (Hall a) as (f1 & f2 & Hf1 & Hf2 & Hb).
    { by eapply list_elem_of_lookup_2. }
    simpl. rewrite pair_ind_get_ind. unfold getitem.
    rewrite Hf1, Hf2. simpl. unfold _get_ind.
    apply lookup_lt_Some in Ha.
    destruct (index bls (f1, f2)) as [b'|e'] eqn:Hfw.
    + simpl. apply index_Ok in Hfw as [Hfw%lookup_lt_Some _].
      rewrite decide_True by lia. by eexists.
    + destruct (index_Raise _ _ _ Hfw) as [-> Hn].
      destruct Hb as [?|[b Hrev]%index_is_Ok]; [done|].
      rewrite index_conj_blorder, Hrev. simpl.
      apply index_Ok in Hrev as [Hrev%lookup_lt_Some _].
      rewrite decide_True by lia. by eexists.
Qed.

(** *** The redundancy bins *)

Lemma cumsum_from_lookup (l : list nat) :
  ∀ acc i, (i < length l)%nat →
    cumsum_from acc l !! i = Some (acc + sum_list (take (S i) l))%nat.
Proof.
  induction l as [|x l IH]; intros acc i Hi; simpl in *; [lia|].
  destruct i as [|i]; simpl.
  - f_equal. destruct l; simpl; lia.
  - rewrite IH by lia. f_equal. lia.
Qed.

Lemma red_bin_lookup (redundancy : list nat) (i : nat) :
  (i ≤ length redundancy)%nat →
  red_bin redundancy !! i = Some (sum_list (take i redundancy)).
Proof.
  intros Hi. unfold red_bin. rewrite cumsum_from_lookup by (simpl; lia).
  f_equal.
Qed.

Lemma sum_list_app (l k : list nat) :
  sum_list (l ++ k) = (sum_list l + sum_list k)%nat.
Proof. induction l as [|x l IH]; simpl; [done|]. rewrite IH. lia. Qed.

Lemma sum_list_take_S (l : list nat) (i x : nat) :
  l !! i = Some x →
  sum_list (take (S i) l) = (sum_list (take i l) + x)%nat.
Proof.
  intros H. rewrite (take_S_r _ _ _ H), sum_list_app. simpl. lia.
Qed.

Lemma sum_list_take_le (l : list nat) (i : nat) :
  (sum_list (take i l) ≤ sum_list l)%nat.
Proof.
  rewrite <- (take_drop i l) at 2. rewrite sum_list_app. lia.
Qed.

Lemma bin_columns_Ok (nbl : nat) (redundancy : list nat) (ind r : nat) :
  (sum_list redundancy ≤ nbl)%nat → redundancy !! ind = Some r →
  bin_columns nbl redundancy ind
  = Ok (seq (sum_list (take ind redundancy)) r).
Proof.
  intros Hn Hr. pose proof (lookup_lt_Some _ _ _ Hr) as Hlt.
  unfold bin_columns, getitem.
  rewrite !red_bin_lookup by lia. simpl.
  replace (ind + 1)%nat with (S ind) by lia.
  rewrite (sum_list_take_S _ _ _ Hr).
  pose proof (sum_list_take_le redundancy (S ind)) as Hle.
  rewrite (sum_list_take_S _ _ _ Hr) in Hle.
  do 2 f_equal; lia.
Qed.

(** X22: when the array has at least as many columns as the
    redundancies add up to, the slices averaged into the redundancy
    groups are defined for every group, group [ind] has
    [redundancy[ind]] columns, and the groups one after the other are
    the columns [0, 1, ...] up to the total: each column is averaged
    into exactly one group. *)
Theorem redundancy_bins_partition (nbl : nat) (redundancy : list nat) :
  (sum_list redundancy ≤ nbl)%nat →
  ∃ bins,
    mapM (bin_columns nbl redundancy) (seq 0 (length redundancy)) = Ok bins
    ∧ length <$> bins = redundancy
    ∧ mjoin bins = seq 0 (sum_list redundancy).
Proof.
  intros Hn.
  destruct (mapM_is_Ok (bin_columns nbl redundancy) (seq 0 (length redundancy)))
    as [bins Hb].
  { intros ind [_ Hi]%elem_of_seq. simpl in Hi.
    destruct (lookup_lt_is_Some_2 redundancy ind Hi) as [r Hr].
    rewrite (bin_columns_Ok _ _ _ _ Hn Hr). by eexists. }
  exists bins. split; [done|]. apply mapM_Ok in Hb.
  assert (∀ i r, redundancy !! i = Some r →
            bins !! i = Some (seq (sum_list (take i redundancy)) r)) as Hlk.
  { intros i r Hr. pose proof (lookup_lt_Some _ _ _ Hr) as Hlt.
    destruct (Forall2_lookup_l _ _ _ i i Hb) as (bn & Hbn & Hbin).
    { by apply lookup_seq_lt. }
    rewrite (bin_columns_Ok _ _ _ _ Hn Hr) in Hbin. congruence. }
  assert (length bins = length redundancy) as Hlen.
  { apply Forall2_length in Hb. by rewrite length_seq in Hb. }
  split.
  - apply list_eq. intros i. rewrite list_lookup_fmap.
    destruct (redundancy !! i) as [r|] eqn:Hr.
    + rewrite (Hlk _ _ Hr). simpl. by rewrite length_seq.
    + apply lookup_ge_None in Hr.
      rewrite (proj2 (lookup_ge_None bins i)) by lia. done.
  - clear Hb Hn. revert bins Hlk Hlen.
    induction redundancy as [|r l IH] using rev_ind; intros bins Hlk Hlen.
    + by destruct bins.
    + rewrite length_app in Hlen. simpl in Hlen.
      destruct bins as [|b0 bins _] using rev_ind; [simpl in Hlen; lia|].
      rewrite length_app in Hlen. simpl in Hlen.
      rewrite sum_list_app, seq_app. simpl.
      rewrite join_app. simpl. rewrite app_nil_r.
      f_equal.
      * apply IH; [|lia]. intros i x Hx.
        pose proof (lookup_lt_Some _ _ _ Hx) as Hlt.
        specialize (Hlk i x). rewrite !lookup_app_l in Hlk by lia.
        rewrite (Hlk Hx). by rewrite take_app_le by lia.
      * specialize (Hlk (length l) r).
        rewrite lookup_app_r, Nat.sub_diag in Hlk by lia.
        replace (length l) with (length bins) in Hlk at 1 by lia.
        rewrite lookup_app_r, Nat.sub_diag in Hlk by lia.
        specialize (Hlk eq_refl). injection Hlk as ->.
        rewrite take_app_length. f_equal. lia.
Qed.

Lemma redundancy_bins_partition_witness :
  ∃ bins,
    mapM (bin_columns 6 [2; 1; 3]%nat) (seq 0 3) = Ok bins
    ∧ length <$> bins = [2; 1; 3]%nat
    ∧ mjoin bins = seq 0 6.
Proof.
  apply (redundancy_bins_partition 6 [2; 1; 3]%nat). simpl. lia.
Defined.

End MapMakingFacts.
